(** * database-js-sqlparser: the query engine of [AbstractDriver] (index.js)

    A shallow embedding of the engine that sits between a parsed SQL
    statement and a pluggable row store: the predicate evaluator [doWhere]
    with its LIKE compiler, the projector [chooseFields], the nested-loop
    [join], the [doSelect] pipeline, the mutation and schema executors and
    the statement dispatcher of [runSQL].

    Conventions of the embedding.
    - A JavaScript object used as a record of columns (a row, a column
      definition) is a [gmap string value]; reading an absent property
      gives [VUndefined].
    - Arrays are lists; a table snapshot is the list of its
      (index, row) properties in enumeration order.
    - Numbers: the engine only adds, increments and compares numbers, so
      the embedding carries the integers exactly, plus [NaN].  Fractions,
      infinities and integers beyond 2^53 are outside the model.
    - Strings are sequences of 8-bit code units; [toUpperCase] acts on the
      letters a to z.
    - A function that can throw returns an [outcome]; a function that returns
      a promise returns the [promise] state that it eventually reaches. *)

From stdpp Require Import gmap strings list fin_maps pretty.
From Stdlib Require Import ZArith Ascii.

Open Scope Z_scope.

(** ** JavaScript values and the operators the engine applies to them *)

Inductive number :=
  | Int (z : Z)
  | NaN.

Inductive value :=
  | VUndefined
  | VNull
  | VBool (b : bool)
  | VNum (n : number)
  | VStr (s : string).

#[global] Instance number_eq_dec : EqDecision number.
Proof. solve_decision. Defined.

#[global] Instance value_eq_dec : EqDecision value.
Proof. solve_decision. Defined.

Abbreviation obj := (gmap string value).

(** [o[k]] on the fields that [o] holds itself: a field that is not there
    reads as undefined.  An object literal also answers at the names of
    [Object.prototype] (constructor, toString, ...), with a function that
    the values above do not cover; where a property below reads a field
    that may be absent, it is stated for the other names (see
    [inherited]). *)
Definition get_prop (o : obj) (k : string) : value := default VUndefined (o !! k).

(** [o[k] = v] *)
Definition set_prop (o : obj) (k : string) (v : value) : obj := <[k := v]> o.

Definition num_eqb (a b : number) : bool :=
  match a, b with
  | Int x, Int y => Z.eqb x y
  | _, _ => false
  end.

Definition num_add (a b : number) : number :=
  match a, b with
  | Int x, Int y => Int (x + y)
  | _, _ => NaN
  end.

(** IsLessThan on numbers: [None] is the undefined answer given for NaN. *)
Definition num_lt (a b : number) : option bool :=
  match a, b with
  | Int x, Int y => Some (Z.ltb x y)
  | _, _ => None
  end.

Definition is_whitespace (c : ascii) : bool :=
  let n := nat_of_ascii c in
  (n =? 9)%nat || (n =? 10)%nat || (n =? 11)%nat || (n =? 12)%nat
  || (n =? 13)%nat || (n =? 32)%nat || (n =? 160)%nat.

Definition is_line_terminator (c : ascii) : bool :=
  let n := nat_of_ascii c in (n =? 10)%nat || (n =? 13)%nat.

Definition digit_of (c : ascii) : option Z :=
  let n := nat_of_ascii c in
  if (48 <=? n)%nat && (n <=? 57)%nat then Some (Z.of_nat n - 48) else None.

Definition hex_digit_of (c : ascii) : option Z :=
  let n := nat_of_ascii c in
  if (48 <=? n)%nat && (n <=? 57)%nat then Some (Z.of_nat n - 48)
  else if (65 <=? n)%nat && (n <=? 70)%nat then Some (Z.of_nat n - 55)
  else if (97 <=? n)%nat && (n <=? 102)%nat then Some (Z.of_nat n - 87)
  else None.

Fixpoint trim_start (s : string) : string :=
  match s with
  | String c s' => if is_whitespace c then trim_start s' else s
  | EmptyString => EmptyString
  end.

Definition trim (s : string) : string :=
  String.rev (trim_start (String.rev (trim_start s))).

(** The longest prefix of digits in the given radix, read as a number, and
    how many digits it has. *)
Fixpoint digits_prefix (digit : ascii -> option Z) (radix : Z) (acc : Z)
    (count : nat) (s : string) : Z * nat * string :=
  match s with
  | String c s' =>
      match digit c with
      | Some d => digits_prefix digit radix (acc * radix + d) (S count) s'
      | None => (acc, count, s)
      end
  | EmptyString => (acc, count, s)
  end.

Definition split_sign (s : string) : Z * string :=
  match s with
  | String "-" s' => (-1, s')
  | String "+" s' => (1, s')
  | _ => (1, s)
  end.

(** StringToNumber on the numerals of the model: optional white space
    around an optionally signed run of decimal digits, and the empty string
    for 0.  A string that is no numeral is NaN; a string that writes a
    number in another way (a fraction, an exponent, a radix prefix,
    Infinity) is outside the model and is read as NaN as well. *)
Definition StringToNumber (s : string) : number :=
  match trim s with
  | EmptyString => Int 0
  | t =>
      let '(sign, body) := split_sign t in
      match digits_prefix digit_of 10 0 0 body with
      | (n, S _, EmptyString) => Int (sign * n)
      | _ => NaN
      end
  end.

Definition ToNumber (v : value) : number :=
  match v with
  | VUndefined => NaN
  | VNull => Int 0
  | VBool b => Int (if b then 1 else 0)
  | VNum n => n
  | VStr s => StringToNumber s
  end.

Definition number_to_string (n : number) : string :=
  match n with
  | Int z => pretty z
  | NaN => "NaN"
  end.

Definition ToString (v : value) : string :=
  match v with
  | VUndefined => "undefined"
  | VNull => "null"
  | VBool b => if b then "true" else "false"
  | VNum n => number_to_string n
  | VStr s => s
  end.

Definition ToBoolean (v : value) : bool :=
  match v with
  | VUndefined | VNull => false
  | VBool b => b
  | VNum (Int z) => negb (Z.eqb z 0)
  | VNum NaN => false
  | VStr s => negb (String.eqb s EmptyString)
  end.

(** [x === y] *)
Definition strict_equal (x y : value) : bool :=
  match x, y with
  | VUndefined, VUndefined | VNull, VNull => true
  | VBool a, VBool b => Bool.eqb a b
  | VNum a, VNum b => num_eqb a b
  | VStr a, VStr b => String.eqb a b
  | _, _ => false
  end.

(** [x == y]: null and undefined equal each other and nothing else; values
    of one type compare strictly; every other pair is compared as
    numbers. *)
Definition loose_equal (x y : value) : bool :=
  match x, y with
  | (VUndefined | VNull), (VUndefined | VNull) => true
  | (VUndefined | VNull), _ | _, (VUndefined | VNull) => false
  | VBool a, VBool b => Bool.eqb a b
  | VNum a, VNum b => num_eqb a b
  | VStr a, VStr b => String.eqb a b
  | _, _ => num_eqb (ToNumber x) (ToNumber y)
  end.

(** IsLessThan: two strings compare by code units, anything else as
    numbers. *)
Definition is_less_than (x y : value) : option bool :=
  match x, y with
  | VStr a, VStr b => Some (String.ltb a b)
  | _, _ => num_lt (ToNumber x) (ToNumber y)
  end.

(** [x < y], [x > y], [x <= y], [x >= y] *)
Definition js_lt (x y : value) : bool := bool_decide (is_less_than x y = Some true).
Definition js_gt (x y : value) : bool := bool_decide (is_less_than y x = Some true).
Definition js_le (x y : value) : bool := bool_decide (is_less_than y x = Some false).
Definition js_ge (x y : value) : bool := bool_decide (is_less_than x y = Some false).

(** [x + y] *)
Definition js_add (x y : value) : value :=
  match x, y with
  | VStr _, _ | _, VStr _ => VStr (ToString x +:+ ToString y)
  | _, _ => VNum (num_add (ToNumber x) (ToNumber y))
  end.

(** [x++] (the value stored back) *)
Definition js_incr (x : value) : value := VNum (num_add (ToNumber x) (Int 1)).

(** [x || y] *)
Definition js_or (x y : value) : value := if ToBoolean x then x else y.

Definition to_upper_char (c : ascii) : ascii :=
  let n := nat_of_ascii c in
  if (97 <=? n)%nat && (n <=? 122)%nat then ascii_of_nat (n - 32) else c.

(** [s.toUpperCase()] *)
Fixpoint toUpperCase (s : string) : string :=
  match s with
  | String c s' => String (to_upper_char c) (toUpperCase s')
  | EmptyString => EmptyString
  end.

(** [parseInt(v)]: the argument is turned into a string, leading white
    space and a sign are skipped, a 0x prefix selects radix 16, and the
    longest run of digits is read; no digit at all gives NaN. *)
Definition parseInt (v : value) : number :=
  let '(sign, body) := split_sign (trim_start (ToString v)) in
  let '(digit, radix, body) :=
    match body with
    | String "0" (String "x" rest) | String "0" (String "X" rest) =>
        (hex_digit_of, 16, rest)
    | _ => (digit_of, 10, body)
    end in
  match digits_prefix digit radix 0 0 body with
  | (n, S _, _) => Int (sign * n)
  | _ => NaN
  end.

(** [a.slice(start, end)] *)
Definition relative_index (len : nat) (n : number) : nat :=
  match n with
  | NaN => 0%nat
  | Int z =>
      if Z.ltb z 0 then Z.to_nat (Z.max (Z.of_nat len + z) 0)
      else Z.to_nat (Z.min z (Z.of_nat len))
  end.

Definition slice {A} (a : list A) (start stop : number) : list A :=
  let k := relative_index (length a) start in
  let final := relative_index (length a) stop in
  take (final - k) (drop k a).

(** ** Exceptions *)

Inductive thrown :=
  | ErrorObject (message : string)      (* new Error(message) *)
  | ThrownValue (v : value)             (* throw v, reject(v) *)
  | TypeError                           (* raised by the runtime *)
  | RegExpBeyondModel (source : string) (* a pattern the model of RegExp does not read *).

Inductive outcome (A : Type) :=
  | Ok (a : A)
  | Throw (e : thrown).
Arguments Ok {A} a.
Arguments Throw {A} e.

#[global] Instance outcome_bind : MBind outcome := fun A B k r =>
  match r with
  | Ok a => k a
  | Throw e => Throw e
  end.

(** ** Regular expressions, as far as the LIKE compiler needs them

    [RegExp] belongs to the runtime.  The model reads the patterns made of
    literal characters, identity escapes, [.], [.*] and [.*?], [^] and [$];
    a source text with any other construct is reported as beyond the
    model. *)

Inductive atom :=
  | AStart             (* ^ *)
  | AEnd               (* $ *)
  | AChar (c : ascii)  (* a literal character, escaped or not *)
  | AAny               (* . : one character that is no line terminator *)
  | AAnyStar           (* .* and .*? *).

Definition is_alnum (c : ascii) : bool :=
  let n := nat_of_ascii c in
  ((48 <=? n)%nat && (n <=? 57)%nat) || ((65 <=? n)%nat && (n <=? 90)%nat)
  || ((97 <=? n)%nat && (n <=? 122)%nat).

(** The characters with a meaning of their own that the model does not
    read: quantifiers, groups, classes, alternation. *)
Definition is_unread_syntax (c : ascii) : bool :=
  existsb (Ascii.eqb c) ["*"; "+"; "?"; "("; ")"; "["; "]"; "{"; "}"; "|"]%char.

Fixpoint parse_regexp (src : string) : option (list atom) :=
  match src with
  | EmptyString => Some []
  | String c rest =>
      if Ascii.eqb c "\" then
        match rest with
        | String d rest' =>
            if is_alnum d then None else cons (AChar d) <$> parse_regexp rest'
        | EmptyString => None
        end
      else if Ascii.eqb c "." then
        match rest with
        | String d rest' =>
            if Ascii.eqb d "*" then
              match rest' with
              | String q rest'' =>
                  if Ascii.eqb q "?" then cons AAnyStar <$> parse_regexp rest''
                  else cons AAnyStar <$> parse_regexp rest'
              | EmptyString => cons AAnyStar <$> parse_regexp rest'
              end
            else cons AAny <$> parse_regexp rest
        | EmptyString => cons AAny <$> parse_regexp rest
        end
      else if Ascii.eqb c "^" then cons AStart <$> parse_regexp rest
      else if Ascii.eqb c "$" then cons AEnd <$> parse_regexp rest
      else if is_unread_syntax c then None
      else cons (AChar c) <$> parse_regexp rest
  end.

(** [rmatch re at_start s]: [re] matches a prefix of [s]; [at_start] tells
    whether [s] begins at the start of the input. *)
Fixpoint rmatch (re : list atom) : bool -> string -> bool :=
  match re with
  | [] => fun _ _ => true
  | AStart :: re' => fun at_start s => at_start && rmatch re' at_start s
  | AEnd :: re' => fun at_start s =>
      match s with
      | EmptyString => rmatch re' at_start s
      | String _ _ => false
      end
  | AChar c :: re' => fun _ s =>
      match s with
      | String d s' => Ascii.eqb c d && rmatch re' false s'
      | EmptyString => false
      end
  | AAny :: re' => fun _ s =>
      match s with
      | String d s' => negb (is_line_terminator d) && rmatch re' false s'
      | EmptyString => false
      end
  | AAnyStar :: re' =>
      fix star (at_start : bool) (s : string) : bool :=
        rmatch re' at_start s
        || match s with
           | String d s' => negb (is_line_terminator d) && star false s'
           | EmptyString => false
           end
  end.

(** The search of [RegExp.prototype.test]: a match starting anywhere. *)
Fixpoint rsearch (re : list atom) (at_start : bool) (s : string) : bool :=
  rmatch re at_start s
  || match s with
     | String _ s' => rsearch re false s'
     | EmptyString => false
     end.

(** [re.test(v)] *)
Definition RegExp_test (re : list atom) (v : value) : bool :=
  rsearch re true (ToString v).

(** ** The LIKE compiler (index.js, lines 39-55) *)

(** The callback built by [replaceIfNotPrecededBy]. *)
Definition replaceIfNotPrecededBy (notPrecededBy replacement : string)
    (matched : string) : string :=
  if String.eqb (String.substring 0 (String.length notPrecededBy) matched)
       notPrecededBy
  then matched else replacement.

(** [s.replace(/([\.\*\?\$\^])/g, "\\$1")] *)
Fixpoint escape_special (s : string) : string :=
  match s with
  | EmptyString => EmptyString
  | String c s' =>
      if existsb (Ascii.eqb c) ["."; "*"; "?"; "$"; "^"]%char
      then String "\" (String c (escape_special s'))
      else String c (escape_special s')
  end.

(** [s.replace(/(?:\\)?w/g, f)]: every [w], together with a backslash right
    before it when there is one, is replaced by what [f] says. *)
Fixpoint replace_wildcard (w : ascii) (f : string -> string) (s : string)
    : string :=
  match s with
  | EmptyString => EmptyString
  | String c s' =>
      if Ascii.eqb c w then f (String w EmptyString) +:+ replace_wildcard w f s'
      else
        match s' with
        | String d s'' =>
            if Ascii.eqb c "\" && Ascii.eqb d w
            then f (String "\" (String w EmptyString)) +:+ replace_wildcard w f s''
            else String c (replace_wildcard w f s')
        | EmptyString => String c EmptyString
        end
  end.

Fixpoint drop_chars (n : nat) (s : string) : string :=
  match n, s with
  | S n', String _ s' => drop_chars n' s'
  | _, _ => s
  end.

(** [s.replace(pat, rep)] with a string pattern: the first occurrence
    only. *)
Fixpoint replace_first (pat rep s : string) : string :=
  if String.prefix pat s then rep +:+ drop_chars (String.length pat) s
  else
    match s with
    | String c s' => String c (replace_first pat rep s')
    | EmptyString => EmptyString
    end.

(** The text handed to [new RegExp]. *)
Definition like2RegExp_source (like : string) : string :=
  let restring := like in
  let restring := escape_special restring in
  let restring := replace_wildcard "%" (replaceIfNotPrecededBy "\" ".*?") restring in
  let restring := replace_wildcard "_" (replaceIfNotPrecededBy "\" ".") restring in
  let restring := replace_first "\%" "%" restring in
  let restring := replace_first "\_" "_" restring in
  "^" +:+ restring +:+ "$".

(** [like2RegExp(like)]; [like.replace] is a TypeError unless [like] is a
    string. *)
Definition like2RegExp (like : value) : outcome (list atom) :=
  match like with
  | VStr like =>
      match parse_regexp (like2RegExp_source like) with
      | Some re => Ok re
      | None => Throw (RegExpBeyondModel (like2RegExp_source like))
      end
  | _ => Throw TypeError
  end.

(** ** Expression trees *)

Inductive expr :=
  | column_ref (table : option string) (column : string)
  | binary_expr (operator : string) (left right : expr)
  | aggr_func (name : string) (args : expr)
  | literal (v : value)   (* any other node; only its [value] is read *).

(** [e.type] *)
Definition expr_type (e : expr) : string :=
  match e with
  | column_ref _ _ => "column_ref"
  | binary_expr _ _ _ => "binary_expr"
  | aggr_func _ _ => "aggr_func"
  | literal _ => "literal"
  end.

(** [e.table] and [e.column]; a missing property reads as undefined. *)
Definition expr_table (e : expr) : value :=
  match e with
  | column_ref (Some t) _ => VStr t
  | column_ref None _ => VNull
  | _ => VUndefined
  end.

Definition expr_column (e : expr) : value :=
  match e with
  | column_ref _ c => VStr c
  | _ => VUndefined
  end.

(** The property key [e.table + "." + e.column]. *)
Definition qualified_name (e : expr) : string :=
  ToString (js_add (js_add (expr_table e) (VStr ".")) (expr_column e)).

(** The property key [e.column]. *)
Definition bare_name (e : expr) : string := ToString (expr_column e).

(** [namespace ? e.table + "." + e.column : e.column] *)
Definition field_name (namespace : bool) (e : expr) : string :=
  if namespace then qualified_name e else bare_name e.

(** ** The predicate evaluator (index.js, lines 27-90) *)

(** [getVal]; the recursive call [this.doWhere(obj, row)] passes no
    namespace, so that the nested evaluation runs with the default
    [false]. *)
Definition getVal (doWhere : expr -> obj -> outcome value) (row : obj)
    (namespace : bool) (o : expr) : outcome value :=
  match o with
  | column_ref _ _ => Ok (get_prop row (field_name namespace o))
  | binary_expr _ _ _ => doWhere o row
  | aggr_func _ _ => Ok VUndefined
  | literal v => Ok v
  end.

Section Operators.
Variable val : expr -> outcome value.
Variables left right : expr.

Definition compare_with (op : value -> value -> bool) : outcome value :=
  l ← val left; r ← val right; Ok (VBool (op l r)).

(** [getVal(left) && getVal(right)]: the right operand is evaluated only
    when the left one is truthy. *)
Definition and_operands : outcome value :=
  l ← val left; if ToBoolean l then val right else Ok l.

Definition like_operands (expected : bool) : outcome value :=
  pattern ← val right;
  re ← like2RegExp pattern;
  l ← val left;
  Ok (VBool (Bool.eqb (RegExp_test re l) expected)).

Definition apply_operator (operator : string) : outcome value :=
  if String.eqb operator "=" then compare_with loose_equal
  else if String.eqb operator "!=" || String.eqb operator "<>"
    then compare_with (fun l r => negb (loose_equal l r))
  else if String.eqb operator "<" then compare_with js_lt
  else if String.eqb operator "<=" then compare_with js_le
  else if String.eqb operator ">" then compare_with js_gt
  else if String.eqb operator ">=" then compare_with js_ge
  else if String.eqb operator "AND" then and_operands
  else if String.eqb operator "OR" then and_operands
  else if String.eqb operator "IS" then compare_with strict_equal
  else if String.eqb operator "LIKE" then like_operands true
  else if String.eqb operator "NOT LIKE" then like_operands false
  else Ok (VBool false).
End Operators.

(** [doWhere] on a clause that is not null. *)
Fixpoint doWhere_node (where_ : expr) (row : obj) (namespace : bool)
    : outcome value :=
  match where_ with
  | binary_expr operator l r =>
      apply_operator
        (getVal (fun o row' => doWhere_node o row' false) row namespace)
        l r operator
  | _ => Ok (VBool false)
  end.

Definition doWhere (where_ : option expr) (row : obj) (namespace : bool)
    : outcome value :=
  match where_ with
  | None => Ok (VBool true)
  | Some w => doWhere_node w row namespace
  end.

(** ** Statement trees *)

(** An entry of [sqlobj.columns]: [{ expr, as }]. *)
Record column := { c_expr : expr; c_as : option string }.

(** [sqlobj.columns]: the string "*" or a list of entries. *)
Inductive column_list :=
  | Star
  | Columns (cols : list column).

(** An entry of [sqlobj.from]: [{ table, join, on }]. *)
Record from_item := {
  f_table : string;
  f_join : option string;
  f_on : option expr
}.

(** An entry of [sqlobj.orderby]: [{ expr, type }]. *)
Record orderer := { o_expr : expr; o_type : string }.

Record select := {
  s_columns : column_list;
  s_from : list from_item;
  s_where : option expr;
  s_groupby : option (list expr);
  s_orderby : option (list orderer);
  s_limit : option (list expr)
}.

(** [e.value] *)
Definition expr_value (e : expr) : value :=
  match e with
  | literal v => v
  | _ => VUndefined
  end.

(** [as || fallback] as a property key. *)
Definition as_or (as_ : option string) (fallback : string) : string :=
  match as_ with
  | Some a => if String.eqb a EmptyString then fallback else a
  | None => fallback
  end.

(** ** The projector (index.js, lines 100-164) *)

(** [data[index]] is replaced by [f data[index]]. *)
Definition modify (data : list obj) (index : nat) (f : obj -> obj) : list obj :=
  alter f index data.

(** [data.findIndex(p)]; [None] stands for -1. *)
Fixpoint findIndex {A} (p : A -> bool) (data : list A) : option nat :=
  match data with
  | [] => None
  | x :: rest => if p x then Some 0%nat else S <$> findIndex p rest
  end.

(** The test of one group row against the incoming row: every listed group
    column is read by its bare name in both. *)
Definition same_group (groups : list expr) (row drow : obj) : bool :=
  forallb (fun group =>
             loose_equal (get_prop drow (bare_name group))
                         (get_prop row (bare_name group))) groups.

(** The closure [groupby]: the index of the group row, after pushing an
    empty one when it is needed. *)
Definition groupby (sqlobj : select) (data : list obj) (row : obj)
    : list obj * nat :=
  match s_groupby sqlobj with
  | None =>
      if (length data <? 1)%nat then (data ++ [∅], 0%nat) else (data, 0%nat)
  | Some groups =>
      match findIndex (same_group groups row) data with
      | None => (data ++ [∅], length data)
      | Some result => (data, result)
      end
  end.

(** [if (o[name] === undefined) o[name] = 0] *)
Definition init_zero (name : string) (o : obj) : obj :=
  if strict_equal (get_prop o name) VUndefined
  then set_prop o name (VNum (Int 0)) else o.

(** One turn of the loop over the columns in aggregate mode. *)
Definition aggregate_column (index : nat) (row : obj) (data : list obj)
    (col : column) : list obj :=
  match c_expr col with
  | column_ref _ _ =>
      let name := as_or (c_as col) (bare_name (c_expr col)) in
      modify data index
        (fun o => set_prop o name (get_prop row (bare_name (c_expr col))))
  | aggr_func fname args =>
      let name :=
        as_or (c_as col) (toUpperCase fname +:+ "(" +:+ bare_name args +:+ ")") in
      if String.eqb (toUpperCase fname) "SUM" then
        modify data index
          (fun o =>
             let o := init_zero name o in
             set_prop o name
               (js_add (get_prop o name) (get_prop row (bare_name args))))
      else if String.eqb (toUpperCase fname) "COUNT" then
        modify data index
          (fun o =>
             let o := init_zero name o in
             set_prop o name (js_incr (get_prop o name)))
      else data
  | _ => data
  end.

(** One turn of the loop over the columns in flat mode. *)
Definition flat_column (namespace : bool) (row : obj) (result : obj)
    (col : column) : obj :=
  let name := as_or (c_as col) (field_name namespace (c_expr col)) in
  let result :=
    set_prop result name (get_prop row (field_name namespace (c_expr col))) in
  if strict_equal (get_prop result name) VUndefined
  then set_prop result name VNull else result.

Definition is_aggr_func (col : column) : bool :=
  String.eqb (expr_type (c_expr col)) "aggr_func".

(** [chooseFields(sqlobj, data, row, namespace)]; the array [data] that the
    source mutates is returned. *)
Definition chooseFields (sqlobj : select) (data : list obj) (row : obj)
    (namespace : bool) : list obj :=
  match s_columns sqlobj with
  | Star => data ++ [row]
  | Columns cols =>
      let isAggregate := existsb is_aggr_func cols in
      if isAggregate then
        let '(data, index) := groupby sqlobj data row in
        fold_left (aggregate_column index row) cols data
      else
        let result := fold_left (flat_column namespace row) cols ∅ in
        data ++ [result]
  end.

(** ** The join (index.js, lines 175-208) *)

(** The wrappers [{ used, row }]. *)
Record marked := { used : bool; row : obj }.

Definition mark (m : marked) : marked := {| used := true; row := row m |}.

(** [for (var k in r) { bigrow[k] = r[k]; }] *)
Definition copy_into (bigrow r : obj) : obj :=
  map_fold (fun k v bigrow => set_prop bigrow k v) bigrow r.

(** The combined row of one pair. *)
Definition merge_rows (dest src : obj) : obj :=
  let bigrow := ∅ in
  let bigrow := copy_into bigrow dest in
  copy_into bigrow src.

(** The inner loop, for one row of [dest]: the rows pushed so far, the
    [used] flag of the dest row and the wrappers of [src] are threaded
    through. *)
Fixpoint join_inner (query : option expr) (namespace : bool) (d : obj)
    (srcRows : list marked) (rows : list obj) (dused : bool)
    : outcome (list obj * bool * list marked) :=
  match srcRows with
  | [] => Ok (rows, dused, [])
  | srcRow :: rest =>
      let bigrow := merge_rows d (row srcRow) in
      v ← doWhere query bigrow namespace;
      if ToBoolean v then
        '(rows, dused, rest) ← join_inner query namespace d rest (rows ++ [bigrow]) true;
        Ok (rows, dused, mark srcRow :: rest)
      else
        '(rows, dused, rest) ← join_inner query namespace d rest rows dused;
        Ok (rows, dused, srcRow :: rest)
  end.

(** The outer loop over the wrappers of [dest]. *)
Fixpoint join_outer (query : option expr) (namespace : bool)
    (destRows srcRows : list marked) (rows : list obj)
    : outcome (list obj * list marked * list marked) :=
  match destRows with
  | [] => Ok (rows, [], srcRows)
  | destRow :: rest =>
      '(rows, dused, srcRows) ←
        join_inner query namespace (row destRow) srcRows rows (used destRow);
      '(rows, rest, srcRows) ← join_outer query namespace rest srcRows rows;
      Ok (rows, {| used := dused; row := row destRow |} :: rest, srcRows)
  end.

Definition unused_rows (ms : list marked) : list obj :=
  row <$> filter (fun m => used m = false) ms.

Definition join (dest src : list obj) (query : option expr)
    (includeAllDest includeAllSrc : bool) (namespace : bool)
    : outcome (list obj) :=
  let rows := [] in
  let destRows := (fun r => {| used := false; row := r |}) <$> dest in
  let srcRows := (fun r => {| used := false; row := r |}) <$> src in
  '(rows, destRows, srcRows) ← join_outer query namespace destRows srcRows rows;
  let rows := if includeAllDest then rows ++ unused_rows destRows else rows in
  let rows := if includeAllSrc then rows ++ unused_rows srcRows else rows in
  Ok rows.

(** ** ORDER BY (index.js, lines 269-286) *)

Definition OrderByUnsupported : thrown :=
  ErrorObject "ORDER BY only supported for columns, aggregates are not supported".

(** The comparator handed to [sort]. *)
Fixpoint order_compare (namespace : bool) (orderby : list orderer) (a b : obj)
    : outcome Z :=
  match orderby with
  | [] => Ok 0
  | o :: rest =>
      let column := field_name namespace (o_expr o) in
      if negb (String.eqb (expr_type (o_expr o)) "column_ref") then
        Throw OrderByUnsupported
      else if js_gt (get_prop a column) (get_prop b column) then
        Ok (if String.eqb (o_type o) "ASC" then 1 else -1)
      else if js_lt (get_prop a column) (get_prop b column) then
        Ok (if String.eqb (o_type o) "ASC" then -1 else 1)
      else order_compare namespace rest a b
  end.

(** [Array.prototype.sort] is stable; which pairs it compares is left to
    the runtime.  The model is the stable insertion sort: every element is
    put behind the elements before it that do not compare greater.  An
    array of fewer than two elements is returned without any call of the
    comparator. *)
Fixpoint sort_insert {A} (cmp : A -> A -> outcome Z) (x : A) (sorted : list A)
    : outcome (list A) :=
  match sorted with
  | [] => Ok [x]
  | y :: rest =>
      c ← cmp y x;
      if Z.ltb 0 c then Ok (x :: y :: rest)
      else rest ← sort_insert cmp x rest; Ok (y :: rest)
  end.

Definition sort {A} (cmp : A -> A -> outcome Z) (a : list A) : outcome (list A) :=
  fold_left (fun sorted x => sorted ← sorted; sort_insert cmp x sorted)
            a (Ok []).

(** ** Promises and the backend

    A promise is described by the state it ends in; [at_] is the tick at
    which it settles, which decides which rejection [Promise.all] sees
    first. *)

Inductive promise (A : Type) :=
  | Fulfilled (at_ : nat) (a : A)
  | Rejected (at_ : nat) (reason : thrown)
  | Pending.
Arguments Fulfilled {A} at_ a.
Arguments Rejected {A} at_ reason.
Arguments Pending {A}.

Definition earlier_rejection {A} (best : option (nat * thrown)) (p : promise A)
    : option (nat * thrown) :=
  match p, best with
  | Rejected t e, Some (t', _) => if (t <? t')%nat then Some (t, e) else best
  | Rejected t e, None => Some (t, e)
  | _, _ => best
  end.

Definition first_rejection {A} (ps : list (promise A)) : option (nat * thrown) :=
  fold_left earlier_rejection ps None.

Fixpoint all_fulfilled {A} (ps : list (promise A)) : option (nat * list A) :=
  match ps with
  | [] => Some (0%nat, [])
  | Fulfilled t a :: rest =>
      '(t', l) ← all_fulfilled rest; Some (Nat.max t t', a :: l)
  | _ => None
  end.

(** [Promise.all(ps)]: rejected with the earliest rejection, fulfilled once
    all are, pending otherwise. *)
Definition Promise_all {A} (ps : list (promise A)) : promise (list A) :=
  match first_rejection ps with
  | Some (t, e) => Rejected t e
  | None =>
      match all_fulfilled ps with
      | Some (t, l) => Fulfilled t l
      | None => Pending
      end
  end.

(** [p.then(f)]: the promise that [then] returns; a throw in [f] rejects
    it. *)
Definition then_ {A B} (p : promise A) (f : A -> outcome B) : promise B :=
  match p with
  | Fulfilled t a =>
      match f a with
      | Ok b => Fulfilled t b
      | Throw e => Rejected t e
      end
  | Rejected t e => Rejected t e
  | Pending => Pending
  end.

(** A promise created at tick [t] settles no earlier. *)
Definition not_before {A} (t : nat) (p : promise A) : promise A :=
  match p with
  | Fulfilled t' a => Fulfilled (Nat.max t t') a
  | Rejected t' e => Rejected (Nat.max t t') e
  | Pending => Pending
  end.

(** [new Promise((resolve, reject) => { chain })] where the only way out
    of [chain] is a call of [resolve] at its end: a rejection of [chain]
    has no handler, [reject] is never called and the new promise stays
    pending. *)
Definition resolved_by {A} (chain : promise A) : promise A :=
  match chain with
  | Fulfilled t a => Fulfilled t a
  | Rejected _ _ => Pending
  | Pending => Pending
  end.

(** A column definition handed to [create] (an object), and a table
    snapshot: the properties of the loaded object in enumeration order. *)
Abbreviation snapshot := (list (string * obj)).

Record backend := {
  ready : promise value;
  load : string -> promise snapshot;
  store : string -> option string -> obj -> promise value;
  remove : string -> string -> promise value;
  create : string -> list obj -> promise value;
  drop : string -> promise value
}.

Inductive call :=
  | CallReady
  | CallLoad (table : string)
  | CallStore (table : string) (index : option string) (r : obj)
  | CallRemove (table : string) (index : string)
  | CallCreate (table : string) (definition : list obj)
  | CallDrop (table : string).

(** What running a piece of the engine amounts to: the backend calls it
    issues, in order, and the promise it returns. *)
Record run (A : Type) := { calls : list call; settles : promise A }.
Arguments calls {A} r.
Arguments settles {A} r.

(** ** SELECT (index.js, lines 215-302) *)

Record loaded := { l_from : from_item; l_rows : list obj }.

(** [nsRow[table + "." + key] = row[key]] for every key. *)
Definition namespace_row (table : string) (r : obj) : obj :=
  map_fold (fun key v nsRow => set_prop nsRow (table +:+ "." +:+ key) v) ∅ r.

Definition load_table (namespace : bool) (from : from_item) (table : snapshot)
    : loaded :=
  let rows := snd <$> table in
  {| l_from := from;
     l_rows := if namespace then namespace_row (f_table from) <$> rows
               else rows |}.

(** The loop [while (tables.length > 1)]: the second table is merged into
    the first and dropped; a join kind other than the four listed merges
    nothing and the table is dropped all the same. *)
Fixpoint fold_joins (namespace : bool) (rows : list obj) (others : list loaded)
    : outcome (list obj) :=
  match others with
  | [] => Ok rows
  | second :: rest =>
      let on := f_on (l_from second) in
      let kind := default EmptyString (f_join (l_from second)) in
      rows ←
        (if String.eqb kind "INNER JOIN"
         then join rows (l_rows second) on false false namespace
         else if String.eqb kind "LEFT JOIN"
         then join rows (l_rows second) on true false namespace
         else if String.eqb kind "RIGHT JOIN"
         then join rows (l_rows second) on false true namespace
         else if String.eqb kind "FULL JOIN"
         then join rows (l_rows second) on true true namespace
         else Ok rows);
      fold_joins namespace rows rest
  end.

(** [rows.filter(row => this.doWhere(where, row, namespace))] *)
Fixpoint filter_where (where_ : option expr) (namespace : bool)
    (rows : list obj) : outcome (list obj) :=
  match rows with
  | [] => Ok []
  | r :: rest =>
      v ← doWhere where_ r namespace;
      rest ← filter_where where_ namespace rest;
      Ok (if ToBoolean v then r :: rest else rest)
  end.

Definition InvalidLimit : thrown :=
  ErrorObject "Invalid LIMIT expression: Use LIMIT [offset,] number".

Definition apply_limit (limit : option (list expr)) (result : list obj)
    : outcome (list obj) :=
  match limit with
  | None => Ok result
  | Some limit =>
      if negb (length limit =? 2)%nat then Throw InvalidLimit
      else
        let offs := parseInt (expr_value (default (literal VUndefined) (limit !! 0%nat))) in
        let len := parseInt (expr_value (default (literal VUndefined) (limit !! 1%nat))) in
        Ok (slice result offs (num_add offs len))
  end.

(** The callback run on the loaded tables. *)
Definition select_rows (sqlobj : select) (namespace : bool)
    (tableset : list snapshot) : outcome (list obj) :=
  let tables := zip_with (load_table namespace) (s_from sqlobj) tableset in
  match tables with
  | [] => Throw TypeError
  | first :: others =>
      rows ← fold_joins namespace (l_rows first) others;
      resultRows ← filter_where (s_where sqlobj) namespace rows;
      resultRows ←
        match s_orderby sqlobj with
        | Some orderby => sort (order_compare namespace orderby) resultRows
        | None => Ok resultRows
        end;
      let result :=
        fold_left (fun result r => chooseFields sqlobj result r namespace)
                  resultRows [] in
      apply_limit (s_limit sqlobj) result
  end.

(** The promise returned by [Promise.all(promises).then(...)] inside
    [doSelect]; nobody keeps it. *)
Definition doSelect_chain (b : backend) (sqlobj : select) : promise (list obj) :=
  let namespace := (1 <? length (s_from sqlobj))%nat in
  let promises := (fun f => load b (f_table f)) <$> s_from sqlobj in
  then_ (Promise_all promises) (select_rows sqlobj namespace).

Definition doSelect (b : backend) (sqlobj : select) : run (list obj) :=
  {| calls := (fun f => CallLoad (f_table f)) <$> s_from sqlobj;
     settles := resolved_by (doSelect_chain b sqlobj) |}.

(** ** UPDATE, INSERT, DELETE (index.js, lines 312-390) *)

Record update := {
  u_table : string;
  u_set : list (string * expr);   (* [{ column, value }] *)
  u_where : option expr
}.

Record insert := {
  i_table : string;
  i_columns : list string;
  i_values : list (list expr)     (* [values[i].value] *)
}.

Record delete := {
  d_from : list from_item;
  d_where : option expr
}.

(** The loop [for (let row_id in table)] of [doUpdate] and [doDelete]: the
    indices of the rows on which [doWhere] is [true], up to the first
    throw, and that throw. *)
Fixpoint matching_ids (where_ : option expr) (table : snapshot)
    : list string * option thrown :=
  match table with
  | [] => ([], None)
  | (row_id, r) :: rest =>
      match doWhere where_ r false with
      | Throw e => ([], Some e)
      | Ok v =>
          if strict_equal v (VBool true) then
            let '(ids, e) := matching_ids where_ rest in (row_id :: ids, e)
          else matching_ids where_ rest
      end
  end.

Definition doUpdate (b : backend) (sqlobj : update) : run (list string) :=
  match load b (u_table sqlobj) with
  | Fulfilled t table =>
      let updateObj :=
        fold_left (fun updateObj item => set_prop updateObj item.1 (expr_value item.2))
                  (u_set sqlobj) ∅ in
      let '(rows, thrown_) := matching_ids (u_where sqlobj) table in
      let promises := (fun row_id => store b (u_table sqlobj) (Some row_id) updateObj) <$> rows in
      {| calls := CallLoad (u_table sqlobj)
                  :: ((fun row_id => CallStore (u_table sqlobj) (Some row_id) updateObj) <$> rows);
         settles :=
           match thrown_ with
           | Some _ => Pending
           | None => not_before t (then_ (Promise_all promises) (fun _ => Ok rows))
           end |}
  | _ => {| calls := [CallLoad (u_table sqlobj)]; settles := Pending |}
  end.

(** [data[columns[n]] = tuple[n].value] for every column; a tuple that is
    too short is a TypeError. *)
Fixpoint insert_row (columns : list string) (n : nat) (tuple : list expr)
    (data : obj) : outcome obj :=
  match columns with
  | [] => Ok data
  | c :: rest =>
      match tuple !! n with
      | Some e => insert_row rest (S n) tuple (set_prop data c (expr_value e))
      | None => Throw TypeError
      end
  end.

(** The loop over [sqlobj.values]: the rows stored up to the first throw,
    and that throw. *)
Fixpoint insert_rows (columns : list string) (values : list (list expr))
    : list obj * option thrown :=
  match values with
  | [] => ([], None)
  | tuple :: rest =>
      match insert_row columns 0 tuple ∅ with
      | Throw e => ([], Some e)
      | Ok data => let '(rows, e) := insert_rows columns rest in (data :: rows, e)
      end
  end.

Definition doInsert (b : backend) (sqlobj : insert) : run (list value) :=
  let '(stored, thrown_) := insert_rows (i_columns sqlobj) (i_values sqlobj) in
  let rows := (fun data => store b (i_table sqlobj) None data) <$> stored in
  {| calls := (fun data => CallStore (i_table sqlobj) None data) <$> stored;
     settles :=
       match thrown_ with
       | Some e => Rejected 0 e
       | None => Promise_all rows
       end |}.

Definition doDelete (b : backend) (sqlobj : delete) : run (list string) :=
  match d_from sqlobj with
  | [] => {| calls := []; settles := Rejected 0 TypeError |}
  | from :: _ =>
      match load b (f_table from) with
      | Fulfilled t table =>
          let '(rowIds, thrown_) := matching_ids (d_where sqlobj) table in
          let promises := (fun row_id => remove b (f_table from) row_id) <$> rowIds in
          {| calls := CallLoad (f_table from)
                      :: ((fun row_id => CallRemove (f_table from) row_id) <$> rowIds);
             settles :=
               match thrown_ with
               | Some _ => Pending
               | None => not_before t (then_ (Promise_all promises) (fun _ => Ok rowIds))
               end |}
      | _ => {| calls := [CallLoad (f_table from)]; settles := Pending |}
      end
  end.

(** ** CREATE TABLE and DROP TABLE (index.js, lines 398-470) *)

(** An entry of [sqlobj.columns] of a CREATE: [{ name, type: { type, args } }]. *)
Record column_spec := {
  cs_name : string;
  cs_type : string;
  cs_args : option (list value)   (* [col.type.args]; absent when the type
                                     is written without parentheses *)
}.

Record create_table := {
  ct_name : string;               (* [sqlobj.name.table] *)
  ct_columns : list column_spec
}.

Definition one_of (names : list string) (s : string) : bool :=
  existsb (String.eqb s) names.

Definition unsupported_types : list string :=
  ["INTERVAL"; "ARRAY"; "MULTISET"; "XML"].

Definition UnsupportedType (token : string) : thrown :=
  ThrownValue (VStr (token +:+ " not yet supported")).

(** [col.type.args[0]]: reading an element of [args] when the type node
    has none is a TypeError. *)
Definition first_arg (col : column_spec) : outcome value :=
  match cs_args col with
  | Some args => Ok (default VUndefined (args !! 0%nat))
  | None => Throw TypeError
  end.

(** The body of the loop over the columns: the object pushed for the
    column that stands at position [n]. *)
Definition column_definition (n : nat) (col : column_spec) : outcome obj :=
  let column : obj :=
    set_prop (set_prop ∅ "name" (VStr (cs_name col))) "index" (VNum (Int (Z.of_nat n))) in
  let token := toUpperCase (cs_type col) in
  if one_of ["CHAR"; "CHARACTER"] token then
    let column := set_prop column "type" (VStr "string") in
    let column := set_prop column "pad" (VStr " ") in
    arg0 ← first_arg col;
    Ok (set_prop column "length" (VNum (parseInt arg0)))
  else if one_of ["VARCHAR"] token then
    let column := set_prop column "type" (VStr "string") in
    arg0 ← first_arg col;
    Ok (set_prop column "length" (VNum (parseInt arg0)))
  else if one_of ["BINARY"; "VARBINARY"] token then
    let column := set_prop column "type" (VStr "binary") in
    arg0 ← first_arg col;
    Ok (set_prop column "length" (VNum (parseInt arg0)))
  else if one_of ["BOOLEAN"] token then
    Ok (set_prop column "type" (VStr "boolean"))
  else if one_of ["INTEGER"; "SMALLINT"; "BIGINT"] token then
    Ok (set_prop column "type" (VStr "integer"))
  else if one_of ["DECIMAL"; "NUMERIC"; "FLOAT"; "REAL"; "DOUBLE"] token then
    Ok (set_prop column "type" (VStr "float"))
  else if one_of ["DATE"; "TIME"; "TIMESTAMP"] token then
    Ok (set_prop column "type" (VStr "date"))
  else if one_of unsupported_types token then
    Throw (UnsupportedType token)
  else if one_of ["TEXT"] token then
    Ok (set_prop column "type" (VStr "string"))
  else Ok column.

(** The loop [for (var col of sqlobj.columns)] with its counter [n]. *)
Fixpoint column_definitions (n : nat) (cols : list column_spec)
    : outcome (list obj) :=
  match cols with
  | [] => Ok []
  | col :: rest =>
      column ← column_definition n col;
      columns ← column_definitions (S n) rest;
      Ok (column :: columns)
  end.

(** A throw in the loop happens in the executor of the new promise and
    rejects it; a rejection of [create] has no handler. *)
Definition doCreate (b : backend) (sqlobj : create_table) : run value :=
  match column_definitions 0 (ct_columns sqlobj) with
  | Throw e => {| calls := []; settles := Rejected 0 e |}
  | Ok columns =>
      {| calls := [CallCreate (ct_name sqlobj) columns];
         settles := resolved_by (create b (ct_name sqlobj) columns) |}
  end.

Definition doDrop (b : backend) (table : string) : run value :=
  {| calls := [CallDrop table]; settles := drop b table |}.

(** ** The dispatcher (index.js, lines 479-524), from the statement tree on *)

Inductive statement :=
  | Select (sqlobj : select)
  | Update (sqlobj : update)
  | Insert (sqlobj : insert)
  | Delete (sqlobj : delete)
  | CreateTable (sqlobj : create_table)
  | DropTable (table : string)
  | Unknown (type : string).

(** What the caller of [execute] is handed. *)
Inductive answer :=
  | Rows (rows : list obj)
  | Indices (ids : list value)
  | Flag (success : value).

Definition map_run {A B} (f : A -> B) (r : run A) : run B :=
  {| calls := calls r; settles := then_ (settles r) (fun a => Ok (f a)) |}.

(** [this.doX(sqlobj).then(v => resolve(v)).catch(err => reject(err))] *)
Definition dispatch (b : backend) (sqlobj : statement) : run answer :=
  match sqlobj with
  | Select s => map_run Rows (doSelect b s)
  | Update s => map_run (fun ids => Indices (VStr <$> ids)) (doUpdate b s)
  | Insert s => map_run Indices (doInsert b s)
  | Delete s => map_run (fun ids => Indices (VStr <$> ids)) (doDelete b s)
  | CreateTable s => map_run Flag (doCreate b s)
  | DropTable t => map_run Flag (doDrop b t)
  | Unknown type =>
      {| calls := [];
         settles := Rejected 0 (ThrownValue (VStr ("Invalid SQL syntax: " +:+ type))) |}
  end.

(** [runSQL] once the statement tree is there: nothing happens before
    [ready] is fulfilled, and a rejection of [ready] has no handler. *)
Definition runSQL (b : backend) (sqlobj : statement) : run answer :=
  match ready b with
  | Fulfilled t _ =>
      let r := dispatch b sqlobj in
      {| calls := CallReady :: calls r; settles := not_before t (settles r) |}
  | _ => {| calls := [CallReady]; settles := Pending |}
  end.

Definition execute := runSQL.

(** ** Notions used to state the properties *)

(** [x && y] *)
Definition js_and (x y : value) : value := if ToBoolean x then y else x.

(** An operand as [doWhere] resolves it. *)
Definition resolve (row : obj) (namespace : bool) (o : expr) : outcome value :=
  getVal (fun o row' => doWhere_node o row' false) row namespace o.

(** The ON predicate holds on the pair. *)
Definition on_holds (query : option expr) (namespace : bool) (d s : obj) : bool :=
  match doWhere query (merge_rows d s) namespace with
  | Ok v => ToBoolean v
  | Throw _ => false
  end.

(** The rows a join emits from the pairs, in the order of the nested
    loop. *)
Definition matched_pairs (hold : obj -> obj -> bool) (dest src : list obj)
    : list obj :=
  d ← dest; s ← src; if hold d s then [merge_rows d s] else [].

Definition unmatched_dest (hold : obj -> obj -> bool) (dest src : list obj)
    : list obj :=
  List.filter (fun d => negb (existsb (hold d) src)) dest.

Definition unmatched_src (hold : obj -> obj -> bool) (dest src : list obj)
    : list obj :=
  List.filter (fun s => negb (existsb (fun d => hold d s) dest)) src.

(** The state of the wrappers once the join loops are over: [hold] tells
    on which pairs the predicate held. *)
Definition evaluates (query : option expr) (namespace : bool) (d s : obj) : Prop :=
  exists v, doWhere query (merge_rows d s) namespace = Ok v.

Definition mark_if (hold : obj -> obj -> bool) (d : obj) (m : marked) : marked :=
  if hold d (row m) then mark m else m.

Definition dest_after (hold : obj -> obj -> bool) (src : list obj) (m : marked)
    : marked :=
  {| used := used m || existsb (hold (row m)) src; row := row m |}.

Definition src_after (hold : obj -> obj -> bool) (dest : list obj) (m : marked)
    : marked :=
  {| used := used m || existsb (fun d => hold d (row m)) dest; row := row m |}.

(** LIKE as the specification words it.  A pattern is read as a list of
    tokens: a backslash before a wildcard makes it a literal. *)
Inductive like_token :=
  | LAnySeq            (* % *)
  | LAnyOne            (* _ *)
  | LChar (c : ascii).

Fixpoint like_tokens (pattern : string) : list like_token :=
  match pattern with
  | EmptyString => []
  | String c rest =>
      if Ascii.eqb c "%" then LAnySeq :: like_tokens rest
      else if Ascii.eqb c "_" then LAnyOne :: like_tokens rest
      else
        match rest with
        | String d rest' =>
            if Ascii.eqb c "\" && (Ascii.eqb d "%" || Ascii.eqb d "_")
            then LChar d :: like_tokens rest'
            else LChar c :: like_tokens rest
        | EmptyString => [LChar c]
        end
  end.

(** The whole of [s] matches the tokens; [wild] tells which characters a
    wildcard accepts. *)
Fixpoint like_match (wild : ascii -> bool) (ts : list like_token)
    : string -> bool :=
  match ts with
  | [] => fun s => match s with EmptyString => true | String _ _ => false end
  | LChar c :: ts' => fun s =>
      match s with
      | String d s' => Ascii.eqb c d && like_match wild ts' s'
      | EmptyString => false
      end
  | LAnyOne :: ts' => fun s =>
      match s with
      | String d s' => wild d && like_match wild ts' s'
      | EmptyString => false
      end
  | LAnySeq :: ts' =>
      fix star (s : string) : bool :=
        like_match wild ts' s
        || match s with
           | String d s' => wild d && star s'
           | EmptyString => false
           end
  end.

(** The specification's wildcards take any character. *)
Definition like_spec (pattern s : string) : bool :=
  like_match (fun _ => true) (like_tokens pattern) s.

(** What the compiled pattern does: a wildcard takes any character that is
    no line terminator. *)
Definition like_no_newline (pattern s : string) : bool :=
  like_match (fun c => negb (is_line_terminator c)) (like_tokens pattern) s.

(** The patterns in which nothing but the wildcards and their escapes has
    a meaning of its own for [RegExp] once [like2RegExp] has escaped
    [. * ? $ ^]: a backslash stands only before [%] or [_], and none of
    [+ ( ) [ ] { } |] occurs. *)
Fixpoint plain_pattern (pattern : string) : bool :=
  match pattern with
  | EmptyString => true
  | String c rest =>
      if Ascii.eqb c "\" then
        match rest with
        | String d rest' =>
            (Ascii.eqb d "%" || Ascii.eqb d "_") && plain_pattern rest'
        | EmptyString => false
        end
      else
        negb (existsb (Ascii.eqb c) ["+"; "("; ")"; "["; "]"; "{"; "}"; "|"]%char)
        && plain_pattern rest
  end.

Definition atom_of (t : like_token) : atom :=
  match t with
  | LAnySeq => AAnyStar
  | LAnyOne => AAny
  | LChar c => AChar c
  end.

(** The characters that [like2RegExp] escapes first. *)
Definition is_special (c : ascii) : bool :=
  existsb (Ascii.eqb c) ["."; "*"; "?"; "$"; "^"]%char.

(** The text that stands for a token in the source of the regular
    expression; [pct] and [us] tell whether an escaped [%], an escaped [_]
    still carries its backslash. *)
Definition render_token (pct us : bool) (t : like_token) : string :=
  match t with
  | LAnySeq => ".*?"
  | LAnyOne => "."
  | LChar c =>
      if Ascii.eqb c "%" then (if pct then "\%" else "%")
      else if Ascii.eqb c "_" then (if us then "\_" else "_")
      else if is_special c then String "\" (String c EmptyString)
      else String c EmptyString
  end.

Definition is_literal (c : ascii) (t : like_token) : bool :=
  match t with
  | LChar d => Ascii.eqb d c
  | _ => false
  end.

(** The text of a list of tokens in which the first escaped [%] has lost
    its backslash unless [pct], and the first escaped [_] unless [us]. *)
Fixpoint render (pct us : bool) (ts : list like_token) : string :=
  match ts with
  | [] => EmptyString
  | t :: ts' =>
      render_token pct us t
      +:+ render (pct || is_literal "%" t) (us || is_literal "_" t) ts'
  end.

(** The tokens of a plain pattern: no literal is a backslash or one of
    [+ ( ) [ ] { } |]. *)
Definition clean_token (t : like_token) : bool :=
  match t with
  | LChar c =>
      negb (existsb (Ascii.eqb c)
              ["\"; "+"; "("; ")"; "["; "]"; "{"; "}"; "|"]%char)
  | _ => true
  end.

Fixpoint has_dot (s : string) : bool :=
  match s with
  | EmptyString => false
  | String c s' => Ascii.eqb c "." || has_dot s'
  end.

(** Every key of the row has the form that namespacing gives it. *)
Definition namespaced (r : obj) : Prop :=
  forall k, is_Some (r !! k) -> has_dot k = true.

(** The column names that aggregate mode reads in a row: those of the
    GROUP BY list, of the plain columns and of the aggregate arguments. *)
Definition read_name (col : column) : string :=
  match c_expr col with
  | aggr_func _ args => bare_name args
  | e => bare_name e
  end.

Definition bare_statement (sqlobj : select) (cols : list column) : bool :=
  forallb (fun group => negb (has_dot (bare_name group)))
          (default [] (s_groupby sqlobj))
  && forallb (fun col => negb (has_dot (read_name col))) cols.

(** The type tokens that the switch of [doCreate] has a case for. *)
Definition mapped_types : list string :=
  ["CHAR"; "CHARACTER"; "VARCHAR"; "BINARY"; "VARBINARY"; "BOOLEAN";
   "INTEGER"; "SMALLINT"; "BIGINT"; "DECIMAL"; "NUMERIC"; "FLOAT"; "REAL";
   "DOUBLE"; "DATE"; "TIME"; "TIMESTAMP"; "TEXT"].

Definition has_create (cs : list call) : bool :=
  existsb (fun c => match c with CallCreate _ _ => true | _ => false end) cs.

(** ** Example data *)

Module Examples.
Definition num (z : Z) : value := VNum (Int z).
Definition col (c : string) : expr := column_ref None c.
Definition from1 (t : string) : from_item :=
  {| f_table := t; f_join := None; f_on := None |}.

(** A backend that is ready and answers every call at tick 1. *)
Definition serving (tables : string -> snapshot) : backend :=
  {| ready := Fulfilled 0 (VBool true);
     load := fun t => Fulfilled 1 (tables t);
     store := fun _ index _ => Fulfilled 1 (VStr (default "new" index));
     remove := fun _ index => Fulfilled 1 (VStr index);
     create := fun _ _ => Fulfilled 1 (VBool true);
     drop := fun _ => Fulfilled 1 (VBool true) |}.

(** The same backend with every call rejected with [e] at tick 1. *)
Definition failing (e : thrown) : backend :=
  {| ready := Fulfilled 0 (VBool true);
     load := fun _ => Rejected 1 e;
     store := fun _ _ _ => Rejected 1 e;
     remove := fun _ _ => Rejected 1 e;
     create := fun _ _ => Rejected 1 e;
     drop := fun _ => Rejected 1 e |}.

Definition disk_full : thrown := ErrorObject "disk full".

(** SELECT * FROM t *)
Definition select_all : select :=
  {| s_columns := Star; s_from := [from1 "t"]; s_where := None;
     s_groupby := None; s_orderby := None; s_limit := None |}.

(** SELECT * FROM t ORDER BY SUM(v) *)
Definition order_by_sum : select :=
  {| s_columns := Star; s_from := [from1 "t"]; s_where := None;
     s_groupby := None;
     s_orderby := Some [{| o_expr := aggr_func "SUM" (col "v"); o_type := "ASC" |}];
     s_limit := None |}.

(** SELECT * FROM t ORDER BY g, SUM(v) *)
Definition order_by_g_then_sum : select :=
  {| s_columns := Star; s_from := [from1 "t"]; s_where := None;
     s_groupby := None;
     s_orderby := Some [{| o_expr := col "g"; o_type := "ASC" |};
                        {| o_expr := aggr_func "SUM" (col "v"); o_type := "ASC" |}];
     s_limit := None |}.

(** SELECT * FROM t with a LIMIT list of one element *)
Definition limit_of_one : select :=
  {| s_columns := Star; s_from := [from1 "t"]; s_where := None;
     s_groupby := None; s_orderby := None;
     s_limit := Some [literal (num 2)] |}.

Definition row_a2 : obj := <["g" := VStr "a"]> {["v" := num 2]}.
Definition row_a3 : obj := <["g" := VStr "a"]> {["v" := num 3]}.
Definition row_b5 : obj := <["g" := VStr "b"]> {["v" := num 5]}.

Definition one_row (_ : string) : snapshot := [("0", row_a2)].
Definition two_rows (_ : string) : snapshot := [("0", row_b5); ("1", row_a2)].
Definition three_rows (_ : string) : snapshot :=
  [("0", row_a2); ("1", row_a3); ("2", row_b5)].

(** SELECT g, SUM(v) AS s FROM t GROUP BY g *)
Definition sum_by_g : select :=
  {| s_columns :=
       Columns [{| c_expr := col "g"; c_as := None |};
                {| c_expr := aggr_func "SUM" (col "v"); c_as := Some "s" |}];
     s_from := [from1 "t"]; s_where := None;
     s_groupby := Some [col "g"]; s_orderby := None; s_limit := None |}.

(** The rows of the join example, with namespaced keys. *)
Definition dest1 : obj := {["dest.id" := num 1]}.
Definition dest2 : obj := {["dest.id" := num 2]}.
Definition src1 : obj := <["src.id" := num 1]> {["src.x" := num 2]}.
Definition on_ids : option expr :=
  Some (binary_expr "=" (column_ref (Some "dest") "id")
                        (column_ref (Some "src") "id")).

(** SELECT a.g, SUM(a.v) FROM a INNER JOIN b ON a.g = b.g GROUP BY a.g *)
Definition sum_over_join : select :=
  {| s_columns :=
       Columns [{| c_expr := column_ref (Some "a") "g"; c_as := None |};
                {| c_expr := aggr_func "SUM" (column_ref (Some "a") "v");
                   c_as := None |}];
     s_from := [from1 "a";
                {| f_table := "b"; f_join := Some "INNER JOIN";
                   f_on := Some (binary_expr "=" (column_ref (Some "a") "g")
                                                 (column_ref (Some "b") "g")) |}];
     s_where := None;
     s_groupby := Some [column_ref (Some "a") "g"];
     s_orderby := None; s_limit := None |}.

(** UPDATE t SET v = 1 and DELETE FROM t *)
Definition update_t : update :=
  {| u_table := "t"; u_set := [("v", literal (num 1))]; u_where := None |}.
Definition delete_t : delete :=
  {| d_from := [from1 "t"]; d_where := None |}.

(** The group row of group a after its two rows. *)
Definition group_a : obj := <["g" := VStr "a"]> {["s" := num 5]}.

(** CREATE TABLE t (c BLOB) and CREATE TABLE t (a INTEGER, c array) *)
Definition blob_column : column_spec :=
  {| cs_name := "c"; cs_type := "BLOB"; cs_args := None |}.
Definition create_blob : create_table :=
  {| ct_name := "t"; ct_columns := [blob_column] |}.
Definition create_array : create_table :=
  {| ct_name := "t";
     ct_columns := [{| cs_name := "a"; cs_type := "INTEGER"; cs_args := None |};
                    {| cs_name := "c"; cs_type := "array"; cs_args := None |}] |}.

(** Table a holds the three rows, table b one row per group. *)
Definition two_tables (t : string) : snapshot :=
  if String.eqb t "a" then three_rows t
  else [("0", {["g" := VStr "a"]}); ("1", {["g" := VStr "b"]})].

Definition newline : string := String "010" EmptyString.
End Examples.

(** A test [existsb p [a; b; ...] = false] is split into its parts. *)
Ltac split_existsb H :=
  cbn [existsb] in H; repeat (apply orb_false_elim in H as [? H]).


(** ** The recognizers of extended syntax (index.js, lines 3-17)

    The regular expression of the DROP recognizer is a sequence of
    character classes, each taken once or under a greedy quantifier, with
    one capture group around a single class, between [^] and [$].  The
    matcher below tries the alternatives in the order of a backtracking
    matcher and returns what the group captured. *)

Inductive quantifier :=
  | Once
  | ZeroOrMore     (* * *)
  | OneOrMore      (* + *)
  | ZeroOrOne      (* ? *).

Record piece := {
  p_class : ascii -> bool;
  p_quant : quantifier;
  p_group : bool          (* the piece stands in the capture group *)
}.

(** As many characters of the class as there are, then [rest]; one
    character less whenever [rest] fails. *)
Fixpoint greedy (cls : ascii -> bool) (keep : ascii -> string -> string)
    (rest : string -> option string) (s : string) : option string :=
  match s with
  | String c s' =>
      if cls c then
        match greedy cls keep rest s' with
        | Some r => Some (keep c r)
        | None => rest s
        end
      else rest s
  | EmptyString => rest s
  end.

(** The pieces match the whole of [s]; the result is the text of the
    group. *)
Fixpoint match_pieces (ps : list piece) : string -> option string :=
  match ps with
  | [] => fun s =>
      match s with
      | EmptyString => Some EmptyString
      | String _ _ => None
      end
  | p :: ps' =>
      let rest := match_pieces ps' in
      let keep := fun c r => if p_group p then String c r else r in
      match p_quant p with
      | Once => fun s =>
          match s with
          | String c s' => if p_class p c then keep c <$> rest s' else None
          | EmptyString => None
          end
      | ZeroOrMore => greedy (p_class p) keep rest
      | OneOrMore => fun s =>
          match s with
          | String c s' =>
              if p_class p c then keep c <$> greedy (p_class p) keep rest s'
              else None
          | EmptyString => None
          end
      | ZeroOrOne => fun s =>
          match s with
          | String c s' =>
              if p_class p c then
                match rest s' with
                | Some r => Some (keep c r)
                | None => rest s
                end
              else rest s
          | EmptyString => rest s
          end
      end
  end.

(** A letter under the flag [i]. *)
Definition letter (c : ascii) : piece :=
  {| p_class := fun d => Ascii.eqb (to_upper_char d) (to_upper_char c);
     p_quant := Once; p_group := false |}.

Definition spaces (q : quantifier) : piece :=
  {| p_class := is_whitespace; p_quant := q; p_group := false |}.

(** [/^\s*DROP\s+TABLE\s+(\S+)\s*;?$/i] *)
Definition DROP_re : list piece :=
  [spaces ZeroOrMore; letter "D"; letter "R"; letter "O"; letter "P";
   spaces OneOrMore;
   letter "T"; letter "A"; letter "B"; letter "L"; letter "E";
   spaces OneOrMore;
   {| p_class := fun c => negb (is_whitespace c); p_quant := OneOrMore;
      p_group := true |};
   spaces ZeroOrMore;
   {| p_class := fun c => Ascii.eqb c ";"; p_quant := ZeroOrOne;
      p_group := false |}].

(** [ExtendedSyntax.DROP.convert(sql)]; [None] stands for [false]. *)
Definition DROP_convert (sql : string) : option statement :=
  DropTable <$> match_pieces DROP_re sql.

(** The statement tree that [runSQL] works on (lines 483-497): the one of
    the parser, or, when the parser throws, the one of the recognizer, or
    else the error of the parser. *)
Definition statement_of (parse : string -> outcome statement) (sql : string)
    : outcome statement :=
  match parse sql with
  | Ok sqlobj => Ok sqlobj
  | Throw err =>
      match DROP_convert sql with
      | Some sqlobj => Ok sqlobj
      | None => Throw err
      end
  end.

(** [runSQL(sql)] with the parser of node-sqlparser as a parameter. *)
Definition runSQL_text (parse : string -> outcome statement) (b : backend)
    (sql : string) : run answer :=
  match ready b with
  | Fulfilled t _ =>
      match statement_of parse sql with
      | Ok sqlobj =>
          let r := dispatch b sqlobj in
          {| calls := CallReady :: calls r; settles := not_before t (settles r) |}
      | Throw err => {| calls := [CallReady]; settles := Rejected t err |}
      end
  | _ => {| calls := [CallReady]; settles := Pending |}
  end.

(** ** Further notions used to state properties *)

(** The conditions whose AND and OR have conditions as operands, down to
    the comparisons. *)
Fixpoint condition (e : expr) : bool :=
  match e with
  | binary_expr operator l r =>
      if String.eqb operator "AND" || String.eqb operator "OR"
      then condition l && condition r
      else true
  | _ => false
  end.

(** [doWhere] says [true], the test of [doUpdate] and [doDelete]. *)
Definition where_true (where_ : option expr) (r : obj) : bool :=
  match doWhere where_ r false with
  | Ok v => strict_equal v (VBool true)
  | Throw _ => false
  end.

(** The key under which aggregate mode writes the column, if it writes
    any. *)
Definition written_name (col : column) : option string :=
  match c_expr col with
  | column_ref _ _ => Some (as_or (c_as col) (bare_name (c_expr col)))
  | aggr_func fname args =>
      if String.eqb (toUpperCase fname) "SUM"
         || String.eqb (toUpperCase fname) "COUNT"
      then Some (as_or (c_as col)
                   (toUpperCase fname +:+ "(" +:+ bare_name args +:+ ")"))
      else None
  | _ => None
  end.

(** The key of a column in flat mode. *)
Definition flat_name (namespace : bool) (col : column) : string :=
  as_or (c_as col) (field_name namespace (c_expr col)).

Definition is_column_ref (e : expr) : bool :=
  match e with
  | column_ref _ _ => true
  | _ => false
  end.

(** The sum of the integers [zs]. *)
Definition sum_Z (zs : list Z) : Z := foldr Z.add 0 zs.

(** A row per integer, with the integer in field [c]. *)
Definition has_int (c : string) (r : obj) (z : Z) : Prop :=
  r !! c = Some (VNum (Int z)).

(** The outcome with its boolean negated. *)
Definition negated (o : outcome value) : outcome value :=
  match o with
  | Ok (VBool b) => Ok (VBool (negb b))
  | other => other
  end.

(** Every pair of the two row lists, merged, in the order of the nested
    loop. *)
Definition all_pairs (dest src : list obj) : list obj :=
  d ← dest; s ← src; [merge_rows d s].

(** The condition [t1.c1 = t2.c2]. *)
Definition columns_equal (t1 c1 t2 c2 : string) : expr :=
  binary_expr "=" (column_ref (Some t1) c1) (column_ref (Some t2) c2).

(** [v === undefined ? null : v] *)
Definition or_null (v : value) : value :=
  if strict_equal v VUndefined then VNull else v.

(** The WHERE clause holds on the row, as [filter] takes it. *)
Definition where_holds (where_ : option expr) (namespace : bool) (r : obj) : bool :=
  match doWhere where_ r namespace with
  | Ok v => ToBoolean v
  | Throw _ => false
  end.

(** Every character of the string is in the class. *)
Fixpoint every_char (cls : ascii -> bool) (s : string) : bool :=
  match s with
  | String c s' => cls c && every_char cls s'
  | EmptyString => true
  end.

(** The backend calls that belong to a statement: [ready], and the
    primitives of the statement's kind on the statement's own tables. *)
Definition belongs_to (sqlobj : statement) (c : call) : Prop :=
  match sqlobj, c with
  | _, CallReady => True
  | Select s, CallLoad t => t ∈ f_table <$> s_from s
  | Update s, CallLoad t => t = u_table s
  | Update s, CallStore t (Some _) _ => t = u_table s
  | Insert s, CallStore t None _ => t = i_table s
  | Delete s, CallLoad t => Some t = f_table <$> head (d_from s)
  | Delete s, CallRemove t _ => Some t = f_table <$> head (d_from s)
  | CreateTable s, CallCreate t _ => t = ct_name s
  | DropTable name, CallDrop t => t = name
  | _, _ => False
  end.

(** The table is listed in FROM with one of the join kinds that [doSelect]
    knows. *)
Definition listed_join (from : from_item) : bool :=
  one_of ["INNER JOIN"; "LEFT JOIN"; "RIGHT JOIN"; "FULL JOIN"]
         (default EmptyString (f_join from)).

(** The operators that have a case in the switch of [doWhere]. *)
Definition known_operator (operator : string) : bool :=
  one_of ["="; "!="; "<>"; "<"; "<="; ">"; ">="; "AND"; "OR"; "IS"; "LIKE";
          "NOT LIKE"] operator.

(** The names at which an object literal answers without holding the
    field itself: the members of [Object.prototype]. *)
Definition inherited (k : string) : bool :=
  one_of ["constructor"; "toString"; "toLocaleString"; "valueOf";
          "hasOwnProperty"; "isPrototypeOf"; "propertyIsEnumerable";
          "__proto__"; "__defineGetter__"; "__defineSetter__";
          "__lookupGetter__"; "__lookupSetter__"] k.

(** The type tokens whose case reads [col.type.args[0]]. *)
Definition length_types : list string :=
  ["CHAR"; "CHARACTER"; "VARCHAR"; "BINARY"; "VARBINARY"].

(** The column is written with the argument list that its type reads. *)
Definition has_length_argument (col : column_spec) : bool :=
  negb (one_of length_types (toUpperCase (cs_type col)))
  || bool_decide (is_Some (cs_args col)).

(** A column of a SELECT without aggregates that reads no inherited name
    and does not write the key [__proto__], which an assignment does not
    store as a field. *)
Definition plain_column (namespace : bool) (c : column) : bool :=
  negb (String.eqb (flat_name namespace c) "__proto__")
  && negb (inherited (field_name namespace (c_expr c))).

(** The integers between which every integer is a number of its own and
    the addition of numbers is the addition of integers. *)
Definition exact_integer (z : Z) : Prop := - 2 ^ 53 <= z <= 2 ^ 53.

(** The columns that write the key [k] of the group row, in their
    order. *)
Definition writers (k : string) (cols : list column) : list column :=
  List.filter (fun c => bool_decide (written_name c = Some k)) cols.

(** The GROUP BY column is selected under its own name: the last column
    that writes the key of that name is a plain reference to the
    column. *)
Definition selected_as_itself (cols : list column) (g : expr) : bool :=
  match last (writers (bare_name g) cols) with
  | Some c =>
      is_column_ref (c_expr c) && String.eqb (bare_name (c_expr c)) (bare_name g)
  | None => false
  end.

(** What one turn of the loop over the columns does to the group row. *)
Definition write_column (r o : obj) (c : column) : obj :=
  match c_expr c with
  | column_ref _ _ =>
      set_prop o (as_or (c_as c) (bare_name (c_expr c)))
               (get_prop r (bare_name (c_expr c)))
  | aggr_func fname args =>
      let name :=
        as_or (c_as c) (toUpperCase fname +:+ "(" +:+ bare_name args +:+ ")") in
      if String.eqb (toUpperCase fname) "SUM" then
        let o := init_zero name o in
        set_prop o name (js_add (get_prop o name) (get_prop r (bare_name args)))
      else if String.eqb (toUpperCase fname) "COUNT" then
        let o := init_zero name o in
        set_prop o name (js_incr (get_prop o name))
      else o
  | _ => o
  end.

(** ** Grouping as the specification words it

    A group is the list of its rows, the latest first. *)

(** Equality over the listed group-column values of two rows. *)
Definition same_group_values (groups : list expr) (member r : obj) : bool :=
  forallb (fun g => loose_equal (get_prop member (bare_name g))
                                (get_prop r (bare_name g))) groups.

(** The group takes the row: its latest row has the group-column values
    of the row. *)
Definition takes_row (groups : list expr) (r : obj) (members : list obj) : bool :=
  match members with
  | latest :: _ => same_group_values groups latest r
  | [] => false
  end.

(** The linear scan: the first group that takes the row, else a new group
    appended at the end. *)
Definition spec_assign (groups : list expr) (gs : list (list obj)) (r : obj)
    : list (list obj) :=
  match findIndex (takes_row groups r) gs with
  | Some i => alter (cons r) i gs
  | None => gs ++ [[r]]
  end.

Definition spec_grouping (groups : list expr) (rows : list obj)
    : list (list obj) :=
  fold_left (spec_assign groups) rows [].

(** The sum of a group: the values of the field are added, in the order
    in which the rows came, starting from 0. *)
Definition spec_sum (field : string) (members : list obj) : value :=
  foldr (fun r acc => js_add acc (get_prop r field)) (VNum (Int 0)) members.

(** The result row of a group: it carries the group-column values of the
    latest row of the group and the sum of the group. *)
Definition group_row (groups : list expr) (sum_name field : string)
    (drow : obj) (members : list obj) : Prop :=
  match members with
  | latest :: _ =>
      (forall g, g ∈ groups ->
         drow !! bare_name g = Some (get_prop latest (bare_name g)))
      /\ drow !! sum_name = Some (spec_sum field members)
  | [] => False
  end.

(** ** Further example data *)

Module Cases.
(** SELECT COUNT(v) FROM t *)
Definition count_v : select :=
  {| s_columns := Columns [{| c_expr := aggr_func "count" (Examples.col "v");
                              c_as := None |}];
     s_from := [Examples.from1 "t"]; s_where := None; s_groupby := None;
     s_orderby := None; s_limit := None |}.

(** SELECT SUM(v) AS total FROM t *)
Definition sum_v : select :=
  {| s_columns := Columns [{| c_expr := aggr_func "Sum" (Examples.col "v");
                              c_as := Some "total" |}];
     s_from := [Examples.from1 "t"]; s_where := None; s_groupby := None;
     s_orderby := None; s_limit := None |}.

(** SELECT g AS group, w FROM t *)
Definition two_columns : list column :=
  [{| c_expr := Examples.col "g"; c_as := Some "group" |};
   {| c_expr := Examples.col "w"; c_as := None |}].
Definition select_two_columns : select :=
  {| s_columns := Columns two_columns;
     s_from := [Examples.from1 "t"]; s_where := None; s_groupby := None;
     s_orderby := None; s_limit := None |}.

(** SELECT SUM(v) AS s FROM t GROUP BY g *)
Definition sum_by_unselected_g : select :=
  {| s_columns := Columns [{| c_expr := aggr_func "SUM" (Examples.col "v");
                              c_as := Some "s" |}];
     s_from := [Examples.from1 "t"]; s_where := None;
     s_groupby := Some [Examples.col "g"]; s_orderby := None; s_limit := None |}.

Definition three : list obj := [Examples.row_a2; Examples.row_a3; Examples.row_b5].
End Cases.

Module MoreCases.
(** INSERT INTO t (g, v) VALUES ('a', 1), ('b', 2) *)
Definition insert_two : insert :=
  {| i_table := "t"; i_columns := ["g"; "v"];
     i_values := [[literal (VStr "a"); literal (Examples.num 1)];
                  [literal (VStr "b"); literal (Examples.num 2)]] |}.

(** v > 2 *)
Definition v_above_2 : expr :=
  binary_expr ">" (Examples.col "v") (literal (Examples.num 2)).

(** UPDATE t SET v = 1 WHERE v > 2 and DELETE FROM t WHERE v > 2 *)
Definition update_above_2 : update :=
  {| u_table := "t"; u_set := [("v", literal (Examples.num 1))];
     u_where := Some v_above_2 |}.
Definition delete_above_2 : delete :=
  {| d_from := [Examples.from1 "t"]; d_where := Some v_above_2 |}.

(** SELECT * FROM a, b *)
Definition select_from_two : select :=
  {| s_columns := Star; s_from := [Examples.from1 "a"; Examples.from1 "b"];
     s_where := None; s_groupby := None; s_orderby := None; s_limit := None |}.

(** CREATE TABLE t (a integer, c VarChar(10)) and the same in upper case *)
Definition create_lower : create_table :=
  {| ct_name := "t";
     ct_columns := [{| cs_name := "a"; cs_type := "integer"; cs_args := None |};
                    {| cs_name := "c"; cs_type := "VarChar";
                       cs_args := Some [Examples.num 10] |}] |}.
Definition create_upper : create_table :=
  {| ct_name := "t";
     ct_columns := [{| cs_name := "a"; cs_type := "INTEGER"; cs_args := None |};
                    {| cs_name := "c"; cs_type := "VARCHAR";
                       cs_args := Some [Examples.num 10] |}] |}.

(** SELECT * FROM t LIMIT 1, 1 *)
Definition select_limit_1_1 : select :=
  {| s_columns := Star; s_from := [Examples.from1 "t"]; s_where := None;
     s_groupby := None; s_orderby := None;
     s_limit := Some [literal (Examples.num 1); literal (Examples.num 1)] |}.

(** SELECT AVG(v) FROM t *)
Definition avg_v : select :=
  {| s_columns := Columns [{| c_expr := aggr_func "avg" (Examples.col "v");
                              c_as := None |}];
     s_from := [Examples.from1 "t"]; s_where := None; s_groupby := None;
     s_orderby := None; s_limit := None |}.

(** SELECT g FROM t WHERE v IS NOT NULL ORDER BY g *)
Definition select_is_not_null : select :=
  {| s_columns := Columns [{| c_expr := Examples.col "g"; c_as := None |}];
     s_from := [Examples.from1 "t"];
     s_where := Some (binary_expr "IS NOT" (Examples.col "v") (literal VNull));
     s_groupby := None;
     s_orderby := Some [{| o_expr := Examples.col "g"; o_type := "ASC" |}];
     s_limit := None |}.

(** CREATE TABLE t (a CHAR, c ARRAY) *)
Definition create_char_array : create_table :=
  {| ct_name := "t";
     ct_columns := [{| cs_name := "a"; cs_type := "CHAR"; cs_args := None |};
                    {| cs_name := "c"; cs_type := "ARRAY"; cs_args := None |}] |}.

(** SELECT * FROM t WHERE v > 2 *)
Definition select_above_2 : select :=
  {| s_columns := Star; s_from := [Examples.from1 "t"];
     s_where := Some v_above_2; s_groupby := None; s_orderby := None;
     s_limit := None |}.
End MoreCases.

(** An equation between triples is split into its components. *)
Ltac triple_equal :=
  apply pair_equal_spec; split; [apply pair_equal_spec; split |];
  [try ring | try lia | try reflexivity].

(** * Properties *)

(** ** The predicate evaluator *)

Lemma bind_Ok_inv {A B} (r : outcome A) (k : A -> outcome B) (b : B) :
  (r ≫= k) = Ok b -> exists a, r = Ok a /\ k a = Ok b.
Proof. destruct r as [a|e]; simpl; [eauto | discriminate]. Qed.

Lemma bind_Throw_inv {A B} (r : outcome A) (k : A -> outcome B) (e : thrown) :
  (r ≫= k) = Throw e -> r = Throw e \/ exists a, r = Ok a /\ k a = Throw e.
Proof. destruct r as [a|e']; simpl; [eauto | intros [= ->]; auto]. Qed.

Lemma doWhere_null (r : obj) (namespace : bool) :
  doWhere None r namespace = Ok (VBool true).
Proof. reflexivity. Qed.

Lemma doWhere_and (l r : expr) (row : obj) (namespace : bool) :
  doWhere (Some (binary_expr "AND" l r)) row namespace
  = (lv ← resolve row namespace l;
     if ToBoolean lv then resolve row namespace r else Ok lv).
Proof. reflexivity. Qed.

(** C2: on every row and for every pair of operands, the predicate with
    operator OR evaluates to exactly what it evaluates to with operator
    AND; when the two operands resolve to [lv] and [rv], both return
    [lv && rv], the conjunction of the resolved values (not coerced to a
    boolean). *)
Theorem doWhere_OR_same_as_AND (l r : expr) (row : obj) (namespace : bool) :
  doWhere (Some (binary_expr "OR" l r)) row namespace
  = doWhere (Some (binary_expr "AND" l r)) row namespace
  /\ forall lv rv,
       resolve row namespace l = Ok lv ->
       resolve row namespace r = Ok rv ->
       doWhere (Some (binary_expr "OR" l r)) row namespace = Ok (js_and lv rv)
       /\ doWhere (Some (binary_expr "AND" l r)) row namespace = Ok (js_and lv rv).
Proof.
  split; [reflexivity |].
  intros lv rv Hl Hr.
  assert (Hand : doWhere (Some (binary_expr "AND" l r)) row namespace
                 = Ok (js_and lv rv)).
  { rewrite doWhere_and, Hl. simpl. unfold js_and.
    destruct (ToBoolean lv); [exact Hr | reflexivity]. }
  split; [exact Hand | exact Hand].
Qed.

Lemma doWhere_OR_same_as_AND_witness :
  doWhere (Some (binary_expr "OR" (literal (VBool false)) (literal (VBool true))))
          ∅ false = Ok (VBool false).
Proof.
  exact (proj1 (proj2 (doWhere_OR_same_as_AND
                         (literal (VBool false)) (literal (VBool true)) ∅ false)
                      (VBool false) (VBool true) eq_refl eq_refl)).
Defined.

(** ** Promises *)

Lemma fold_earlier_rejection_Some {A} (ps : list (promise A)) (best : nat * thrown) :
  exists found, fold_left earlier_rejection ps (Some best) = Some found.
Proof.
  revert best. induction ps as [|p ps IH]; intros best; simpl; [eauto |].
  destruct p as [t a|t e|]; simpl; try apply IH.
  destruct best as [t' e']. destruct (t <? t')%nat; apply IH.
Qed.

Lemma first_rejection_Some {A} (ps : list (promise A)) (t : nat) (e : thrown) :
  Rejected t e ∈ ps -> exists found, first_rejection ps = Some found.
Proof.
  unfold first_rejection. generalize (@None (nat * thrown)).
  induction ps as [|p ps IH]; intros best Hin.
  - inversion Hin.
  - apply elem_of_cons in Hin as [<- | Hin]; simpl.
    + destruct best as [[t' e']|]; [destruct (t <? t')%nat |];
        apply fold_earlier_rejection_Some.
    + apply IH, Hin.
Qed.

Lemma first_rejection_None {A} (ps : list (promise A)) :
  (forall t e, Rejected t e ∉ ps) -> first_rejection ps = None.
Proof.
  unfold first_rejection. induction ps as [|p ps IH]; intros Hno; [reflexivity |].
  simpl. destruct p as [t a|t e|]; simpl.
  - apply IH. intros t' e' Hin. apply (Hno t' e'). by right.
  - exfalso. apply (Hno t e). by left.
  - apply IH. intros t' e' Hin. apply (Hno t' e'). by right.
Qed.

(** [Promise.all] is rejected as soon as one of its promises is. *)
Lemma Promise_all_rejected {A} (ps : list (promise A)) (t : nat) (e : thrown) :
  Rejected t e ∈ ps -> exists t' e', Promise_all ps = Rejected t' e'.
Proof.
  intros Hin. destruct (first_rejection_Some ps t e Hin) as [[t' e'] Hfound].
  exists t', e'. unfold Promise_all. by rewrite Hfound.
Qed.

(** With a single rejection, that one is reported. *)
Lemma Promise_all_single_rejection {A} (before after : list (promise A))
    (t : nat) (e : thrown) :
  (forall t' e', Rejected t' e' ∉ before) ->
  (forall t' e', Rejected t' e' ∉ after) ->
  Promise_all (before ++ Rejected t e :: after) = Rejected t e.
Proof.
  intros Hb Ha. unfold Promise_all, first_rejection.
  rewrite fold_left_app. fold (first_rejection before).
  rewrite (first_rejection_None before Hb). simpl.
  assert (Hrest : forall best, fold_left earlier_rejection after (Some best) = Some best).
  { clear Hb. induction after as [|p ps IH]; intros best; [reflexivity |].
    simpl. destruct p as [t1 a|t1 e1|]; simpl.
    - apply IH. intros t' e' Hin. apply (Ha t' e'). by right.
    - exfalso. apply (Ha t1 e1). by left.
    - apply IH. intros t' e' Hin. apply (Ha t' e'). by right. }
  by rewrite Hrest.
Qed.

Lemma resolved_by_not_rejected {A} (chain : promise A) (t : nat) (e : thrown) :
  resolved_by chain ≠ Rejected t e.
Proof. by destruct chain. Qed.

Lemma resolved_by_rejected {A} (t : nat) (e : thrown) :
  resolved_by (@Rejected A t e) = Pending.
Proof. reflexivity. Qed.

Lemma not_before_Pending {A} (t : nat) : not_before t (@Pending A) = Pending.
Proof. reflexivity. Qed.

(** ** What the caller of [execute] sees of a SELECT *)

(** The promise of [doSelect] is fulfilled exactly when the callback runs
    to its end; it is never rejected. *)
Lemma doSelect_never_rejected (b : backend) (sqlobj : select) (t : nat) (e : thrown) :
  settles (doSelect b sqlobj) ≠ Rejected t e.
Proof. apply resolved_by_not_rejected. Qed.

Lemma doSelect_chain_not_fulfilled (b : backend) (sqlobj : select) :
  (forall t rows, doSelect_chain b sqlobj ≠ Fulfilled t rows) ->
  settles (doSelect b sqlobj) = Pending.
Proof.
  intros Hno. simpl. destruct (doSelect_chain b sqlobj) as [t rows| |]; try done.
  by destruct (Hno t rows).
Qed.

Lemma execute_select_pending (b : backend) (sqlobj : select) :
  settles (doSelect b sqlobj) = Pending ->
  settles (execute b (Select sqlobj)) = Pending.
Proof.
  intros Hsel. unfold execute, runSQL.
  destruct (ready b) as [t v| |]; try reflexivity.
  unfold dispatch, map_run. cbn [settles]. cbn [settles] in Hsel.
  by rewrite Hsel.
Qed.

Lemma select_load_rejected (b : backend) (sqlobj : select) (f : from_item)
    (t : nat) (e : thrown) :
  f ∈ s_from sqlobj -> load b (f_table f) = Rejected t e ->
  settles (doSelect b sqlobj) = Pending.
Proof.
  intros Hin Hload. apply doSelect_chain_not_fulfilled. intros t' rows.
  unfold doSelect_chain.
  destruct (Promise_all_rejected ((fun f => load b (f_table f)) <$> s_from sqlobj) t e)
    as (t1 & e1 & ->); [| done].
  rewrite <- Hload. apply (list_elem_of_fmap_2 (fun f => load b (f_table f))), Hin.
Qed.

(** The sibling paths that do hand a rejection on. *)
Lemma drop_rejection_reaches_caller (b : backend) (table : string)
    (t0 t : nat) (v : value) (e : thrown) :
  ready b = Fulfilled t0 v -> drop b table = Rejected t e ->
  settles (execute b (DropTable table)) = Rejected (Nat.max t0 t) e.
Proof.
  intros Hready Hdrop. unfold execute, runSQL. rewrite Hready.
  cbn. by rewrite Hdrop.
Qed.

Lemma insert_rejection_reaches_caller (b : backend) (table : string)
    (columns : list string) (tuple : list expr) (data : obj)
    (t0 t : nat) (v : value) (e : thrown) :
  ready b = Fulfilled t0 v ->
  insert_row columns 0 tuple ∅ = Ok data ->
  store b table None data = Rejected t e ->
  settles (execute b (Insert {| i_table := table; i_columns := columns;
                                i_values := [tuple] |}))
  = Rejected (Nat.max t0 t) e.
Proof.
  intros Hready Hrow Hstore. unfold execute, runSQL. rewrite Hready.
  unfold dispatch, map_run, doInsert. cbn. rewrite Hrow. cbn. by rewrite Hstore.
Qed.

(** C1 (the code departs from it): a rejection of [load] in a SELECT, an
    UPDATE or a DELETE, and a rejection of [create], never reach the caller
    of [execute]: the promise it was handed stays pending for ever, where
    the claim has it rejected with the error of the backend. *)
Theorem backend_rejection_lost (b : backend) (t : nat) (e : thrown) :
  (forall sqlobj f, f ∈ s_from sqlobj -> load b (f_table f) = Rejected t e ->
     settles (execute b (Select sqlobj)) = Pending)
  /\ (forall sqlobj, load b (u_table sqlobj) = Rejected t e ->
        settles (execute b (Update sqlobj)) = Pending)
  /\ (forall sqlobj f, head (d_from sqlobj) = Some f ->
        load b (f_table f) = Rejected t e ->
        settles (execute b (Delete sqlobj)) = Pending)
  /\ (forall sqlobj columns,
        column_definitions 0 (ct_columns sqlobj) = Ok columns ->
        create b (ct_name sqlobj) columns = Rejected t e ->
        settles (execute b (CreateTable sqlobj)) = Pending).
Proof.
  repeat split.
  - intros sqlobj f Hin Hload.
    apply execute_select_pending, (select_load_rejected b sqlobj f t e Hin Hload).
  - intros sqlobj Hload. unfold execute, runSQL.
    destruct (ready b); try reflexivity.
    unfold dispatch, map_run, doUpdate. by rewrite Hload.
  - intros sqlobj f Hhead Hload. unfold execute, runSQL.
    destruct (ready b); try reflexivity.
    unfold dispatch, map_run, doDelete.
    destruct (d_from sqlobj) as [|f' rest]; [discriminate |].
    injection Hhead as ->. by rewrite Hload.
  - intros sqlobj columns Hcols Hcreate. unfold execute, runSQL.
    destruct (ready b); try reflexivity.
    unfold dispatch, map_run, doCreate. rewrite Hcols. cbn. by rewrite Hcreate.
Qed.

Lemma backend_rejection_lost_witness :
  settles (execute (Examples.failing Examples.disk_full)
                   (Select Examples.select_all)) = Pending
  /\ settles (execute (Examples.failing Examples.disk_full)
                      (Update Examples.update_t)) = Pending
  /\ settles (execute (Examples.failing Examples.disk_full)
                      (Delete Examples.delete_t)) = Pending
  /\ settles (execute (Examples.failing Examples.disk_full)
                      (CreateTable Examples.create_blob)) = Pending.
Proof.
  pose proof (backend_rejection_lost
                (Examples.failing Examples.disk_full) 1 Examples.disk_full)
    as (Hselect & Hupdate & Hdelete & Hcreate).
  split; [| split; [| split]].
  - apply (Hselect Examples.select_all (Examples.from1 "t")).
    + apply list_elem_of_here.
    + reflexivity.
  - apply (Hupdate Examples.update_t). reflexivity.
  - apply (Hdelete Examples.delete_t (Examples.from1 "t")); reflexivity.
  - apply (Hcreate Examples.create_blob
             [<["index" := VNum (Int 0)]> {["name" := VStr "c"]}]).
    + vm_compute. reflexivity.
    + reflexivity.
Defined.

(** ** ORDER BY and LIMIT *)

Lemma sort_nil {A} (cmp : A -> A -> outcome Z) : sort cmp [] = Ok [].
Proof. reflexivity. Qed.

(** A single row is never compared with anything. *)
Lemma sort_singleton {A} (cmp : A -> A -> outcome Z) (x : A) : sort cmp [x] = Ok [x].
Proof. reflexivity. Qed.

(** The comparator throws as soon as it reaches a key that is no column
    reference. *)
Lemma order_compare_not_column (namespace : bool) (o : orderer)
    (rest : list orderer) (a b : obj) :
  expr_type (o_expr o) ≠ "column_ref" ->
  order_compare namespace (o :: rest) a b = Throw OrderByUnsupported.
Proof.
  intros Hty. simpl.
  destruct (String.eqb_spec (expr_type (o_expr o)) "column_ref"); [done | reflexivity].
Qed.

(** Whatever the statement, the caller of [execute] sees a SELECT either
    succeed or never settle. *)
Lemma execute_select_settles (b : backend) (sqlobj : select) :
  settles (execute b (Select sqlobj)) = Pending
  \/ exists t rows, settles (execute b (Select sqlobj)) = Fulfilled t (Rows rows).
Proof.
  unfold execute, runSQL. destruct (ready b) as [t v| |]; [| by left..].
  unfold dispatch, map_run, doSelect. cbn [settles calls].
  destruct (doSelect_chain b sqlobj) as [t' rows| |];
    [right; eexists _, _; reflexivity | left; reflexivity..].
Qed.

(** C5 (the code departs from it): the test of the ORDER BY keys sits in
    the comparator of the sort.  With SELECT * FROM t ORDER BY SUM(v) and
    a single row in t no comparison is made and the statement succeeds
    with that row; with ORDER BY g, SUM(v) and two rows that differ in g
    the second key is never reached and the statement succeeds as well.
    With two rows and ORDER BY SUM(v) the error is thrown, but inside the
    callback of [then]: it rejects a promise that nobody holds and the
    caller's promise stays pending, where the claim has the execution
    fail with the error in all three cases.  No SELECT at all is ever
    rejected: it succeeds or it never settles. *)
Theorem order_by_aggregate_not_reported :
  (forall (b : backend) (sqlobj : select),
     settles (execute b (Select sqlobj)) = Pending
     \/ exists t rows,
          settles (execute b (Select sqlobj)) = Fulfilled t (Rows rows))
  /\ settles (execute (Examples.serving Examples.one_row)
                      (Select Examples.order_by_sum))
     = Fulfilled 1 (Rows [Examples.row_a2])
  /\ settles (execute (Examples.serving Examples.two_rows)
                      (Select Examples.order_by_g_then_sum))
     = Fulfilled 1 (Rows [Examples.row_a2; Examples.row_b5])
  /\ doSelect_chain (Examples.serving Examples.two_rows) Examples.order_by_sum
     = Rejected 1 OrderByUnsupported
  /\ settles (execute (Examples.serving Examples.two_rows)
                      (Select Examples.order_by_sum)) = Pending.
Proof.
  split; [exact execute_select_settles |].
  repeat split; vm_compute; reflexivity.
Qed.

Lemma apply_limit_invalid (limit : list expr) (result : list obj) :
  length limit ≠ 2%nat -> apply_limit (Some limit) result = Throw InvalidLimit.
Proof.
  intros Hlen. unfold apply_limit.
  destruct (Nat.eqb_spec (length limit) 2); [done | reflexivity].
Qed.

Lemma select_rows_invalid_limit (sqlobj : select) (namespace : bool)
    (tableset : list snapshot) (limit : list expr) :
  s_limit sqlobj = Some limit -> length limit ≠ 2%nat ->
  exists e, select_rows sqlobj namespace tableset = Throw e.
Proof.
  intros Hlimit Hlen. unfold select_rows.
  destruct (zip_with _ _ _) as [|first others]; [eauto |].
  destruct (fold_joins _ _ _) as [rows|e]; simpl; [| eauto].
  destruct (filter_where _ _ _) as [resultRows|e]; simpl; [| eauto].
  destruct (match s_orderby sqlobj with Some _ => _ | None => _ end)
    as [sorted|e]; simpl; [| eauto].
  rewrite Hlimit, apply_limit_invalid by done. eauto.
Qed.

(** C6 (the code departs from it in its first half): a LIMIT list that
    has not exactly two elements makes the callback of [doSelect] throw,
    but the throw rejects a promise that nobody holds: the caller's promise
    stays pending and is never rejected with the InvalidLimit error.  The
    second half holds: the list [1, 2] cuts a result of five rows down to
    the rows at positions 1 and 2, in order. *)
Theorem invalid_limit_not_reported :
  (forall (b : backend) (sqlobj : select) (limit : list expr),
     s_limit sqlobj = Some limit -> length limit ≠ 2%nat ->
     settles (execute b (Select sqlobj)) = Pending)
  /\ doSelect_chain (Examples.serving Examples.three_rows) Examples.limit_of_one
     = Rejected 1 InvalidLimit
  /\ (forall r0 r1 r2 r3 r4 : obj,
        apply_limit (Some [literal (VNum (Int 1)); literal (VNum (Int 2))])
                    [r0; r1; r2; r3; r4]
        = Ok [r1; r2]).
Proof.
  split; [| split].
  - intros b sqlobj limit Hlimit Hlen.
    apply execute_select_pending, doSelect_chain_not_fulfilled.
    intros t rows. unfold doSelect_chain.
    destruct (Promise_all _) as [t' tableset| |]; try done. simpl.
    destruct (select_rows_invalid_limit sqlobj (1 <? length (s_from sqlobj))%nat
                tableset limit Hlimit Hlen) as [e ->].
    done.
  - vm_compute. reflexivity.
  - intros. reflexivity.
Qed.

Lemma invalid_limit_not_reported_witness :
  settles (execute (Examples.serving Examples.three_rows)
                   (Select Examples.limit_of_one)) = Pending.
Proof.
  apply (proj1 invalid_limit_not_reported
           (Examples.serving Examples.three_rows) Examples.limit_of_one
           [literal (Examples.num 2)]).
  - reflexivity.
  - simpl. lia.
Defined.

(** ** CREATE TABLE *)

Lemma one_of_In (names : list string) (s : string) :
  one_of names s = true <-> s ∈ names.
Proof.
  unfold one_of. rewrite existsb_exists. split.
  - intros (x & Hin & Heq). apply String.eqb_eq in Heq as ->.
    by apply list_elem_of_In.
  - intros Hin. exists s. split; [by apply list_elem_of_In | apply String.eqb_refl].
Qed.

Lemma one_of_app (xs ys : list string) (s : string) :
  one_of (xs ++ ys) s = one_of xs s || one_of ys s.
Proof. unfold one_of. apply existsb_app. Qed.

(** The unsupported tokens reach their own case: no earlier case of the
    switch takes them. *)
Lemma column_definition_unsupported (n : nat) (col : column_spec) :
  one_of unsupported_types (toUpperCase (cs_type col)) = true ->
  column_definition n col = Throw (UnsupportedType (toUpperCase (cs_type col))).
Proof.
  intros Hun. unfold column_definition.
  apply one_of_In in Hun. unfold unsupported_types in Hun.
  repeat (apply elem_of_cons in Hun as [-> | Hun]; [reflexivity |]).
  inversion Hun.
Qed.

(** What the loop throws: the unsupported type, or the TypeError of
    reading the first argument of a type that has none. *)
Lemma column_definition_throw (n : nat) (col : column_spec) (e : thrown) :
  column_definition n col = Throw e ->
  (one_of unsupported_types (toUpperCase (cs_type col)) = true
   /\ e = UnsupportedType (toUpperCase (cs_type col)))
  \/ (has_length_argument col = false /\ e = TypeError).
Proof.
  unfold column_definition, has_length_argument, length_types, first_arg.
  change (one_of ["CHAR"; "CHARACTER"; "VARCHAR"; "BINARY"; "VARBINARY"] ?s)
    with (one_of (["CHAR"; "CHARACTER"] ++ ["VARCHAR"] ++ ["BINARY"; "VARBINARY"]) s).
  rewrite !one_of_app.
  repeat (match goal with
          | |- context [if one_of ?l ?s then _ else _] => destruct (one_of l s) eqn:?
          end; try discriminate);
    try (destruct (cs_args col); [discriminate |]; intros [= <-]; by right).
  intros [= <-]. by left.
Qed.

Lemma column_definitions_unsupported (cols : list column_spec) (n : nat) :
  (exists col, col ∈ cols
               /\ one_of unsupported_types (toUpperCase (cs_type col)) = true) ->
  exists e, column_definitions n cols = Throw e
            /\ ((exists token, token ∈ unsupported_types /\ e = UnsupportedType token)
                \/ (e = TypeError
                    /\ exists col, col ∈ cols /\ has_length_argument col = false)).
Proof.
  revert n. induction cols as [|c cols IH]; intros n (col & Hin & Hun).
  - inversion Hin.
  - simpl. destruct (column_definition n c) as [def|e] eqn:Hdef.
    + apply elem_of_cons in Hin as [-> | Hin].
      * rewrite column_definition_unsupported in Hdef by done. discriminate.
      * destruct (IH (S n)) as (e & -> & He); [eauto |].
        exists e. split; [done |].
        destruct He as [He | (-> & col' & Hin' & Hcol')]; [by left | right].
        split; [done |]. exists col'. split; [by apply list_elem_of_further | done].
    + exists e. split; [done |].
      apply column_definition_throw in Hdef as [[Hun' ->] | [Hlen ->]].
      * left. exists (toUpperCase (cs_type c)). split; [by apply one_of_In | done].
      * right. split; [done |]. exists c. split; [apply list_elem_of_here | done].
Qed.




Lemma column_definitions_lookup (cols : list column_spec) (k : nat)
    (defs : list obj) (n : nat) (col : column_spec) :
  column_definitions k cols = Ok defs -> cols !! n = Some col ->
  exists def, defs !! n = Some def /\ column_definition (k + n) col = Ok def.
Proof.
  revert k defs n. induction cols as [|c cols IH]; intros k defs n Hdefs Hcol.
  - discriminate.
  - simpl in Hdefs.
    apply bind_Ok_inv in Hdefs as (def & Hdef & Hdefs).
    apply bind_Ok_inv in Hdefs as (rest & Hrest & [= <-]).
    destruct n as [|n]; simpl in Hcol.
    + injection Hcol as ->. exists def. by rewrite Nat.add_0_r.
    + destruct (IH (S k) rest n Hrest Hcol) as (def' & Hlook & Hcd).
      exists def'. split; [done |]. by rewrite <- Nat.add_succ_comm.
Qed.

(** C10: a column whose type token has no case in the switch (BLOB, for
    one) raises no error; the object made for it holds the name and the
    ordinal index and nothing else, and that object is what the [create]
    call of the statement receives at the column's position. *)
Theorem create_unrecognised_type (n : nat) (col : column_spec) :
  one_of (mapped_types ++ unsupported_types) (toUpperCase (cs_type col)) = false ->
  column_definition n col
  = Ok (<["index" := VNum (Int (Z.of_nat n))]> {["name" := VStr (cs_name col)]})
  /\ dom (<["index" := VNum (Int (Z.of_nat n))]>
            ({["name" := VStr (cs_name col)]} : obj))
     = ({["name"; "index"]} : gset string)
  /\ forall (b : backend) (sqlobj : create_table) (columns : list obj),
       ct_columns sqlobj !! n = Some col ->
       column_definitions 0 (ct_columns sqlobj) = Ok columns ->
       calls (doCreate b sqlobj) = [CallCreate (ct_name sqlobj) columns]
       /\ columns !! n
          = Some (<["index" := VNum (Int (Z.of_nat n))]>
                    {["name" := VStr (cs_name col)]}).
Proof.
  intros Hnone.
  assert (Hdef : column_definition n col
                 = Ok (<["index" := VNum (Int (Z.of_nat n))]>
                         {["name" := VStr (cs_name col)]})).
  { unfold one_of, mapped_types, unsupported_types in Hnone.
    cbn [app existsb] in Hnone.
    repeat (apply orb_false_elim in Hnone as [? Hnone]).
    unfold column_definition, one_of, unsupported_types. cbn [existsb].
    repeat match goal with
           | H : String.eqb _ _ = false |- _ => rewrite H; clear H
           end.
    reflexivity. }
  split; [exact Hdef |]. split.
  - rewrite dom_insert_L, dom_singleton_L. set_solver.
  - intros b sqlobj columns Hcol Hdefs. split.
    + unfold doCreate. by rewrite Hdefs.
    + destruct (column_definitions_lookup _ _ _ _ _ Hdefs Hcol) as (def & Hlook & Hcd).
      simpl in Hcd. rewrite Hdef in Hcd. by injection Hcd as <-.
Qed.

Lemma create_unrecognised_type_witness :
  column_definition 0 Examples.blob_column
  = Ok (<["index" := VNum (Int 0)]> {["name" := VStr "c"]})
  /\ calls (doCreate (Examples.serving Examples.one_row) Examples.create_blob)
     = [CallCreate "t" [<["index" := VNum (Int 0)]> {["name" := VStr "c"]}]].
Proof.
  pose proof (create_unrecognised_type 0 Examples.blob_column eq_refl)
    as (Hdef & _ & Hcall).
  split; [exact Hdef |].
  apply (Hcall (Examples.serving Examples.one_row) Examples.create_blob
           [<["index" := VNum (Int 0)]> {["name" := VStr "c"]}]).
  - reflexivity.
  - vm_compute. reflexivity.
Defined.

(** ** The join *)

Lemma copy_into_union (bigrow r : obj) : copy_into bigrow r = r ∪ bigrow.
Proof.
  unfold copy_into.
  apply (map_fold_weak_ind (fun acc (m : obj) => acc = m ∪ bigrow)).
  - by rewrite (left_id_L ∅ (∪)).
  - intros k v m acc _ ->. unfold set_prop. by rewrite insert_union_l.
Qed.

(** The combined row holds the fields of both rows; on a key that both
    have, the field of [src] wins. *)
Lemma merge_rows_union (dest src : obj) : merge_rows dest src = src ∪ dest.
Proof.
  unfold merge_rows. rewrite !copy_into_union. by rewrite (right_id_L ∅ (∪)).
Qed.

Lemma merge_rows_lookup (dest src : obj) (k : string) :
  merge_rows dest src !! k
  = match src !! k with Some v => Some v | None => dest !! k end.
Proof.
  rewrite merge_rows_union, lookup_union. by destruct (src !! k), (dest !! k).
Qed.

Section JoinLoops.
Variable query : option expr.
Variable namespace : bool.

Local Abbreviation hold := (on_holds query namespace).

Lemma row_mark_if (d : obj) (ms : list marked) :
  row <$> (mark_if hold d <$> ms) = row <$> ms.
Proof.
  rewrite <- list_fmap_compose. apply list_fmap_ext. intros _ m _.
  unfold mark_if. simpl. by destruct (hold d (row m)).
Qed.

Lemma join_inner_spec (d : obj) (srcRows : list marked) (rows : list obj)
    (dused : bool) :
  (forall s, s ∈ row <$> srcRows -> evaluates query namespace d s) ->
  join_inner query namespace d srcRows rows dused
  = Ok (rows ++ ((row <$> srcRows) ≫= fun s => if hold d s then [merge_rows d s] else []),
        dused || existsb (hold d) (row <$> srcRows),
        mark_if hold d <$> srcRows).
Proof.
  revert rows dused. induction srcRows as [|m ms IH]; intros rows dused Hev.
  - simpl. by rewrite (right_id_L [] (++)), orb_false_r.
  - destruct (Hev (row m)) as [v Hv]; [rewrite fmap_cons; apply list_elem_of_here |].
    assert (Hrest : forall s, s ∈ row <$> ms -> evaluates query namespace d s).
    { intros s Hs. apply Hev. rewrite fmap_cons. by apply list_elem_of_further. }
    cbn [join_inner]. rewrite Hv. cbn [mbind outcome_bind].
    assert (Hhold : hold d (row m) = ToBoolean v).
    { unfold on_holds. by rewrite Hv. }
    rewrite !fmap_cons. cbn [existsb]. unfold mark_if at 1. rewrite Hhold.
    destruct (ToBoolean v).
    + rewrite (IH _ _ Hrest). cbn. rewrite Hhold.
      by rewrite <- (assoc_L (++)), orb_true_r.
    + rewrite (IH _ _ Hrest). cbn. by rewrite Hhold.
Qed.

Lemma src_after_mark_if (d : obj) (dest : list obj) (ms : list marked) :
  src_after hold dest <$> (mark_if hold d <$> ms) = src_after hold (d :: dest) <$> ms.
Proof.
  rewrite <- list_fmap_compose. apply list_fmap_ext. intros _ m _.
  unfold src_after, mark_if. simpl.
  destruct (hold d (row m)) eqn:Hh; simpl; [| done].
  by rewrite orb_true_r.
Qed.

Lemma join_outer_spec (destRows srcRows : list marked) (rows : list obj) :
  (forall d s, d ∈ row <$> destRows -> s ∈ row <$> srcRows -> evaluates query namespace d s) ->
  join_outer query namespace destRows srcRows rows
  = Ok (rows ++ matched_pairs hold (row <$> destRows) (row <$> srcRows),
        dest_after hold (row <$> srcRows) <$> destRows,
        src_after hold (row <$> destRows) <$> srcRows).
Proof.
  revert srcRows rows.
  induction destRows as [|dm dms IH]; intros srcRows rows Hev.
  - simpl. rewrite (right_id_L [] (++)). do 2 f_equal.
    rewrite <- (list_fmap_id srcRows) at 1. apply list_fmap_ext.
    intros _ [u r] _. unfold src_after. simpl. by rewrite orb_false_r.
  - cbn [join_outer].
    rewrite join_inner_spec
      by (intros s Hs; apply Hev; [rewrite fmap_cons; apply list_elem_of_here | done]).
    cbn [mbind outcome_bind].
    rewrite IH.
    + cbn [mbind outcome_bind]. rewrite row_mark_if, src_after_mark_if.
      rewrite !fmap_cons. unfold matched_pairs. cbn.
      by rewrite <- (assoc_L (++)).
    + intros d s Hd Hs. rewrite row_mark_if in Hs. apply Hev; [| done].
      rewrite fmap_cons. by apply list_elem_of_further.
Qed.

Lemma unused_dest_after (dest src : list obj) :
  unused_rows (dest_after hold src <$> ((fun r => {| used := false; row := r |}) <$> dest))
  = unmatched_dest hold dest src.
Proof.
  unfold unused_rows, unmatched_dest.
  induction dest as [|d dest IH]; [reflexivity |].
  rewrite !fmap_cons, filter_cons. simpl.
  destruct (existsb (hold d) src) eqn:Hex; simpl.
  - exact IH.
  - by rewrite <- IH.
Qed.

Lemma unused_src_after (dest src : list obj) :
  unused_rows (src_after hold dest <$> ((fun r => {| used := false; row := r |}) <$> src))
  = unmatched_src hold dest src.
Proof.
  unfold unused_rows, unmatched_src.
  induction src as [|s src IH]; [reflexivity |].
  rewrite !fmap_cons, filter_cons. simpl.
  destruct (existsb (fun d => hold d s) dest) eqn:Hex; simpl.
  - exact IH.
  - by rewrite <- IH.
Qed.

Lemma row_wrap (rows : list obj) :
  row <$> ((fun r => {| used := false; row := r |}) <$> rows) = rows.
Proof.
  rewrite <- list_fmap_compose. rewrite <- (list_fmap_id rows) at 2.
  by apply list_fmap_ext.
Qed.

Lemma join_spec (dest src : list obj) (includeAllDest includeAllSrc : bool) :
  (forall d s, d ∈ dest -> s ∈ src -> evaluates query namespace d s) ->
  join dest src query includeAllDest includeAllSrc namespace
  = Ok (matched_pairs hold dest src
        ++ (if includeAllDest then unmatched_dest hold dest src else [])
        ++ (if includeAllSrc then unmatched_src hold dest src else [])).
Proof.
  intros Hev. unfold join. rewrite join_outer_spec.
  - cbn [mbind outcome_bind]. rewrite !row_wrap.
    rewrite unused_dest_after, unused_src_after. simpl.
    destruct includeAllDest, includeAllSrc;
      by rewrite ?(right_id_L [] (++)), <- ?(assoc_L (++)).
  - intros d s. rewrite !row_wrap. apply Hev.
Qed.
End JoinLoops.

(** C3: the join puts each pair of a dest row and a src row into one row,
    in which a field of src wins over a field of dest with the same key;
    it emits that row exactly when the ON predicate holds on it, in the
    order of the nested loop; after the loop it appends the dest rows that
    matched nothing, as they are, when [includeAllDest] is set (and the src
    rows likewise for [includeAllSrc]).  On the rows dest = [{dest.id: 1}],
    src = [{src.id: 1, src.x: 2}] with the predicate dest.id = src.id the
    inner join yields the single row {dest.id: 1, src.id: 1, src.x: 2}, and
    the left join with the further dest row {dest.id: 2} yields that row
    followed by {dest.id: 2} alone. *)
Theorem join_emits_matching_pairs :
  (forall (dest src : list obj) (query : option expr)
          (includeAllDest includeAllSrc namespace : bool),
     (forall d s, d ∈ dest -> s ∈ src ->
        exists v, doWhere query (merge_rows d s) namespace = Ok v) ->
     join dest src query includeAllDest includeAllSrc namespace
     = Ok (matched_pairs (on_holds query namespace) dest src
           ++ (if includeAllDest
               then unmatched_dest (on_holds query namespace) dest src else [])
           ++ (if includeAllSrc
               then unmatched_src (on_holds query namespace) dest src else [])))
  /\ (forall (d s : obj) (k : string),
        merge_rows d s !! k
        = match s !! k with Some v => Some v | None => d !! k end)
  /\ join [Examples.dest1] [Examples.src1] Examples.on_ids false false true
     = Ok [<["dest.id" := Examples.num 1]>
             (<["src.id" := Examples.num 1]> {["src.x" := Examples.num 2]})]
  /\ join [Examples.dest1; Examples.dest2] [Examples.src1] Examples.on_ids
          true false true
     = Ok [<["dest.id" := Examples.num 1]>
             (<["src.id" := Examples.num 1]> {["src.x" := Examples.num 2]});
           {["dest.id" := Examples.num 2]}].
Proof.
  split; [| split; [| split]].
  - intros dest src query includeAllDest includeAllSrc namespace Hev.
    by apply join_spec.
  - apply merge_rows_lookup.
  - vm_compute. reflexivity.
  - vm_compute. reflexivity.
Qed.

Lemma join_emits_matching_pairs_witness :
  join [Examples.dest1; Examples.dest2] [Examples.src1] Examples.on_ids
       true false true
  = Ok (matched_pairs (on_holds Examples.on_ids true)
          [Examples.dest1; Examples.dest2] [Examples.src1]
        ++ unmatched_dest (on_holds Examples.on_ids true)
             [Examples.dest1; Examples.dest2] [Examples.src1]
        ++ []).
Proof.
  apply (proj1 join_emits_matching_pairs
           [Examples.dest1; Examples.dest2] [Examples.src1] Examples.on_ids
           true false true).
  intros d s Hd Hs.
  apply list_elem_of_singleton in Hs as ->.
  apply elem_of_cons in Hd as [-> | Hd];
    [| apply list_elem_of_singleton in Hd as ->];
    eexists; vm_compute; reflexivity.
Defined.

(** ** The projector in aggregate mode *)

Lemma findIndex_Some {A} (p : A -> bool) (data : list A) (i : nat) :
  findIndex p data = Some i ->
  (exists x, data !! i = Some x /\ p x = true)
  /\ forall j y, (j < i)%nat -> data !! j = Some y -> p y = false.
Proof.
  revert i. induction data as [|x data IH]; intros i; simpl; [discriminate |].
  destruct (p x) eqn:Hp.
  - intros [= <-]. split; [eauto | intros j y Hj; lia].
  - destruct (findIndex p data) as [i'|]; simpl; [| discriminate].
    intros [= <-]. destruct (IH i' eq_refl) as [Hat Hbefore]. split; [exact Hat |].
    intros [|j] y Hj; simpl.
    + by intros [= <-].
    + apply Hbefore. lia.
Qed.

Lemma findIndex_None {A} (p : A -> bool) (data : list A) :
  findIndex p data = None -> forall x, x ∈ data -> p x = false.
Proof.
  induction data as [|y data IH]; simpl; intros Hnone x Hin; [inversion Hin |].
  destruct (p y) eqn:Hp; [discriminate |].
  destruct (findIndex p data); [discriminate |].
  apply elem_of_cons in Hin as [-> | Hin]; [done | by apply IH].
Qed.

(** The index that [groupby] returns is one of the array it leaves, so
    that [data[index]] is always there. *)
Lemma groupby_in_range (sqlobj : select) (data : list obj) (r : obj) :
  ((groupby sqlobj data r).2 < length (groupby sqlobj data r).1)%nat.
Proof.
  unfold groupby. destruct (s_groupby sqlobj) as [groups|].
  - destruct (findIndex (same_group groups r) data) as [i|] eqn:Hfind; simpl.
    + destruct (findIndex_Some _ _ _ Hfind) as [(drow & Hat & _) _].
      by apply lookup_lt_Some in Hat.
    + rewrite length_app. simpl. lia.
  - destruct (Nat.ltb_spec (length data) 1); simpl.
    + rewrite length_app. simpl. lia.
    + lia.
Qed.

Lemma modify_length (data : list obj) (index : nat) (f : obj -> obj) :
  length (modify data index f) = length data.
Proof. apply length_alter. Qed.

Lemma modify_other (data : list obj) (index j : nat) (f : obj -> obj) :
  index ≠ j -> modify data index f !! j = data !! j.
Proof. intros Hne. by apply list_lookup_alter_ne. Qed.

Lemma aggregate_column_length (index : nat) (r : obj) (data : list obj) (c : column) :
  length (aggregate_column index r data c) = length data.
Proof.
  unfold aggregate_column. destruct (c_expr c); try done.
  - apply modify_length.
  - repeat case_match; try done; apply modify_length.
Qed.

Lemma aggregate_column_other (index j : nat) (r : obj) (data : list obj) (c : column) :
  index ≠ j -> aggregate_column index r data c !! j = data !! j.
Proof.
  intros Hne. unfold aggregate_column. destruct (c_expr c); try done.
  - by apply modify_other.
  - repeat case_match; try done; by apply modify_other.
Qed.

Lemma aggregate_fold_length (index : nat) (r : obj) (cols : list column)
    (data : list obj) :
  length (fold_left (aggregate_column index r) cols data) = length data.
Proof.
  revert data. induction cols as [|c cols IH]; intros data; [done |].
  simpl. by rewrite IH, aggregate_column_length.
Qed.

Lemma aggregate_fold_other (index j : nat) (r : obj) (cols : list column)
    (data : list obj) :
  index ≠ j -> fold_left (aggregate_column index r) cols data !! j = data !! j.
Proof.
  intros Hne. revert data. induction cols as [|c cols IH]; intros data; [done |].
  simpl. by rewrite IH, aggregate_column_other.
Qed.

Lemma chooseFields_aggregate (sqlobj : select) (cols : list column)
    (data : list obj) (r : obj) (namespace : bool) :
  s_columns sqlobj = Columns cols -> existsb is_aggr_func cols = true ->
  chooseFields sqlobj data r namespace
  = fold_left (aggregate_column (groupby sqlobj data r).2 r) cols
              (groupby sqlobj data r).1.
Proof.
  intros Hcols Hagg. unfold chooseFields. rewrite Hcols, Hagg.
  by destruct (groupby sqlobj data r).
Qed.

(** The sum of a group starts from 0 and takes the field of the row. *)
Lemma aggregate_column_sum (index : nat) (r : obj) (data : list obj) (o : obj)
    (fname : string) (args : expr) (alias : option string) :
  data !! index = Some o -> toUpperCase fname = "SUM" ->
  aggregate_column index r data {| c_expr := aggr_func fname args; c_as := alias |}
    !! index
  = Some (<[as_or alias ("SUM(" +:+ bare_name args +:+ ")")
            := js_add (if strict_equal
                            (get_prop o (as_or alias ("SUM(" +:+ bare_name args +:+ ")")))
                            VUndefined
                       then VNum (Int 0)
                       else get_prop o (as_or alias ("SUM(" +:+ bare_name args +:+ ")")))
                      (get_prop r (bare_name args))]> o).
Proof.
  intros Hat Hsum. unfold aggregate_column. cbn [c_expr c_as]. rewrite Hsum.
  cbn [String.eqb Ascii.eqb Bool.eqb]. unfold modify.
  rewrite list_lookup_alter_eq, Hat. cbn [fmap option_fmap option_map].
  f_equal. unfold init_zero, set_prop.
  set (name := as_or alias _).
  destruct (strict_equal (get_prop o name) VUndefined).
  - unfold get_prop at 1. rewrite lookup_insert_eq. simpl.
    by rewrite insert_insert_eq.
  - done.
Qed.

(** ** Aggregate mode and namespaced rows *)

Lemma has_dot_app (a b : string) : has_dot (a +:+ b) = has_dot a || has_dot b.
Proof.
  induction a as [|c a IH]; simpl; [done |]. by rewrite IH, orb_assoc.
Qed.

Lemma has_dot_qualified (table key : string) :
  has_dot (table +:+ "." +:+ key) = true.
Proof. rewrite !has_dot_app. simpl. by rewrite orb_true_r. Qed.

Lemma namespace_row_namespaced (table : string) (r : obj) :
  namespaced (namespace_row table r).
Proof.
  unfold namespace_row.
  apply (map_fold_weak_ind (fun acc (_ : obj) => namespaced acc)).
  - intros k [v Hk]. by rewrite lookup_empty in Hk.
  - intros key v m acc _ IH k. unfold set_prop.
    destruct (decide (table +:+ "." +:+ key = k)) as [<- | Hne].
    + intros _. apply has_dot_qualified.
    + rewrite lookup_insert_ne by done. apply IH.
Qed.

Lemma merge_rows_namespaced (d s : obj) :
  namespaced d -> namespaced s -> namespaced (merge_rows d s).
Proof.
  intros Hd Hs k. rewrite merge_rows_lookup.
  destruct (s !! k) eqn:Hsk; [intros _; apply Hs; by rewrite Hsk | apply Hd].
Qed.

(** A bare column name is no key of a namespaced row. *)
Lemma namespaced_absent (r : obj) (c : string) :
  namespaced r -> has_dot c = false -> get_prop r c = VUndefined.
Proof.
  intros Hns Hc. unfold get_prop. destruct (r !! c) eqn:Hrc; [| done].
  assert (has_dot c = true) by (apply Hns; by rewrite Hrc). congruence.
Qed.

Lemma findIndex_ext {A} (p q : A -> bool) (data : list A) :
  (forall x, p x = q x) -> findIndex p data = findIndex q data.
Proof.
  intros Hpq. induction data as [|x data IH]; simpl; [done |].
  by rewrite Hpq, IH.
Qed.

Lemma same_group_ext (groups : list expr) (r r' : obj) (drow : obj) :
  (forall group, group ∈ groups ->
     get_prop r (bare_name group) = get_prop r' (bare_name group)) ->
  same_group groups r drow = same_group groups r' drow.
Proof.
  intros Hsame. unfold same_group.
  induction groups as [|g groups IH]; simpl; [done |].
  rewrite (Hsame g) by apply list_elem_of_here.
  rewrite IH; [done |]. intros group Hin. apply Hsame. by apply list_elem_of_further.
Qed.

Lemma groupby_ext (sqlobj : select) (data : list obj) (r r' : obj) :
  (forall group, group ∈ default [] (s_groupby sqlobj) ->
     get_prop r (bare_name group) = get_prop r' (bare_name group)) ->
  groupby sqlobj data r = groupby sqlobj data r'.
Proof.
  intros Hsame. unfold groupby. destruct (s_groupby sqlobj) as [groups|]; [| done].
  simpl in Hsame.
  rewrite (findIndex_ext (same_group groups r) (same_group groups r')); [done |].
  intros drow. by apply same_group_ext.
Qed.

Lemma aggregate_column_ext (index : nat) (r r' : obj) (data : list obj) (c : column) :
  get_prop r (read_name c) = get_prop r' (read_name c) ->
  aggregate_column index r data c = aggregate_column index r' data c.
Proof.
  unfold aggregate_column, read_name.
  destruct (c_expr c); try done; by intros ->.
Qed.

Lemma aggregate_fold_ext (index : nat) (r r' : obj) (cols : list column)
    (data : list obj) :
  (forall c, c ∈ cols -> get_prop r (read_name c) = get_prop r' (read_name c)) ->
  fold_left (aggregate_column index r) cols data
  = fold_left (aggregate_column index r') cols data.
Proof.
  revert data. induction cols as [|c cols IH]; intros data Hsame; [done |].
  simpl. rewrite (aggregate_column_ext index r r') by (apply Hsame, list_elem_of_here).
  apply IH. intros c' Hin. apply Hsame. by apply list_elem_of_further.
Qed.

Lemma chooseFields_aggregate_ext (sqlobj : select) (cols : list column)
    (data : list obj) (r r' : obj) (namespace namespace' : bool) :
  s_columns sqlobj = Columns cols -> existsb is_aggr_func cols = true ->
  (forall group, group ∈ default [] (s_groupby sqlobj) ->
     get_prop r (bare_name group) = get_prop r' (bare_name group)) ->
  (forall c, c ∈ cols -> get_prop r (read_name c) = get_prop r' (read_name c)) ->
  chooseFields sqlobj data r namespace = chooseFields sqlobj data r' namespace'.
Proof.
  intros Hcols Hagg Hgroups Hread.
  rewrite !(chooseFields_aggregate sqlobj cols) by done.
  rewrite (groupby_ext sqlobj data r r') by done.
  by apply aggregate_fold_ext.
Qed.

(** ** The LIKE compiler *)

(** *** Reading the compiled pattern *)

Lemma rmatch_any_star (re : list atom) (at_start : bool) (s : string) :
  rmatch (AAnyStar :: re) at_start s
  = rmatch re at_start s
    || match s with
       | String d s' => negb (is_line_terminator d) && rmatch (AAnyStar :: re) false s'
       | EmptyString => false
       end.
Proof. by destruct s. Qed.

Lemma like_match_any_seq (wild : ascii -> bool) (ts : list like_token) (s : string) :
  like_match wild (LAnySeq :: ts) s
  = like_match wild ts s
    || match s with
       | String d s' => wild d && like_match wild (LAnySeq :: ts) s'
       | EmptyString => false
       end.
Proof. by destruct s. Qed.

(** Between [^] and [$] the atoms of the tokens match as LIKE does, with
    wildcards that stop at line terminators. *)
Lemma rmatch_like (ts : list like_token) (at_start : bool) (s : string) :
  rmatch ((atom_of <$> ts) ++ [AEnd]) at_start s
  = like_match (fun c => negb (is_line_terminator c)) ts s.
Proof.
  revert at_start s. induction ts as [|t ts IH]; intros at_start s.
  - by destruct s.
  - destruct t as [| |c]; rewrite fmap_cons; simpl app.
    + cbn [atom_of]. revert at_start.
      induction s as [|d s IHs]; intros at_start;
        rewrite rmatch_any_star, like_match_any_seq, IH; [done |].
      by rewrite IHs.
    + destruct s as [|d s]; [done |]. simpl. by rewrite IH.
    + destruct s as [|d s]; [done |]. simpl. by rewrite IH.
Qed.

Lemma rsearch_start_later (re : list atom) (s : string) :
  rsearch (AStart :: re) false s = false.
Proof. induction s as [|c s IH]; simpl; [done | exact IH]. Qed.

Lemma RegExp_test_anchored (ts : list like_token) (s : string) :
  RegExp_test (AStart :: (atom_of <$> ts) ++ [AEnd]) (VStr s)
  = like_match (fun c => negb (is_line_terminator c)) ts s.
Proof.
  unfold RegExp_test. cbn [ToString].
  destruct s as [|c s]; cbn [rsearch]; rewrite ?rsearch_start_later, orb_false_r;
    cbn [rmatch andb]; apply rmatch_like.
Qed.

(** *** The passes of [like2RegExp] on a plain pattern *)

Lemma plain_pattern_ind (P : string -> Prop) :
  P EmptyString ->
  (forall d p, Ascii.eqb d "%" || Ascii.eqb d "_" = true ->
     plain_pattern p = true -> P p -> P (String "\" (String d p))) ->
  (forall c p, Ascii.eqb c "\" = false ->
     existsb (Ascii.eqb c) ["+"; "("; ")"; "["; "]"; "{"; "}"; "|"]%char = false ->
     plain_pattern p = true -> P p -> P (String c p)) ->
  forall p, plain_pattern p = true -> P p.
Proof.
  intros Hnil Hesc Hchar p.
  remember (String.length p) as n eqn:Hn.
  revert p Hn. induction n as [n IH] using lt_wf_ind. intros p Hn Hplain.
  destruct p as [|c p]; [exact Hnil |].
  simpl in Hplain. destruct (Ascii.eqb c "\") eqn:Hc.
  - apply Ascii.eqb_eq in Hc as ->.
    destruct p as [|d p]; [discriminate |].
    apply andb_prop in Hplain as [Hd Hplain].
    apply Hesc; [done | done |].
    apply (IH (String.length p)); [simpl in Hn; lia | done | done].
  - apply andb_prop in Hplain as [Hun Hplain]. apply negb_true_iff in Hun.
    apply Hchar; [done | done | done |].
    apply (IH (String.length p)); [simpl in Hn; lia | done | done].
Qed.

Lemma replace_wildcard_other (w : ascii) (f : string -> string) (c : ascii) (s : string) :
  Ascii.eqb c w = false -> Ascii.eqb c "\" = false ->
  replace_wildcard w f (String c s) = String c (replace_wildcard w f s).
Proof.
  intros Hw Hb. simpl. rewrite Hw, Hb. by destruct s.
Qed.

Lemma replace_wildcard_escaped_other (w : ascii) (f : string -> string)
    (d : ascii) (s : string) :
  Ascii.eqb "\" w = false -> Ascii.eqb d w = false -> Ascii.eqb d "\" = false ->
  replace_wildcard w f (String "\" (String d s))
  = String "\" (String d (replace_wildcard w f s)).
Proof.
  intros Hbw Hw Hb. cbn [replace_wildcard]. rewrite Hbw, Hw, Hb.
  rewrite andb_false_r. by destruct s.
Qed.

Lemma replace_wildcard_escaped (w : ascii) (f : string -> string) (s : string) :
  Ascii.eqb "\" w = false ->
  replace_wildcard w f (String "\" (String w s))
  = f (String "\" (String w EmptyString)) +:+ replace_wildcard w f s.
Proof.
  intros Hbw. cbn [replace_wildcard]. rewrite Hbw, !Ascii.eqb_refl. reflexivity.
Qed.

Lemma replace_wildcard_hit (w : ascii) (f : string -> string) (s : string) :
  replace_wildcard w f (String w s)
  = f (String w EmptyString) +:+ replace_wildcard w f s.
Proof. cbn [replace_wildcard]. by rewrite Ascii.eqb_refl. Qed.

Lemma like_tokens_literal (c : ascii) (p : string) :
  Ascii.eqb c "%" = false -> Ascii.eqb c "_" = false -> Ascii.eqb c "\" = false ->
  like_tokens (String c p) = LChar c :: like_tokens p.
Proof. intros H1 H2 H3. simpl. rewrite H1, H2, H3. by destruct p. Qed.

Lemma render_keep (t : like_token) (ts : list like_token) :
  render true true (t :: ts) = render_token true true t +:+ render true true ts.
Proof. reflexivity. Qed.

(** After the first three passes every token stands in the text, the
    escaped wildcards with their backslash. *)
Lemma wildcards_replaced (p : string) :
  plain_pattern p = true ->
  replace_wildcard "_" (replaceIfNotPrecededBy "\" ".")
    (replace_wildcard "%" (replaceIfNotPrecededBy "\" ".*?") (escape_special p))
  = render true true (like_tokens p).
Proof.
  revert p. apply plain_pattern_ind.
  - reflexivity.
  - intros d p Hd _ IH. apply orb_prop in Hd as [Hd | Hd]; apply Ascii.eqb_eq in Hd as ->.
    + change (escape_special (String "\" (String "%" p)))
        with (String "\" (String "%" (escape_special p))).
      rewrite replace_wildcard_escaped by done.
      change (replaceIfNotPrecededBy "\" ".*?" "\%") with "\%".
      change ("\%" +:+ ?x) with (String "\" (String "%" x)).
      rewrite replace_wildcard_escaped_other by done.
      rewrite IH. reflexivity.
    + change (escape_special (String "\" (String "_" p)))
        with (String "\" (String "_" (escape_special p))).
      rewrite replace_wildcard_escaped_other by done.
      rewrite replace_wildcard_escaped by done.
      rewrite IH. reflexivity.
  - intros c p Hb Hun _ IH. destruct (Ascii.eqb c "%") eqn:Hpct.
    { apply Ascii.eqb_eq in Hpct as ->.
      change (escape_special (String "%" p)) with (String "%" (escape_special p)).
      rewrite replace_wildcard_hit.
      change (replaceIfNotPrecededBy "\" ".*?" "%" +:+ ?x)
        with (String "." (String "*" (String "?" x))).
      rewrite !replace_wildcard_other by done. rewrite IH. reflexivity. }
    destruct (Ascii.eqb c "_") eqn:Hus.
    { apply Ascii.eqb_eq in Hus as ->.
      change (escape_special (String "_" p)) with (String "_" (escape_special p)).
      rewrite replace_wildcard_other by done.
      rewrite replace_wildcard_hit. rewrite IH. reflexivity. }
    rewrite like_tokens_literal by done. rewrite render_keep.
    cbn [render_token]. rewrite Hpct, Hus. unfold is_special.
    cbn [escape_special].
    destruct (existsb (Ascii.eqb c) ["."; "*"; "?"; "$"; "^"]%char) eqn:Hsp.
    + rewrite replace_wildcard_escaped_other by done.
      rewrite replace_wildcard_escaped_other by done.
      by rewrite IH.
    + rewrite !replace_wildcard_other by done. by rewrite IH.
Qed.

Lemma replace_first_skip (w : ascii) (rep : string) (c : ascii) (s : string) :
  Ascii.eqb c "\" = false ->
  replace_first (String "\" (String w EmptyString)) rep (String c s)
  = String c (replace_first (String "\" (String w EmptyString)) rep s).
Proof.
  intros Hc. cbn [replace_first String.prefix].
  destruct (ascii_dec "\" c) as [<- | _]; [discriminate | reflexivity].
Qed.

Lemma replace_first_skip_escaped (w : ascii) (rep : string) (d : ascii) (s : string) :
  Ascii.eqb d w = false -> Ascii.eqb d "\" = false ->
  replace_first (String "\" (String w EmptyString)) rep (String "\" (String d s))
  = String "\" (String d (replace_first (String "\" (String w EmptyString)) rep s)).
Proof.
  intros Hw Hb. cbn [replace_first String.prefix].
  destruct (ascii_dec "\" "\") as [_ | Hne]; [| done].
  destruct (ascii_dec w d) as [<- | _]; [by rewrite Ascii.eqb_refl in Hw |].
  destruct (ascii_dec "\" d) as [<- | _]; [discriminate | reflexivity].
Qed.

Lemma replace_first_hit (w : ascii) (rep : string) (s : string) :
  replace_first (String "\" (String w EmptyString)) rep (String "\" (String w s))
  = rep +:+ s.
Proof.
  cbn [replace_first String.prefix].
  destruct (ascii_dec "\" "\") as [_ | Hne]; [| done].
  destruct (ascii_dec w w) as [_ | Hne]; [| done].
  by destruct s.
Qed.

(** What [clean_token] and [is_special] say about a literal that is none
    of the wildcards. *)
Lemma clean_literal (c : ascii) :
  clean_token (LChar c) = true -> Ascii.eqb c "\" = false.
Proof.
  unfold clean_token. intros H%negb_true_iff. by split_existsb H.
Qed.

Lemma special_not_alnum (c : ascii) : is_special c = true -> is_alnum c = false.
Proof.
  unfold is_special. cbn [existsb]. rewrite !orb_true_iff.
  intros [H|[H|[H|[H|[H|H]]]]]; try discriminate;
    apply Ascii.eqb_eq in H as ->; reflexivity.
Qed.

Lemma special_not_wildcard (c : ascii) :
  is_special c = true ->
  Ascii.eqb c "%" = false /\ Ascii.eqb c "_" = false /\ Ascii.eqb c "\" = false.
Proof.
  unfold is_special. cbn [existsb]. rewrite !orb_true_iff.
  intros [H|[H|[H|[H|[H|H]]]]]; try discriminate;
    apply Ascii.eqb_eq in H as ->; done.
Qed.

(** The fourth pass takes the backslash off the first escaped [%]. *)
Lemma first_percent_stripped (us : bool) (ts : list like_token) :
  forallb clean_token ts = true ->
  replace_first "\%" "%" (render true us ts) = render false us ts.
Proof.
  revert us. induction ts as [|t ts IH]; intros us Hclean; [reflexivity |].
  cbn [forallb] in Hclean. apply andb_prop in Hclean as [Ht Hclean].
  cbn [render]. destruct t as [| |c]; cbn [render_token is_literal orb].
  - change (".*?" +:+ ?x) with (String "." (String "*" (String "?" x))).
    rewrite !replace_first_skip by done. by rewrite IH.
  - change ("." +:+ ?x) with (String "." x).
    rewrite !replace_first_skip by done. by rewrite IH.
  - pose proof (clean_literal c Ht) as Hb.
    destruct (Ascii.eqb c "%") eqn:Hpct.
    { change ("\%" +:+ ?x) with (String "\" (String "%" x)).
      by rewrite replace_first_hit. }
    destruct (Ascii.eqb c "_") eqn:Hus.
    { destruct us; cbn [orb].
      - change ("\_" +:+ ?x) with (String "\" (String "_" x)).
        rewrite replace_first_skip_escaped by done. by rewrite IH.
      - change ("_" +:+ ?x) with (String "_" x).
        rewrite replace_first_skip by done. by rewrite IH. }
    rewrite orb_false_r. destruct (is_special c) eqn:Hsp.
    + change (String "\" (String c EmptyString) +:+ ?x) with (String "\" (String c x)).
      rewrite replace_first_skip_escaped by done. by rewrite IH.
    + change (String c EmptyString +:+ ?x) with (String c x).
      rewrite replace_first_skip by done. by rewrite IH.
Qed.

(** The fifth pass takes the backslash off the first escaped [_]. *)
Lemma first_underscore_stripped (pct : bool) (ts : list like_token) :
  forallb clean_token ts = true ->
  replace_first "\_" "_" (render pct true ts) = render pct false ts.
Proof.
  revert pct. induction ts as [|t ts IH]; intros pct Hclean; [reflexivity |].
  cbn [forallb] in Hclean. apply andb_prop in Hclean as [Ht Hclean].
  cbn [render]. destruct t as [| |c]; cbn [render_token is_literal orb].
  - change (".*?" +:+ ?x) with (String "." (String "*" (String "?" x))).
    rewrite !replace_first_skip by done. rewrite !orb_false_r. by rewrite IH.
  - change ("." +:+ ?x) with (String "." x).
    rewrite !replace_first_skip by done. rewrite !orb_false_r. by rewrite IH.
  - pose proof (clean_literal c Ht) as Hb.
    destruct (Ascii.eqb c "%") eqn:Hpct.
    { apply Ascii.eqb_eq in Hpct as ->. change (Ascii.eqb "%" "_") with false.
      destruct pct; cbn [orb].
      - change ("\%" +:+ ?x) with (String "\" (String "%" x)).
        rewrite replace_first_skip_escaped by done. by rewrite IH.
      - change ("%" +:+ ?x) with (String "%" x).
        rewrite replace_first_skip by done. by rewrite IH. }
    rewrite orb_false_r.
    destruct (Ascii.eqb c "_") eqn:Hus.
    { change ("\_" +:+ ?x) with (String "\" (String "_" x)).
      by rewrite replace_first_hit. }
    destruct (is_special c) eqn:Hsp.
    + change (String "\" (String c EmptyString) +:+ ?x) with (String "\" (String c x)).
      rewrite replace_first_skip_escaped by done. by rewrite IH.
    + change (String c EmptyString +:+ ?x) with (String c x).
      rewrite replace_first_skip by done. by rewrite IH.
Qed.

(** *** Parsing the text of the tokens *)

Lemma append_assoc (a b c : string) : (a +:+ b) +:+ c = a +:+ (b +:+ c).
Proof.
  induction a as [|x a IH]; [reflexivity |].
  change (String x ((a +:+ b) +:+ c) = String x (a +:+ (b +:+ c))). by rewrite IH.
Qed.

Lemma parse_regexp_literal (c : ascii) (rest : string) :
  Ascii.eqb c "\" = false -> is_special c = false ->
  existsb (Ascii.eqb c) ["+"; "("; ")"; "["; "]"; "{"; "}"; "|"]%char = false ->
  parse_regexp (String c rest) = cons (AChar c) <$> parse_regexp rest.
Proof.
  intros Hb Hsp Hun. unfold is_special in Hsp.
  split_existsb Hsp. split_existsb Hun.
  cbn [parse_regexp]. unfold is_unread_syntax. cbn [existsb].
  repeat match goal with
         | H : Ascii.eqb c _ = false |- _ => rewrite H; clear H
         end.
  reflexivity.
Qed.

Lemma parse_regexp_escaped (d : ascii) (rest : string) :
  is_alnum d = false ->
  parse_regexp (String "\" (String d rest)) = cons (AChar d) <$> parse_regexp rest.
Proof. intros Hd. cbn [parse_regexp]. cbn [Ascii.eqb Bool.eqb andb]. by rewrite Hd. Qed.

Lemma parse_regexp_any (rest : string) :
  (forall rest', rest ≠ String "*" rest') ->
  parse_regexp (String "." rest) = cons AAny <$> parse_regexp rest.
Proof.
  intros Hstar. cbn [parse_regexp]. cbn [Ascii.eqb Bool.eqb andb].
  destruct rest as [|d rest']; [reflexivity |].
  destruct (Ascii.eqb_spec d "*") as [-> | _]; [by destruct (Hstar rest') | reflexivity].
Qed.

Lemma clean_not_unread (c : ascii) :
  clean_token (LChar c) = true ->
  existsb (Ascii.eqb c) ["+"; "("; ")"; "["; "]"; "{"; "}"; "|"]%char = false.
Proof.
  unfold clean_token. intros H%negb_true_iff. cbn [existsb] in H.
  by apply orb_false_elim in H as [_ H].
Qed.

(** The text of clean tokens never begins with a star. *)
Lemma render_no_star (pct us : bool) (ts : list like_token) (rest' : string) :
  forallb clean_token ts = true ->
  render pct us ts +:+ "$" ≠ String "*" rest'.
Proof.
  destruct ts as [|t ts]; [discriminate |].
  cbn [forallb render]. intros [Ht _]%andb_prop.
  destruct t as [| |c]; cbn [render_token]; try discriminate.
  destruct (Ascii.eqb c "%"); [by destruct pct |].
  destruct (Ascii.eqb c "_"); [by destruct us |].
  destruct (is_special c) eqn:Hsp; [discriminate |].
  unfold is_special in Hsp. split_existsb Hsp.
  intros [= ->]. discriminate.
Qed.

Lemma parse_regexp_render (pct us : bool) (ts : list like_token) :
  forallb clean_token ts = true ->
  parse_regexp (render pct us ts +:+ "$") = Some ((atom_of <$> ts) ++ [AEnd]).
Proof.
  revert pct us. induction ts as [|t ts IH]; intros pct us Hclean; [reflexivity |].
  pose proof Hclean as Hall.
  cbn [forallb] in Hclean. apply andb_prop in Hclean as [Ht Hclean].
  cbn [render]. rewrite fmap_cons. rewrite append_assoc.
  destruct t as [| |c]; cbn [render_token atom_of].
  - change (".*?" +:+ ?x) with (String "." (String "*" (String "?" x))).
    cbn [parse_regexp]. cbn [Ascii.eqb Bool.eqb andb]. by rewrite IH.
  - change ("." +:+ ?x) with (String "." x).
    rewrite parse_regexp_any by (intros rest'; by apply render_no_star).
    by rewrite IH.
  - pose proof (clean_literal c Ht) as Hb.
    pose proof (clean_not_unread c Ht) as Hun.
    destruct (Ascii.eqb c "%") eqn:Hpct.
    { apply Ascii.eqb_eq in Hpct as ->. destruct pct.
      - change ("\%" +:+ ?x) with (String "\" (String "%" x)).
        rewrite parse_regexp_escaped by done. by rewrite IH.
      - change ("%" +:+ ?x) with (String "%" x).
        rewrite parse_regexp_literal by done. by rewrite IH. }
    destruct (Ascii.eqb c "_") eqn:Hus.
    { apply Ascii.eqb_eq in Hus as ->. destruct us.
      - change ("\_" +:+ ?x) with (String "\" (String "_" x)).
        rewrite parse_regexp_escaped by done. by rewrite IH.
      - change ("_" +:+ ?x) with (String "_" x).
        rewrite parse_regexp_literal by done. by rewrite IH. }
    destruct (is_special c) eqn:Hsp.
    + change (String "\" (String c EmptyString) +:+ ?x) with (String "\" (String c x)).
      rewrite parse_regexp_escaped by (by apply special_not_alnum). by rewrite IH.
    + change (String c EmptyString +:+ ?x) with (String c x).
      rewrite parse_regexp_literal by done. by rewrite IH.
Qed.

Lemma plain_tokens_clean (p : string) :
  plain_pattern p = true -> forallb clean_token (like_tokens p) = true.
Proof.
  revert p. apply plain_pattern_ind.
  - reflexivity.
  - intros d p Hd _ IH.
    assert (Htok : like_tokens (String "\" (String d p)) = LChar d :: like_tokens p).
    { cbn [like_tokens]. cbn [Ascii.eqb Bool.eqb andb]. by rewrite Hd. }
    rewrite Htok. cbn [forallb]. rewrite IH, andb_true_r.
    apply orb_prop in Hd as [Hd | Hd]; apply Ascii.eqb_eq in Hd as ->; reflexivity.
  - intros c p Hb Hun _ IH. cbn [like_tokens].
    destruct (Ascii.eqb c "%"); [exact IH |].
    destruct (Ascii.eqb c "_"); [exact IH |].
    rewrite Hb. cbn [andb].
    assert (Hc : clean_token (LChar c) = true).
    { unfold clean_token. cbn [existsb]. rewrite Hb. cbn [orb].
      cbn [existsb] in Hun. by rewrite Hun. }
    destruct p as [|d p']; cbn [forallb]; rewrite Hc; [done | exact IH].
Qed.

(** The regular expression made from a plain pattern. *)
Lemma like2RegExp_plain (p : string) :
  plain_pattern p = true ->
  like2RegExp (VStr p) = Ok (AStart :: (atom_of <$> like_tokens p) ++ [AEnd]).
Proof.
  intros Hplain. pose proof (plain_tokens_clean p Hplain) as Hclean.
  unfold like2RegExp, like2RegExp_source. cbv zeta.
  rewrite wildcards_replaced by done.
  rewrite first_percent_stripped by done.
  rewrite first_underscore_stripped by done.
  change ("^" +:+ ?x) with (String "^" x).
  cbn [parse_regexp]. cbn [Ascii.eqb Bool.eqb andb].
  by rewrite parse_regexp_render.
Qed.

Lemma like_match_literals_100pct (wild : ascii -> bool) (s : string) :
  like_match wild [LChar "1"; LChar "0"; LChar "0"; LChar "%"] s = true
  <-> s = "100%".
Proof.
  split; [| by intros ->].
  destruct s as [|c1 [|c2 [|c3 [|c4 [|c5 s]]]]]; cbn [like_match];
    rewrite ?andb_false_r; try discriminate.
  intros H. repeat (apply andb_prop in H as [?%Ascii.eqb_eq H]). by subst.
Qed.

(** C7 as the code has it: for a pattern in which a backslash stands only
    before a wildcard and none of [+ ( ) [ ] { } |] occurs, the compiled
    expression matches the whole of a string exactly when the string
    matches the pattern with every unescaped [%] taking zero or more
    characters that are no line terminator, every unescaped [_] taking one
    such character, and every [%] or [_] after a backslash taken
    literally.  The pattern a%b_ matches aXXXbY and does not match ab; the
    pattern of 100 followed by an escaped [%] matches the string 100% and
    no other. *)
Theorem like_compiler_whole_string :
  (forall pattern : string,
     plain_pattern pattern = true ->
     exists re, like2RegExp (VStr pattern) = Ok re
                /\ forall s, RegExp_test re (VStr s) = like_no_newline pattern s)
  /\ (exists re, like2RegExp (VStr "a%b_") = Ok re
                 /\ RegExp_test re (VStr "aXXXbY") = true
                 /\ RegExp_test re (VStr "ab") = false)
  /\ (exists re, like2RegExp (VStr "100\%") = Ok re
                 /\ forall s, RegExp_test re (VStr s) = true <-> s = "100%").
Proof.
  split; [| split].
  - intros pattern Hplain. eexists. split; [by apply like2RegExp_plain |].
    intros s. apply RegExp_test_anchored.
  - eexists. split; [by apply like2RegExp_plain |].
    split; vm_compute; reflexivity.
  - eexists. split; [by apply like2RegExp_plain |].
    intros s. rewrite RegExp_test_anchored.
    apply like_match_literals_100pct.
Qed.

Lemma like_compiler_whole_string_witness :
  exists re, like2RegExp (VStr "a%b_") = Ok re
             /\ forall s, RegExp_test re (VStr s) = like_no_newline "a%b_" s.
Proof.
  exact (proj1 like_compiler_whole_string "a%b_" eq_refl).
Defined.

(** C7 as it is written fails on a line terminator: LIKE with the
    pattern [%] is to accept every string, and the compiled expression
    rejects the string made of one line feed. *)
Lemma like_compiler_stops_at_newline :
  like_spec "%" Examples.newline = true
  /\ like2RegExp (VStr "%") = Ok [AStart; AAnyStar; AEnd]
  /\ RegExp_test [AStart; AAnyStar; AEnd] (VStr Examples.newline) = false.
Proof. repeat split. Qed.

(** ** Grouping by the values of the GROUP BY columns *)

Lemma aggregate_column_alter (index : nat) (r : obj) (data : list obj) (c : column) :
  aggregate_column index r data c = alter (fun o => write_column r o c) index data.
Proof.
  unfold aggregate_column, write_column, modify.
  destruct (c_expr c) as [t col|op l rr|fname args|v];
    try (symmetry; apply list_alter_id; done); [done |].
  destruct (String.eqb (toUpperCase fname) "SUM"); [done |].
  destruct (String.eqb (toUpperCase fname) "COUNT"); [done |].
  symmetry. by apply list_alter_id.
Qed.

Lemma aggregate_fold_alter (index : nat) (r : obj) (cols : list column)
    (data : list obj) :
  fold_left (aggregate_column index r) cols data
  = alter (fun o => fold_left (write_column r) cols o) index data.
Proof.
  revert data. induction cols as [|c cols IH]; intros data.
  - symmetry. by apply list_alter_id.
  - cbn [fold_left]. rewrite IH, aggregate_column_alter.
    by rewrite list_alter_alter_eq.
Qed.

Lemma write_column_other (k : string) (r o : obj) (c : column) :
  written_name c ≠ Some k -> write_column r o c !! k = o !! k.
Proof.
  unfold written_name, write_column.
  destruct (c_expr c) as [t col|op l rr|fname args|v]; try done.
  - intros Hne. unfold set_prop. apply lookup_insert_ne. congruence.
  - destruct (String.eqb (toUpperCase fname) "SUM") eqn:Hsum; cbn [orb].
    + intros Hne. unfold set_prop, init_zero.
      rewrite lookup_insert_ne by congruence.
      destruct (strict_equal _ _); [| done].
      unfold set_prop. apply lookup_insert_ne. congruence.
    + destruct (String.eqb (toUpperCase fname) "COUNT") eqn:Hcount; [| done].
      intros Hne. unfold set_prop, init_zero.
      rewrite lookup_insert_ne by congruence.
      destruct (strict_equal _ _); [| done].
      unfold set_prop. apply lookup_insert_ne. congruence.
Qed.

Lemma writers_cons (k : string) (c : column) (cols : list column) :
  writers k (c :: cols)
  = if bool_decide (written_name c = Some k) then c :: writers k cols
    else writers k cols.
Proof. reflexivity. Qed.

Lemma write_fold_keeps (k : string) (r : obj) (cols : list column) (o : obj) :
  writers k cols = [] -> fold_left (write_column r) cols o !! k = o !! k.
Proof.
  revert o. induction cols as [|c cols IH]; intros o Hnone; [done |].
  rewrite writers_cons in Hnone. case_bool_decide as Hw; [discriminate |].
  cbn [fold_left]. rewrite IH by done. by apply write_column_other.
Qed.

(** The key holds what the last column that writes it has put there. *)
Lemma write_fold_last_ref (k : string) (r : obj) (cols : list column) (o : obj)
    (c : column) :
  last (writers k cols) = Some c -> is_column_ref (c_expr c) = true ->
  fold_left (write_column r) cols o !! k
  = Some (get_prop r (bare_name (c_expr c))).
Proof.
  intros Hlast Hc. revert o Hlast.
  induction cols as [|c' cols IH]; intros o Hlast; [discriminate |].
  cbn [fold_left]. rewrite writers_cons in Hlast.
  destruct (writers k cols) as [|w ws] eqn:Hws.
  - case_bool_decide as Hw; [| discriminate].
    injection Hlast as ->. rewrite write_fold_keeps by done.
    unfold written_name, write_column in *.
    destruct (c_expr c) as [t col|op l rr|fname args|v]; try discriminate.
    injection Hw as <-. unfold set_prop. by rewrite lookup_insert_eq.
  - apply IH. case_bool_decide; exact Hlast.
Qed.

(** The key of a SUM that no other column writes. *)
Lemma write_fold_sum (r : obj) (cols : list column) (o : obj)
    (fname : string) (args : expr) (alias : option string) :
  toUpperCase fname = "SUM" ->
  writers (as_or alias ("SUM(" +:+ bare_name args +:+ ")")) cols
  = [{| c_expr := aggr_func fname args; c_as := alias |}] ->
  fold_left (write_column r) cols o
    !! as_or alias ("SUM(" +:+ bare_name args +:+ ")")
  = Some (js_add
            (if strict_equal
                  (get_prop o (as_or alias ("SUM(" +:+ bare_name args +:+ ")")))
                  VUndefined
             then VNum (Int 0)
             else get_prop o (as_or alias ("SUM(" +:+ bare_name args +:+ ")")))
            (get_prop r (bare_name args))).
Proof.
  intros Hsum. set (s := as_or alias _). revert o.
  induction cols as [|c cols IH]; intros o Hw; [discriminate |].
  cbn [fold_left]. rewrite writers_cons in Hw. case_bool_decide as Hc.
  - injection Hw as -> Hnone. rewrite write_fold_keeps by done.
    unfold write_column. cbn [c_expr c_as]. rewrite Hsum.
    cbn [String.eqb Ascii.eqb Bool.eqb].
    change (as_or alias ("SUM" +:+ "(" +:+ bare_name args +:+ ")")) with s.
    unfold set_prop. rewrite lookup_insert_eq. f_equal.
    unfold init_zero. destruct (strict_equal (get_prop o s) VUndefined); [| done].
    unfold get_prop, set_prop. by rewrite lookup_insert_eq.
  - rewrite IH by done. unfold get_prop.
    by rewrite (write_column_other s r o c Hc).
Qed.

Lemma js_add_defined (x y : value) : strict_equal (js_add x y) VUndefined = false.
Proof. by destruct x, y. Qed.

Lemma findIndex_Forall2 {A B} (p : A -> bool) (q : B -> bool) (xs : list A)
    (ys : list B) :
  Forall2 (fun x y => p x = q y) xs ys -> findIndex p xs = findIndex q ys.
Proof.
  induction 1 as [|x y xs ys Hxy _ IH]; [done |]. simpl. by rewrite Hxy, IH.
Qed.

Lemma forallb_ext_in {A} (p q : A -> bool) (l : list A) :
  (forall x, x ∈ l -> p x = q x) -> forallb p l = forallb q l.
Proof.
  induction l as [|x l IH]; intros Hpq; [done |]. simpl.
  rewrite (Hpq x) by apply list_elem_of_here.
  rewrite IH; [done |]. intros y Hy. apply Hpq. by apply list_elem_of_further.
Qed.

Section Grouping.
Variables (sqlobj : select) (cols : list column) (groups : list expr).
Variables (fname : string) (args : expr) (alias : option string).
Hypothesis Hcols : s_columns sqlobj = Columns cols.
Hypothesis Hgroups : s_groupby sqlobj = Some groups.
Hypothesis Hsum : toUpperCase fname = "SUM".
Hypothesis Hwriter :
  writers (as_or alias ("SUM(" +:+ bare_name args +:+ ")")) cols
  = [{| c_expr := aggr_func fname args; c_as := alias |}].
Hypothesis Hselected : forallb (selected_as_itself cols) groups = true.

Local Abbreviation sum_name := (as_or alias ("SUM(" +:+ bare_name args +:+ ")")).
Local Abbreviation in_group := (group_row groups sum_name (bare_name args)).

Lemma grouping_is_aggregate : existsb is_aggr_func cols = true.
Proof.
  apply existsb_exists.
  exists {| c_expr := aggr_func fname args; c_as := alias |}. split; [| done].
  assert (Hin : In {| c_expr := aggr_func fname args; c_as := alias |}
                   (writers sum_name cols)) by (rewrite Hwriter; by left).
  by apply filter_In in Hin as [Hin _].
Qed.

(** The scan of the result rows and the scan of the groups agree. *)
Lemma grouping_same_scan (data : list obj) (gs : list (list obj)) (r : obj) :
  Forall2 in_group data gs ->
  findIndex (same_group groups r) data = findIndex (takes_row groups r) gs.
Proof.
  intros Hinv. apply findIndex_Forall2.
  eapply Forall2_impl; [exact Hinv |].
  intros drow members Hrow. unfold same_group, takes_row, same_group_values.
  destruct members as [|latest rest]; [done |]. destruct Hrow as [Hkeys _].
  apply forallb_ext_in. intros g Hg. unfold get_prop at 1.
  by rewrite (Hkeys g Hg).
Qed.

(** The group row after the columns have been written for the row [r]. *)
Lemma grouping_written (o : obj) (r : obj) (members : list obj) :
  o !! sum_name
  = match members with
    | [] => None
    | _ :: _ => Some (spec_sum (bare_name args) members)
    end ->
  in_group (fold_left (write_column r) cols o) (r :: members).
Proof.
  intros Hold. split.
  - intros g Hg. rewrite forallb_forall in Hselected.
    specialize (Hselected g (proj1 (list_elem_of_In _ _) Hg)).
    unfold selected_as_itself in Hselected.
    destruct (last (writers (bare_name g) cols)) as [c|] eqn:Hlast; [| done].
    apply andb_prop in Hselected as [Href Hname].
    apply String.eqb_eq in Hname.
    rewrite (write_fold_last_ref _ r cols o c Hlast Href). by rewrite Hname.
  - rewrite (write_fold_sum r cols o fname args alias Hsum Hwriter).
    f_equal. cbn [spec_sum foldr]. f_equal. unfold get_prop. rewrite Hold.
    destruct members as [|m ms]; [done |].
    cbn [from_option id spec_sum foldr]. by rewrite js_add_defined.
Qed.

Lemma grouping_step (data : list obj) (gs : list (list obj)) (r : obj)
    (namespace : bool) :
  Forall2 in_group data gs ->
  Forall2 in_group (chooseFields sqlobj data r namespace) (spec_assign groups gs r).
Proof.
  intros Hinv.
  rewrite (chooseFields_aggregate sqlobj cols) by (done || apply grouping_is_aggregate).
  unfold groupby, spec_assign. rewrite Hgroups, (grouping_same_scan data gs r Hinv).
  destruct (findIndex (takes_row groups r) gs) as [i|] eqn:Hfind; cbn [fst snd].
  - rewrite aggregate_fold_alter. apply Forall2_alter; [done |].
    intros o members _ _ Hrow.
    destruct members as [|latest rest]; [done |]. destruct Hrow as [_ Hs].
    by apply grouping_written.
  - rewrite aggregate_fold_alter.
    rewrite <- (Nat.add_0_r (length data)), alter_app_r. cbn [alter list_alter].
    apply Forall2_app; [exact Hinv |]. constructor; [| constructor].
    apply grouping_written. apply lookup_empty.
Qed.

Lemma grouping_fold (rows : list obj) (data : list obj) (gs : list (list obj))
    (namespace : bool) :
  Forall2 in_group data gs ->
  Forall2 in_group
    (fold_left (fun result r => chooseFields sqlobj result r namespace) rows data)
    (fold_left (spec_assign groups) rows gs).
Proof.
  revert data gs. induction rows as [|r rows IH]; intros data gs Hinv; [done |].
  cbn [fold_left]. apply IH. by apply grouping_step.
Qed.
End Grouping.




(** ** What aggregate mode reads in a row *)

Lemma forallb_false_elem {A} (p : A -> bool) (l : list A) :
  forallb p l = false -> exists x, x ∈ l /\ p x = false.
Proof.
  induction l as [|x l IH]; [discriminate |]. simpl.
  destruct (p x) eqn:Hp; simpl.
  - intros Hl. destruct (IH Hl) as (y & Hy & Hpy).
    exists y. split; [by apply list_elem_of_further | done].
  - intros _. exists x. split; [apply list_elem_of_here | done].
Qed.

(** The scan for the group compares, with [==], the fields of the result
    rows and of the row at the bare names of the GROUP BY columns. *)
Lemma groupby_compares_bare_names (sqlobj : select) (groups : list expr)
    (data : list obj) (r : obj) :
  s_groupby sqlobj = Some groups ->
  (forall drow, data !! (groupby sqlobj data r).2 = Some drow ->
     (groupby sqlobj data r).1 = data
     /\ forall g, g ∈ groups ->
          loose_equal (get_prop drow (bare_name g)) (get_prop r (bare_name g))
          = true)
  /\ (forall j drow, (j < (groupby sqlobj data r).2)%nat -> data !! j = Some drow ->
        exists g, g ∈ groups
                  /\ loose_equal (get_prop drow (bare_name g))
                                 (get_prop r (bare_name g)) = false)
  /\ ((groupby sqlobj data r).2 < length data
      \/ groupby sqlobj data r = (data ++ [∅], length data))%nat.
Proof.
  intros Hgroups. unfold groupby. rewrite Hgroups.
  destruct (findIndex (same_group groups r) data) as [i|] eqn:Hfind; cbn [fst snd].
  - destruct (findIndex_Some _ _ _ Hfind) as [(drow & Hat & Hsame) Hbefore].
    split; [| split].
    + intros drow' Hat'. rewrite Hat in Hat'. injection Hat' as <-.
      split; [done |]. intros g Hg. unfold same_group in Hsame.
      rewrite forallb_forall in Hsame. by apply Hsame, list_elem_of_In.
    + intros j drow' Hj Hat'. by apply forallb_false_elem, (Hbefore j).
    + left. by apply lookup_lt_Some in Hat.
  - split; [| split].
    + intros drow Hat. apply lookup_lt_Some in Hat. lia.
    + intros j drow' _ Hat'. apply forallb_false_elem.
      apply (findIndex_None _ _ Hfind). by apply list_elem_of_lookup_2 in Hat'.
    + by right.
Qed.

(** The value that a plain column puts into the group row is the field of
    the row at the bare name of the column. *)
Lemma aggregate_copies_bare_name (sqlobj : select) (cols : list column)
    (data : list obj) (r : obj) (namespace : bool) (k : string) (c : column) :
  s_columns sqlobj = Columns cols -> existsb is_aggr_func cols = true ->
  last (writers k cols) = Some c -> is_column_ref (c_expr c) = true ->
  exists o,
    chooseFields sqlobj data r namespace !! (groupby sqlobj data r).2 = Some o
    /\ o !! k = Some (get_prop r (bare_name (c_expr c))).
Proof.
  intros Hcols Hagg Hlast Href.
  rewrite (chooseFields_aggregate sqlobj cols) by done.
  rewrite aggregate_fold_alter.
  destruct (lookup_lt_is_Some_2 _ _ (groupby_in_range sqlobj data r)) as [o Ho].
  exists (fold_left (write_column r) cols o). split.
  - by rewrite list_lookup_alter_eq, Ho.
  - by apply write_fold_last_ref.
Qed.

Lemma namespaced_no_bare_field (r : obj) (c : string) :
  namespaced r -> has_dot c = false -> r !! c = None.
Proof.
  intros Hns Hc. destruct (r !! c) eqn:Hrc; [| done].
  assert (has_dot c = true) by (apply Hns; by rewrite Hrc). congruence.
Qed.

(** C9: in aggregate mode the row is read at the bare column names,
    whatever the namespacing flag is.  The scan for the group compares the
    fields of the result rows and of the row at the bare names of the
    GROUP BY columns: the row goes to the first result row that equals it
    ([==]) there, and to a new one when none does.  A plain column copies
    the field of the row at its bare name into the group row.  Two rows
    that agree at the bare names are treated alike.  A row with namespaced
    keys, as a SELECT over more than one table builds them, has no field
    at a bare name, so that it is treated like the empty row: the
    statement SELECT a.g, SUM(a.v) FROM a INNER JOIN b ON a.g = b.g
    GROUP BY a.g ends with the single group {g: undefined, SUM(v): NaN}.
    The names are none of those that every object inherits. *)
Theorem aggregate_reads_bare_names :
  (forall (sqlobj : select) (groups : list expr) (data : list obj) (r : obj),
     s_groupby sqlobj = Some groups ->
     forallb (fun g => negb (inherited (bare_name g))) groups = true ->
     (forall drow, data !! (groupby sqlobj data r).2 = Some drow ->
        (groupby sqlobj data r).1 = data
        /\ forall g, g ∈ groups ->
             loose_equal (get_prop drow (bare_name g)) (get_prop r (bare_name g))
             = true)
     /\ (forall j drow, (j < (groupby sqlobj data r).2)%nat ->
           data !! j = Some drow ->
           exists g, g ∈ groups
                     /\ loose_equal (get_prop drow (bare_name g))
                                    (get_prop r (bare_name g)) = false)
     /\ ((groupby sqlobj data r).2 < length data
         \/ groupby sqlobj data r = (data ++ [∅], length data))%nat)
  /\ (forall (sqlobj : select) (cols : list column) (data : list obj) (r : obj)
             (namespace : bool) (k : string) (c : column),
        s_columns sqlobj = Columns cols -> existsb is_aggr_func cols = true ->
        last (writers k cols) = Some c -> is_column_ref (c_expr c) = true ->
        inherited k = false -> inherited (bare_name (c_expr c)) = false ->
        exists o,
          chooseFields sqlobj data r namespace !! (groupby sqlobj data r).2 = Some o
          /\ o !! k = Some (get_prop r (bare_name (c_expr c))))
  /\ (forall (sqlobj : select) (cols : list column) (data : list obj) (r r' : obj)
             (namespace namespace' : bool),
        s_columns sqlobj = Columns cols -> existsb is_aggr_func cols = true ->
        (forall group, group ∈ default [] (s_groupby sqlobj) ->
           get_prop r (bare_name group) = get_prop r' (bare_name group)) ->
        (forall c, c ∈ cols -> get_prop r (read_name c) = get_prop r' (read_name c)) ->
        chooseFields sqlobj data r namespace = chooseFields sqlobj data r' namespace')
  /\ (forall (table : string) (r : obj), namespaced (namespace_row table r))
  /\ (forall d s : obj, namespaced d -> namespaced s -> namespaced (merge_rows d s))
  /\ (forall (r : obj) (c : string),
        namespaced r -> has_dot c = false -> r !! c = None)
  /\ (forall (sqlobj : select) (cols : list column) (data : list obj) (r : obj)
             (namespace : bool),
        s_columns sqlobj = Columns cols -> existsb is_aggr_func cols = true ->
        bare_statement sqlobj cols = true -> namespaced r ->
        chooseFields sqlobj data r namespace = chooseFields sqlobj data ∅ namespace)
  /\ settles (execute (Examples.serving Examples.two_tables)
                      (Select Examples.sum_over_join))
     = Fulfilled 1 (Rows [<["g" := VUndefined]> {["SUM(v)" := VNum NaN]}]).
Proof.
  split; [| split; [| split; [| split; [| split; [| split; [| split]]]]]].
  - intros sqlobj groups data r Hgroups _.
    by apply groupby_compares_bare_names.
  - intros sqlobj cols data r namespace k c Hcols Hagg Hlast Href _ _.
    by apply (aggregate_copies_bare_name sqlobj cols).
  - intros. by apply (chooseFields_aggregate_ext sqlobj cols).
  - apply namespace_row_namespaced.
  - apply merge_rows_namespaced.
  - apply namespaced_no_bare_field.
  - intros sqlobj cols data r namespace Hcols Hagg Hbare Hns.
    apply andb_prop in Hbare as [Hgroups Hread].
    rewrite forallb_forall in Hgroups, Hread.
    apply (chooseFields_aggregate_ext sqlobj cols); try done.
    + intros group Hin. rewrite namespaced_absent; [done | done |].
      apply negb_true_iff, Hgroups. by apply list_elem_of_In.
    + intros c Hin. rewrite namespaced_absent; [done | done |].
      apply negb_true_iff, Hread. by apply list_elem_of_In.
  - vm_compute. reflexivity.
Qed.

Lemma aggregate_reads_bare_names_witness :
  (exists g, g ∈ [Examples.col "g"]
             /\ loose_equal (get_prop Examples.group_a (bare_name g))
                            (get_prop (<["a.g" := VStr "a"]> Examples.row_b5)
                                      (bare_name g)) = false)
  /\ (exists o,
        chooseFields Examples.sum_by_g []
          (<["a.g" := VStr "z"]> Examples.row_a2) true
          !! (groupby Examples.sum_by_g []
                (<["a.g" := VStr "z"]> Examples.row_a2)).2 = Some o
        /\ o !! "g" = Some (VStr "a"))
  /\ chooseFields Examples.sum_by_g [] Examples.row_a2 true
     = chooseFields Examples.sum_by_g [] (<["a.g" := VStr "z"]> Examples.row_a2) false
  /\ namespaced (merge_rows (namespace_row "a" Examples.row_a2)
                            (namespace_row "b" Examples.row_b5))
  /\ merge_rows (namespace_row "a" Examples.row_a2)
                (namespace_row "b" Examples.row_b5) !! "g" = None
  /\ chooseFields Examples.sum_over_join []
       (namespace_row "a" Examples.row_a2) true
     = chooseFields Examples.sum_over_join [] ∅ true.
Proof.
  destruct aggregate_reads_bare_names
    as (Hscan & Hcopy & Hsame & Hns & Hmerge & Hnone & Habsent & _).
  split; [| split; [| split; [| split; [| split]]]].
  - destruct (Hscan Examples.sum_by_g [Examples.col "g"] [Examples.group_a]
                (<["a.g" := VStr "a"]> Examples.row_b5) eq_refl eq_refl)
      as (_ & Hbefore & _).
    apply (Hbefore 0%nat Examples.group_a); [vm_compute; lia | reflexivity].
  - destruct (Hcopy Examples.sum_by_g
                [{| c_expr := Examples.col "g"; c_as := None |};
                 {| c_expr := aggr_func "SUM" (Examples.col "v"); c_as := Some "s" |}]
                [] (<["a.g" := VStr "z"]> Examples.row_a2) true "g"
                {| c_expr := Examples.col "g"; c_as := None |}
                eq_refl eq_refl eq_refl eq_refl eq_refl eq_refl)
      as (o & Ho & Hg).
    exists o. split; [exact Ho |]. rewrite Hg. vm_compute. reflexivity.
  - apply (Hsame Examples.sum_by_g
             [{| c_expr := Examples.col "g"; c_as := None |};
              {| c_expr := aggr_func "SUM" (Examples.col "v"); c_as := Some "s" |}]).
    + reflexivity.
    + reflexivity.
    + intros group Hin. apply list_elem_of_singleton in Hin as ->. reflexivity.
    + intros c Hin. apply elem_of_cons in Hin as [-> | Hin];
        [| apply list_elem_of_singleton in Hin as ->]; reflexivity.
  - apply Hmerge; apply Hns.
  - apply Hnone; [apply Hmerge; apply Hns | reflexivity].
  - apply (Habsent Examples.sum_over_join
             [{| c_expr := column_ref (Some "a") "g"; c_as := None |};
              {| c_expr := aggr_func "SUM" (column_ref (Some "a") "v"); c_as := None |}]).
    + reflexivity.
    + reflexivity.
    + reflexivity.
    + apply Hns.
Defined.

(** * Further properties *)

(** ** The predicate evaluator *)

Lemma compare_with_boolean (val : expr -> outcome value) (l r : expr)
    (op : value -> value -> bool) (v : value) :
  compare_with val l r op = Ok v -> exists b, v = VBool b.
Proof.
  unfold compare_with. intros H.
  apply bind_Ok_inv in H as (lv & _ & H).
  apply bind_Ok_inv in H as (rv & _ & [= <-]). eauto.
Qed.

Lemma like_operands_boolean (val : expr -> outcome value) (l r : expr)
    (expected : bool) (v : value) :
  like_operands val l r expected = Ok v -> exists b, v = VBool b.
Proof.
  unfold like_operands. intros H.
  apply bind_Ok_inv in H as (p & _ & H).
  apply bind_Ok_inv in H as (re & _ & H).
  apply bind_Ok_inv in H as (lv & _ & [= <-]). eauto.
Qed.

Lemma doWhere_condition_boolean (w : expr) (r : obj) (namespace : bool) (v : value) :
  condition w = true -> doWhere_node w r namespace = Ok v -> exists b, v = VBool b.
Proof.
  revert r namespace v.
  induction w as [t c|operator l IHl rr IHr|f a _|x]; intros r namespace v Hc;
    try discriminate.
  cbn [condition] in Hc. cbn [doWhere_node]. unfold apply_operator.
  repeat match goal with
         | |- context [if String.eqb operator ?s || _ then _ else _] =>
             destruct (String.eqb operator s); cbn [orb]
         | |- context [if String.eqb operator ?s then _ else _] =>
             destruct (String.eqb operator s)
         end;
    try (by apply compare_with_boolean);
    try (by apply like_operands_boolean);
    try (by intros [= <-]; eauto).
  all: cbn [orb] in Hc; rewrite ?orb_true_r in Hc;
    apply andb_prop in Hc as [Hl Hr];
    unfold and_operands; intros H;
    apply bind_Ok_inv in H as (lv & Hlv & H);
    destruct l as [| ol ll lr | |]; try discriminate;
    destruct rr as [| or_ rl rrr | |]; try discriminate;
    cbn [getVal] in Hlv, H;
    destruct (IHl _ _ _ Hl Hlv) as [bl ->];
    destruct (ToBoolean (VBool bl));
    [by apply (IHr r false) | injection H as <-; eauto].
Qed.

(** X1: on a condition whose AND and OR combine conditions, down to the
    comparisons, [doWhere] returns a boolean whenever it returns; hence the
    strict test [=== true] of UPDATE and DELETE and the truthiness test of
    SELECT pick the same rows. *)
Theorem condition_is_boolean (w : expr) (r : obj) (namespace : bool) (v : value) :
  condition w = true ->
  doWhere (Some w) r namespace = Ok v ->
  (exists b, v = VBool b) /\ strict_equal v (VBool true) = ToBoolean v.
Proof.
  intros Hc Hv. destruct (doWhere_condition_boolean w r namespace v Hc Hv) as [b ->].
  split; [eauto | by destruct b].
Qed.

Lemma condition_is_boolean_witness :
  (exists b, VBool true = VBool b)
  /\ strict_equal (VBool true) (VBool true) = ToBoolean (VBool true).
Proof.
  apply (condition_is_boolean
           (binary_expr "AND"
              (binary_expr "=" (Examples.col "g") (literal (VStr "a")))
              (binary_expr ">" (Examples.col "v") (literal (Examples.num 1))))
           Examples.row_a2 false (VBool true)).
  - reflexivity.
  - vm_compute. reflexivity.
Defined.

Lemma negated_compare (val : expr -> outcome value) (l r : expr)
    (op : value -> value -> bool) :
  compare_with val l r (fun x y => negb (op x y)) = negated (compare_with val l r op).
Proof.
  unfold compare_with. destruct (val l) as [lv|e]; [| done]. simpl.
  destruct (val r) as [rv|e]; done.
Qed.

(** X2: [!=] and [<>] are one operator, the negation of [=], and NOT LIKE
    is the negation of LIKE: where the positive operator returns a boolean
    the negative one returns the other boolean, and where it throws the
    negative one throws the same. *)
Theorem negative_operators (l r : expr) (row : obj) (namespace : bool) :
  doWhere (Some (binary_expr "!=" l r)) row namespace
  = negated (doWhere (Some (binary_expr "=" l r)) row namespace)
  /\ doWhere (Some (binary_expr "<>" l r)) row namespace
     = doWhere (Some (binary_expr "!=" l r)) row namespace
  /\ doWhere (Some (binary_expr "NOT LIKE" l r)) row namespace
     = negated (doWhere (Some (binary_expr "LIKE" l r)) row namespace).
Proof.
  split; [| split].
  - cbn [doWhere doWhere_node]. unfold apply_operator. cbn [String.eqb Ascii.eqb Bool.eqb orb].
    apply negated_compare.
  - reflexivity.
  - cbn [doWhere doWhere_node]. unfold apply_operator.
    cbn [String.eqb Ascii.eqb Bool.eqb orb]. unfold like_operands.
    destruct (getVal _ row namespace r) as [p|e]; [| done]. simpl.
    destruct (like2RegExp p) as [re|e]; [| done]. simpl.
    destruct (getVal _ row namespace l) as [lv|e]; [| done]. simpl.
    by destruct (RegExp_test re lv).
Qed.

(** X3: on a row that has no field for a column (whose name is none of
    those that every object inherits), the condition [column IS NULL] is
    false, while [column = NULL] is true: IS compares with [===], and the
    absent field reads as undefined. *)
Theorem is_null_misses_absent_field (row : obj) (table : option string)
    (c : string) :
  row !! c = None -> inherited c = false ->
  doWhere (Some (binary_expr "IS" (column_ref table c) (literal VNull))) row false
  = Ok (VBool false)
  /\ doWhere (Some (binary_expr "=" (column_ref table c) (literal VNull))) row false
     = Ok (VBool true).
Proof.
  intros Habs _.
  cbn [doWhere doWhere_node]. unfold apply_operator, compare_with.
  cbn [String.eqb Ascii.eqb Bool.eqb orb getVal field_name bare_name expr_column ToString].
  unfold get_prop. rewrite Habs. done.
Qed.

Lemma is_null_misses_absent_field_witness :
  doWhere (Some (binary_expr "IS" (Examples.col "w") (literal VNull)))
          Examples.row_a2 false = Ok (VBool false)
  /\ doWhere (Some (binary_expr "=" (Examples.col "w") (literal VNull)))
             Examples.row_a2 false = Ok (VBool true).
Proof.
  apply (is_null_misses_absent_field Examples.row_a2 None "w"); reflexivity.
Defined.

(** ** Conditions and joins over namespaced rows *)

Lemma matched_pairs_all (hold : obj -> obj -> bool) (dest src : list obj) :
  (forall d s, d ∈ dest -> s ∈ src -> hold d s = true) ->
  matched_pairs hold dest src = all_pairs dest src.
Proof.
  intros Hall. unfold matched_pairs, all_pairs.
  induction dest as [|d dest IH]; [done |].
  cbn [mbind list_bind]. f_equal.
  - assert (Hd : forall s, s ∈ src -> hold d s = true).
    { intros s Hs. apply Hall; [apply list_elem_of_here | done]. }
    clear IH Hall. induction src as [|s src IHs]; [done |].
    cbn [mbind list_bind]. rewrite Hd by apply list_elem_of_here.
    f_equal. apply IHs. intros s' Hs'. apply Hd. by apply list_elem_of_further.
  - apply IH. intros d' s Hd' Hs. apply Hall; [by apply list_elem_of_further | done].
Qed.

Lemma matched_pairs_none (hold : obj -> obj -> bool) (dest : list obj) :
  matched_pairs hold dest [] = [].
Proof. unfold matched_pairs. induction dest as [|d dest IH]; [done | exact IH]. Qed.

(** A nested comparison of two columns reads both at their bare names. *)
Lemma nested_columns_equal (row : obj) (t1 c1 t2 c2 : string) :
  namespaced row -> has_dot c1 = false -> has_dot c2 = false ->
  doWhere_node (columns_equal t1 c1 t2 c2) row false = Ok (VBool true).
Proof.
  intros Hns H1 H2. unfold columns_equal.
  cbn [doWhere_node]. unfold apply_operator, compare_with.
  cbn [String.eqb Ascii.eqb Bool.eqb orb getVal field_name bare_name expr_column ToString].
  by rewrite !namespaced_absent.
Qed.

Lemma and_of_columns_equal (row : obj) (t1 c1 t2 c2 t3 c3 t4 c4 : string) :
  namespaced row ->
  has_dot c1 = false -> has_dot c2 = false ->
  has_dot c3 = false -> has_dot c4 = false ->
  doWhere (Some (binary_expr "AND" (columns_equal t1 c1 t2 c2)
                                   (columns_equal t3 c3 t4 c4))) row true
  = Ok (VBool true).
Proof.
  intros Hns H1 H2 H3 H4. rewrite doWhere_and. unfold resolve.
  pose proof (nested_columns_equal row t1 c1 t2 c2 Hns H1 H2) as E1.
  pose proof (nested_columns_equal row t3 c3 t4 c4 Hns H3 H4) as E2.
  unfold columns_equal in *. cbn [getVal]. rewrite E1.
  cbn [mbind outcome_bind ToBoolean]. by rewrite E2.
Qed.

(** X4: the operands of AND are evaluated without the namespace.  In a
    SELECT over several tables, where every key of a row has the form
    table.column, a condition [t1.c1 = t2.c2 AND t3.c3 = t4.c4] therefore
    compares absent fields and holds on every row, whatever the rows hold:
    the inner join on such a condition yields every pair of rows.  The
    column names are dot-free and none of those that every object
    inherits. *)
Theorem and_condition_joins_all_pairs (dest src : list obj)
    (t1 c1 t2 c2 t3 c3 t4 c4 : string) :
  Forall namespaced dest -> Forall namespaced src ->
  has_dot c1 = false -> has_dot c2 = false ->
  has_dot c3 = false -> has_dot c4 = false ->
  forallb (fun c => negb (inherited c)) [c1; c2; c3; c4] = true ->
  (forall row, namespaced row ->
     doWhere (Some (binary_expr "AND" (columns_equal t1 c1 t2 c2)
                                      (columns_equal t3 c3 t4 c4))) row true
     = Ok (VBool true))
  /\ join dest src
       (Some (binary_expr "AND" (columns_equal t1 c1 t2 c2)
                                (columns_equal t3 c3 t4 c4)))
       false false true
     = Ok (all_pairs dest src).
Proof.
  intros Hdest Hsrc H1 H2 H3 H4 _.
  assert (Hrow : forall row, namespaced row ->
            doWhere (Some (binary_expr "AND" (columns_equal t1 c1 t2 c2)
                                             (columns_equal t3 c3 t4 c4))) row true
            = Ok (VBool true))
    by (intros row Hns; by apply and_of_columns_equal).
  split; [exact Hrow |].
  assert (Hpair : forall d s, d ∈ dest -> s ∈ src ->
            doWhere (Some (binary_expr "AND" (columns_equal t1 c1 t2 c2)
                                             (columns_equal t3 c3 t4 c4)))
                    (merge_rows d s) true = Ok (VBool true)).
  { intros d s Hd Hs. apply Hrow, merge_rows_namespaced.
    - by apply (proj1 (Forall_forall _ _) Hdest).
    - by apply (proj1 (Forall_forall _ _) Hsrc). }
  rewrite join_spec by (intros d s Hd Hs; eexists; by apply Hpair).
  rewrite !(right_id_L [] (++)). f_equal.
  apply matched_pairs_all. intros d s Hd Hs. unfold on_holds.
  by rewrite Hpair.
Qed.

Lemma and_condition_joins_all_pairs_witness :
  doWhere (Some (binary_expr "AND" (columns_equal "a" "g" "b" "g")
                                   (columns_equal "a" "v" "b" "v")))
          (merge_rows (namespace_row "a" Examples.row_b5)
                      (namespace_row "b" Examples.row_a3)) true
  = Ok (VBool true)
  /\ join [namespace_row "a" Examples.row_a2; namespace_row "a" Examples.row_b5]
          [namespace_row "b" Examples.row_a3]
          (Some (binary_expr "AND" (columns_equal "a" "g" "b" "g")
                                   (columns_equal "a" "v" "b" "v")))
          false false true
     = Ok (all_pairs
             [namespace_row "a" Examples.row_a2; namespace_row "a" Examples.row_b5]
             [namespace_row "b" Examples.row_a3]).
Proof.
  destruct (and_condition_joins_all_pairs
              [namespace_row "a" Examples.row_a2; namespace_row "a" Examples.row_b5]
              [namespace_row "b" Examples.row_a3] "a" "g" "b" "g" "a" "v" "b" "v")
    as [Hall Hjoin]; try reflexivity.
  - repeat constructor; apply namespace_row_namespaced.
  - repeat constructor; apply namespace_row_namespaced.
  - split; [| exact Hjoin].
    apply Hall. apply merge_rows_namespaced; apply namespace_row_namespaced.
Defined.

(** ** Edge cases of the join *)

Lemma unmatched_dest_all (hold : obj -> obj -> bool) (dest : list obj) :
  unmatched_dest hold dest [] = dest.
Proof.
  unfold unmatched_dest. induction dest as [|d dest IH]; [done |].
  simpl. f_equal. exact IH.
Qed.

Lemma unmatched_src_all (hold : obj -> obj -> bool) (src : list obj) :
  unmatched_src hold [] src = src.
Proof.
  unfold unmatched_src. induction src as [|s src IH]; [done |].
  simpl. f_equal. exact IH.
Qed.

(** X5: a join with an empty side never evaluates the predicate and never
    fails: with no src rows the result is the dest rows as they are when
    [includeAllDest] is set (LEFT, FULL) and empty otherwise; with no dest
    rows it is the src rows when [includeAllSrc] is set (RIGHT, FULL) and
    empty otherwise. *)
Theorem join_with_empty_side (rows : list obj) (query : option expr)
    (includeAllDest includeAllSrc namespace : bool) :
  join rows [] query includeAllDest includeAllSrc namespace
  = Ok (if includeAllDest then rows else [])
  /\ join [] rows query includeAllDest includeAllSrc namespace
     = Ok (if includeAllSrc then rows else []).
Proof.
  split.
  - rewrite join_spec by (intros d s _ Hs; inversion Hs).
    rewrite matched_pairs_none, unmatched_dest_all.
    unfold unmatched_src. simpl.
    destruct includeAllDest, includeAllSrc; by rewrite ?(right_id_L [] (++)).
  - rewrite join_spec by (intros d s Hd; inversion Hd).
    rewrite unmatched_src_all. unfold matched_pairs, unmatched_dest. simpl.
    by destruct includeAllDest, includeAllSrc.
Qed.

(** X6: without an ON predicate the inner join is the product of the two
    row lists: every dest row merged with every src row, in the order of
    the nested loop. *)
Theorem join_without_predicate (dest src : list obj) (namespace : bool) :
  join dest src None false false namespace = Ok (all_pairs dest src)
  /\ length (all_pairs dest src) = (length dest * length src)%nat.
Proof.
  split.
  - rewrite join_spec by (intros d s _ _; by eexists).
    rewrite !(right_id_L [] (++)). reflexivity.
  - unfold all_pairs. induction dest as [|d dest IH]; [done |].
    cbn [mbind list_bind]. rewrite length_app, IH. simpl. f_equal.
    clear IH. induction src as [|s src IHs]; [done |].
    cbn [mbind list_bind]. simpl. by rewrite IHs.
Qed.

Lemma elem_of_matched_pairs (hold : obj -> obj -> bool) (dest src : list obj)
    (r : obj) :
  r ∈ matched_pairs hold dest src
  <-> exists d s, d ∈ dest /\ s ∈ src /\ hold d s = true /\ r = merge_rows d s.
Proof.
  unfold matched_pairs. rewrite list_elem_of_bind. split.
  - intros (d & Hr & Hd). apply list_elem_of_bind in Hr as (s & Hr & Hs).
    destruct (hold d s) eqn:Hh; [| inversion Hr].
    apply list_elem_of_singleton in Hr. eauto 10.
  - intros (d & s & Hd & Hs & Hh & ->). exists d. split; [| done].
    apply list_elem_of_bind. exists s. split; [| done].
    rewrite Hh. apply list_elem_of_here.
Qed.

(** X7: where the ON predicate evaluates on every pair, every row of an
    inner join is the merge of a dest row and a src row on which the
    predicate holds, and a left join loses no dest row: each one is in the
    result, either merged with a src row on which the predicate holds or
    as it is. *)
Theorem join_rows_accounted_for (dest src : list obj) (query : option expr)
    (namespace : bool) :
  (forall d s, d ∈ dest -> s ∈ src ->
     exists v, doWhere query (merge_rows d s) namespace = Ok v) ->
  (exists rows, join dest src query false false namespace = Ok rows
     /\ forall r, r ∈ rows <->
          exists d s, d ∈ dest /\ s ∈ src
                      /\ on_holds query namespace d s = true
                      /\ r = merge_rows d s)
  /\ (exists rows, join dest src query true false namespace = Ok rows
        /\ forall d, d ∈ dest ->
             d ∈ rows
             \/ exists s, s ∈ src /\ on_holds query namespace d s = true
                          /\ merge_rows d s ∈ rows).
Proof.
  intros Hev. split.
  - exists (matched_pairs (on_holds query namespace) dest src). split.
    { rewrite join_spec by done. by rewrite !(right_id_L [] (++)). }
    intros r. apply elem_of_matched_pairs.
  - exists (matched_pairs (on_holds query namespace) dest src
            ++ unmatched_dest (on_holds query namespace) dest src). split.
    { rewrite join_spec by done. by rewrite !(right_id_L [] (++)). }
    intros d Hd.
    destruct (existsb (on_holds query namespace d) src) eqn:Hex.
    + right. apply existsb_exists in Hex as (s & Hs & Hh).
      apply list_elem_of_In in Hs. exists s. split; [done |]. split; [done |].
      apply elem_of_app. left. apply elem_of_matched_pairs. eauto 10.
    + left. apply elem_of_app. right. unfold unmatched_dest.
      apply list_elem_of_In, filter_In. split; [by apply list_elem_of_In |].
      by rewrite Hex.
Qed.

Lemma join_rows_accounted_for_witness :
  (exists rows,
     join [Examples.dest1; Examples.dest2] [Examples.src1] Examples.on_ids
          false false true = Ok rows
     /\ forall r, r ∈ rows <->
          exists d s, d ∈ [Examples.dest1; Examples.dest2] /\ s ∈ [Examples.src1]
                      /\ on_holds Examples.on_ids true d s = true
                      /\ r = merge_rows d s)
  /\ (exists rows,
        join [Examples.dest1; Examples.dest2] [Examples.src1] Examples.on_ids
             true false true = Ok rows
        /\ forall d, d ∈ [Examples.dest1; Examples.dest2] ->
             d ∈ rows
             \/ exists s, s ∈ [Examples.src1]
                          /\ on_holds Examples.on_ids true d s = true
                          /\ merge_rows d s ∈ rows).
Proof.
  apply (join_rows_accounted_for [Examples.dest1; Examples.dest2]
           [Examples.src1] Examples.on_ids true).
  intros d s Hd Hs.
  apply list_elem_of_singleton in Hs as ->.
  apply elem_of_cons in Hd as [-> | Hd];
    [| apply list_elem_of_singleton in Hd as ->];
    eexists; vm_compute; reflexivity.
Defined.

(** ** The projector *)

Lemma flat_column_insert (namespace : bool) (r result : obj) (c : column) :
  flat_column namespace r result c
  = <[flat_name namespace c
      := or_null (get_prop r (field_name namespace (c_expr c)))]> result.
Proof.
  unfold flat_column, flat_name, or_null, set_prop, get_prop.
  rewrite lookup_insert_eq. simpl.
  destruct (strict_equal _ VUndefined); [by rewrite insert_insert_eq | done].
Qed.

Lemma or_null_defined (v : value) : or_null v ≠ VUndefined.
Proof. by destruct v. Qed.

Lemma flat_fold_lookup (namespace : bool) (r : obj) (cols : list column)
    (result : obj) (k : string) :
  fold_left (flat_column namespace r) cols result !! k
  = match last (List.filter (fun c => String.eqb (flat_name namespace c) k) cols) with
    | Some c => Some (or_null (get_prop r (field_name namespace (c_expr c))))
    | None => result !! k
    end.
Proof.
  revert result. induction cols as [|c cols IH]; intros result; [done |].
  cbn [fold_left]. rewrite IH, flat_column_insert. cbn [List.filter].
  destruct (String.eqb_spec (flat_name namespace c) k) as [<- | Hne].
  - rewrite last_cons. destruct (last _); [done |]. by rewrite lookup_insert_eq.
  - destruct (last _); [done |]. by rewrite lookup_insert_ne.
Qed.

(** X8: in flat mode [chooseFields] appends one row to the result, for
    columns that read no name that every object inherits and write no
    key [__proto__].  Its keys are the aliases, or the source names, of the
    listed columns and no others; none of its values is undefined, a field
    that the source row lacks being null; and a column whose key no later
    column writes carries the value of its field. *)
Theorem flat_projection (sqlobj : select) (cols : list column)
    (data : list obj) (r : obj) (namespace : bool) :
  s_columns sqlobj = Columns cols -> existsb is_aggr_func cols = false ->
  forallb (plain_column namespace) cols = true ->
  exists out,
    chooseFields sqlobj data r namespace = data ++ [out]
    /\ (forall k, is_Some (out !! k) <-> k ∈ flat_name namespace <$> cols)
    /\ (forall k, out !! k ≠ Some VUndefined)
    /\ (forall before c after, cols = before ++ c :: after ->
          flat_name namespace c ∉ flat_name namespace <$> after ->
          out !! flat_name namespace c
          = Some (or_null (get_prop r (field_name namespace (c_expr c))))).
Proof.
  intros Hcols Hflat _.
  exists (fold_left (flat_column namespace r) cols ∅).
  split; [| split; [| split]].
  - unfold chooseFields. by rewrite Hcols, Hflat.
  - intros k. rewrite flat_fold_lookup.
    destruct (last _) as [c|] eqn:Hlast.
    + split; [intros _ | by eauto].
      apply last_Some in Hlast as [l' Hl'].
      assert (Hin : In c (List.filter (fun c => String.eqb (flat_name namespace c) k) cols)).
      { rewrite Hl'. apply in_or_app. right. by left. }
      apply filter_In in Hin as [Hin Heq]. apply String.eqb_eq in Heq as <-.
      apply list_elem_of_fmap_2. by apply list_elem_of_In.
    + rewrite lookup_empty. split; [by intros [? ?] |].
      intros Hk. apply list_elem_of_fmap in Hk as (c & -> & Hc).
      apply last_None in Hlast.
      assert (Hin : In c (List.filter (fun c' => String.eqb (flat_name namespace c')
                                                   (flat_name namespace c)) cols)).
      { apply filter_In. split; [by apply list_elem_of_In | apply String.eqb_refl]. }
      rewrite Hlast in Hin. inversion Hin.
  - intros k. rewrite flat_fold_lookup. destruct (last _).
    + intros [= H]. by apply or_null_defined in H.
    + by rewrite lookup_empty.
  - intros before c after -> Hlater. rewrite flat_fold_lookup.
    rewrite List.filter_app. cbn [List.filter]. rewrite String.eqb_refl.
    assert (Hnone : List.filter (fun c' => String.eqb (flat_name namespace c')
                                              (flat_name namespace c)) after = []).
    { clear -Hlater. induction after as [|a after IH]; [done |].
      cbn [List.filter]. rewrite fmap_cons in Hlater.
      apply not_elem_of_cons in Hlater as [Hne Hlater].
      destruct (String.eqb_spec (flat_name namespace a) (flat_name namespace c));
        [congruence | by apply IH]. }
    rewrite Hnone. by rewrite last_snoc.
Qed.

Lemma flat_projection_witness :
  exists out,
    chooseFields Cases.select_two_columns [] Examples.row_a2 false = [] ++ [out]
    /\ (forall k, is_Some (out !! k) <-> k ∈ flat_name false <$> Cases.two_columns)
    /\ (forall k, out !! k ≠ Some VUndefined)
    /\ out !! "group" = Some (VStr "a")
    /\ out !! "w" = Some VNull.
Proof.
  destruct (flat_projection Cases.select_two_columns Cases.two_columns []
              Examples.row_a2 false eq_refl eq_refl eq_refl)
    as (out & Hout & Hkeys & Hdefined & Hvalue).
  exists out. split; [exact Hout |]. split; [exact Hkeys |].
  split; [exact Hdefined |]. split.
  - apply (Hvalue [] {| c_expr := Examples.col "g"; c_as := Some "group" |}
             [{| c_expr := Examples.col "w"; c_as := None |}] eq_refl).
    vm_compute. intros Hin. apply list_elem_of_singleton in Hin. discriminate.
  - apply (Hvalue [{| c_expr := Examples.col "g"; c_as := Some "group" |}]
             {| c_expr := Examples.col "w"; c_as := None |} [] eq_refl).
    vm_compute. intros Hin. inversion Hin.
Defined.

Lemma chooseFields_star_fold (sqlobj : select) (rows data : list obj)
    (namespace : bool) :
  s_columns sqlobj = Star ->
  fold_left (fun result r => chooseFields sqlobj result r namespace) rows data
  = data ++ rows.
Proof.
  intros Hstar. revert data. induction rows as [|r rows IH]; intros data.
  - by rewrite (right_id_L [] (++)).
  - cbn [fold_left]. rewrite IH. unfold chooseFields. rewrite Hstar.
    by rewrite <- (assoc_L (++)).
Qed.

Lemma filter_where_spec (where_ : option expr) (namespace : bool) (rows : list obj) :
  (forall r, r ∈ rows -> exists v, doWhere where_ r namespace = Ok v) ->
  filter_where where_ namespace rows
  = Ok (List.filter (where_holds where_ namespace) rows).
Proof.
  induction rows as [|r rows IH]; intros Hev; [done |].
  cbn [filter_where List.filter]. unfold where_holds at 1.
  destruct (Hev r) as [v Hv]; [apply list_elem_of_here |]. rewrite Hv.
  cbn [mbind outcome_bind]. rewrite IH.
  - cbn [mbind outcome_bind]. by destruct (ToBoolean v).
  - intros r' Hr'. apply Hev. by apply list_elem_of_further.
Qed.

(** X9: SELECT * FROM t WHERE w, with no ORDER BY and no LIMIT, on a
    backend that is ready and loads the table: when the WHERE clause
    evaluates on every row, the caller receives exactly the loaded rows on
    which it holds, unchanged and in the order of the snapshot, and the
    only backend calls are [ready] and the [load] of t. *)
Theorem select_star_returns_filtered_rows (b : backend) (sqlobj : select)
    (from : from_item) (table : snapshot) (t0 t1 : nat) (v : value) :
  s_columns sqlobj = Star -> s_from sqlobj = [from] ->
  s_orderby sqlobj = None -> s_limit sqlobj = None ->
  ready b = Fulfilled t0 v -> load b (f_table from) = Fulfilled t1 table ->
  (forall r, r ∈ table.*2 -> exists x, doWhere (s_where sqlobj) r false = Ok x) ->
  execute b (Select sqlobj)
  = {| calls := [CallReady; CallLoad (f_table from)];
       settles := Fulfilled (Nat.max t0 t1)
                    (Rows (List.filter (where_holds (s_where sqlobj) false)
                                       (table.*2))) |}.
Proof.
  intros Hstar Hfrom Horder Hlimit Hready Hload Hev.
  unfold execute, runSQL. rewrite Hready.
  unfold dispatch, map_run, doSelect, doSelect_chain.
  rewrite Hfrom. cbn [fmap list_fmap length Nat.ltb Nat.leb calls settles].
  rewrite Hload. cbn [Promise_all first_rejection fold_left earlier_rejection
                      all_fulfilled mbind option_bind then_].
  unfold select_rows. rewrite Hfrom, Horder, Hlimit.
  cbn [zip_with load_table l_rows fold_joins mbind outcome_bind].
  rewrite filter_where_spec by done. cbn [mbind outcome_bind].
  rewrite (chooseFields_star_fold sqlobj _ [] false Hstar).
  cbn [apply_limit not_before app]. by rewrite Nat.max_0_r.
Qed.

Lemma select_star_returns_filtered_rows_witness :
  execute (Examples.serving Examples.three_rows) (Select MoreCases.select_above_2)
  = {| calls := [CallReady; CallLoad "t"];
       settles := Fulfilled 1
                    (Rows (List.filter (where_holds (Some MoreCases.v_above_2) false)
                             ((Examples.three_rows "t").*2))) |}.
Proof.
  apply (select_star_returns_filtered_rows
           (Examples.serving Examples.three_rows) MoreCases.select_above_2
           (Examples.from1 "t") (Examples.three_rows "t") 0 1 (VBool true)
           eq_refl eq_refl eq_refl eq_refl eq_refl eq_refl).
  intros r Hr. unfold Examples.three_rows in Hr. simpl in Hr.
  repeat (apply elem_of_cons in Hr as [-> | Hr];
          [eexists; vm_compute; reflexivity |]).
  inversion Hr.
Defined.

(** ** Aggregates without GROUP BY *)

Section SingleAggregate.
Variable sqlobj : select.
Variables (fname : string) (args : expr) (alias : option string).
Hypothesis Hcols :
  s_columns sqlobj = Columns [{| c_expr := aggr_func fname args; c_as := alias |}].
Hypothesis Hgroup : s_groupby sqlobj = None.

Local Abbreviation name :=
  (as_or alias (toUpperCase fname +:+ "(" +:+ bare_name args +:+ ")")).

Lemma count_first (r : obj) (namespace : bool) :
  toUpperCase fname = "COUNT" ->
  chooseFields sqlobj [] r namespace = [{[name := VNum (Int 1)]}].
Proof.
  intros Hf. unfold chooseFields, groupby. rewrite Hcols, Hgroup.
  cbn. rewrite Hf. cbn. unfold init_zero, get_prop, set_prop.
  rewrite lookup_empty. cbn. rewrite lookup_insert_eq. cbn.
  by rewrite insert_insert_eq, insert_empty.
Qed.

Lemma count_next (k : Z) (r : obj) (namespace : bool) :
  toUpperCase fname = "COUNT" ->
  chooseFields sqlobj [{[name := VNum (Int k)]}] r namespace
  = [{[name := VNum (Int (k + 1))]}].
Proof.
  intros Hf. unfold chooseFields, groupby. rewrite Hcols, Hgroup.
  cbn. rewrite Hf. cbn. unfold init_zero, get_prop, set_prop.
  rewrite lookup_singleton_eq. cbn. rewrite lookup_singleton_eq. cbn.
  by rewrite insert_singleton_eq.
Qed.

Lemma count_fold (rows : list obj) (k : Z) (namespace : bool) :
  toUpperCase fname = "COUNT" ->
  fold_left (fun result r => chooseFields sqlobj result r namespace) rows
            [{[name := VNum (Int k)]}]
  = [{[name := VNum (Int (k + Z.of_nat (length rows)))]}].
Proof.
  intros Hf. revert k. induction rows as [|r rows IH]; intros k.
  - simpl. by rewrite Z.add_0_r.
  - cbn [fold_left]. rewrite count_next by done. rewrite IH.
    do 4 f_equal. rewrite length_cons. lia.
Qed.

Lemma sum_first (r : obj) (z : Z) (namespace : bool) :
  toUpperCase fname = "SUM" -> has_int (bare_name args) r z ->
  chooseFields sqlobj [] r namespace = [{[name := VNum (Int z)]}].
Proof.
  intros Hf Hz. unfold chooseFields, groupby. rewrite Hcols, Hgroup.
  cbn. rewrite Hf. cbn. unfold init_zero, get_prop, set_prop.
  rewrite lookup_empty. cbn. rewrite lookup_insert_eq, Hz. cbn.
  by rewrite insert_insert_eq, insert_empty.
Qed.

Lemma sum_next (k : Z) (r : obj) (z : Z) (namespace : bool) :
  toUpperCase fname = "SUM" -> has_int (bare_name args) r z ->
  chooseFields sqlobj [{[name := VNum (Int k)]}] r namespace
  = [{[name := VNum (Int (k + z))]}].
Proof.
  intros Hf Hz. unfold chooseFields, groupby. rewrite Hcols, Hgroup.
  cbn. rewrite Hf. cbn. unfold init_zero, get_prop, set_prop.
  rewrite lookup_singleton_eq. cbn. rewrite lookup_singleton_eq, Hz. cbn.
  by rewrite insert_singleton_eq.
Qed.

Lemma sum_fold (rows : list obj) (zs : list Z) (k : Z) (namespace : bool) :
  toUpperCase fname = "SUM" -> Forall2 (has_int (bare_name args)) rows zs ->
  fold_left (fun result r => chooseFields sqlobj result r namespace) rows
            [{[name := VNum (Int k)]}]
  = [{[name := VNum (Int (k + sum_Z zs))]}].
Proof.
  intros Hf Hrows. revert k.
  induction Hrows as [|r z rows zs Hz _ IH]; intros k.
  - simpl. by rewrite Z.add_0_r.
  - cbn [fold_left]. rewrite (sum_next k r z) by done. rewrite IH.
    do 4 f_equal. unfold sum_Z. simpl. lia.
Qed.
End SingleAggregate.

(** X10: SELECT COUNT(c) without GROUP BY counts the rows it is given,
    whatever they hold: one result row with the number of rows under the
    alias, or under COUNT(c) when there is none (a key that is none of
    those that every object inherits).  Given no row at all it returns no
    row, not a count of 0. *)
Theorem count_counts_rows (sqlobj : select) (fname : string) (args : expr)
    (alias : option string) (rows : list obj) (namespace : bool) :
  s_columns sqlobj = Columns [{| c_expr := aggr_func fname args; c_as := alias |}] ->
  s_groupby sqlobj = None ->
  toUpperCase fname = "COUNT" ->
  inherited (as_or alias ("COUNT(" +:+ bare_name args +:+ ")")) = false ->
  fold_left (fun result r => chooseFields sqlobj result r namespace) rows []
  = match rows with
    | [] => []
    | _ :: _ =>
        [{[as_or alias ("COUNT(" +:+ bare_name args +:+ ")")
           := VNum (Int (Z.of_nat (length rows)))]}]
    end.
Proof.
  intros Hcols Hgroup Hf _. destruct rows as [|r rows]; [done |].
  cbn [fold_left].
  rewrite (count_first sqlobj fname args alias Hcols Hgroup) by done.
  rewrite (count_fold sqlobj fname args alias Hcols Hgroup) by done.
  rewrite Hf. do 4 f_equal. rewrite length_cons. lia.
Qed.

Lemma count_counts_rows_witness :
  fold_left (fun result r => chooseFields Cases.count_v result r false) Cases.three []
  = [{["COUNT(v)" := VNum (Int 3)]}].
Proof.
  exact (count_counts_rows Cases.count_v "count" (Examples.col "v") None
           Cases.three false eq_refl eq_refl eq_refl eq_refl).
Defined.

(** X11: SELECT SUM(c) without GROUP BY over rows whose field c holds an
    integer returns one row with the sum of these integers, under the alias
    or under SUM(c) (a key that is none of those that every object
    inherits); given no row it returns no row.  The integers and the sums
    of the first n of them, for every n, lie between -2^53 and 2^53, where
    the addition of numbers is exact. *)
Theorem sum_adds_integers (sqlobj : select) (fname : string) (args : expr)
    (alias : option string) (rows : list obj) (zs : list Z) (namespace : bool) :
  s_columns sqlobj = Columns [{| c_expr := aggr_func fname args; c_as := alias |}] ->
  s_groupby sqlobj = None ->
  toUpperCase fname = "SUM" ->
  inherited (as_or alias ("SUM(" +:+ bare_name args +:+ ")")) = false ->
  Forall2 (has_int (bare_name args)) rows zs ->
  Forall exact_integer zs ->
  (forall n, exact_integer (sum_Z (take n zs))) ->
  fold_left (fun result r => chooseFields sqlobj result r namespace) rows []
  = match rows with
    | [] => []
    | _ :: _ =>
        [{[as_or alias ("SUM(" +:+ bare_name args +:+ ")")
           := VNum (Int (sum_Z zs))]}]
    end.
Proof.
  intros Hcols Hgroup Hf _ Hrows _ _. destruct Hrows as [|r z rows zs Hz Hrows]; [done |].
  cbn [fold_left].
  rewrite (sum_first sqlobj fname args alias Hcols Hgroup r z) by done.
  rewrite (sum_fold sqlobj fname args alias Hcols Hgroup rows zs) by done.
  by rewrite Hf.
Qed.

Lemma sum_adds_integers_witness :
  fold_left (fun result r => chooseFields Cases.sum_v result r false) Cases.three []
  = [{["total" := VNum (Int (sum_Z [2; 3; 5]))]}].
Proof.
  apply (sum_adds_integers Cases.sum_v "Sum" (Examples.col "v") (Some "total")
           Cases.three [2; 3; 5] false eq_refl eq_refl eq_refl eq_refl).
  - repeat constructor.
  - repeat (constructor; [split; discriminate |]). constructor.
  - intros [|[|[|n]]];
      [| | | change (take (S (S (S n))) [2; 3; 5]) with (2 :: 3 :: 5 :: take n []);
             rewrite take_nil];
      split; vm_compute; discriminate.
Defined.

(** ** GROUP BY a column that the statement does not select *)

Lemma findIndex_none_intro {A} (p : A -> bool) (data : list A) :
  (forall x, x ∈ data -> p x = false) -> findIndex p data = None.
Proof.
  induction data as [|x data IH]; intros Hp; [done |].
  simpl. rewrite Hp by apply list_elem_of_here.
  rewrite IH; [done |]. intros y Hy. apply Hp. by apply list_elem_of_further.
Qed.

Lemma get_prop_set_other (o : obj) (k k' : string) (v : value) :
  k ≠ k' -> get_prop (set_prop o k v) k' = get_prop o k'.
Proof. intros Hne. unfold get_prop, set_prop. by rewrite lookup_insert_ne. Qed.

Lemma init_zero_other (o : obj) (k k' : string) :
  k ≠ k' -> get_prop (init_zero k o) k' = get_prop o k'.
Proof.
  intros Hne. unfold init_zero. destruct (strict_equal _ _); [| done].
  by apply get_prop_set_other.
Qed.

(** A column writes the group row at its own key only. *)
Lemma aggregate_column_keeps (gname : string) (index : nat) (r : obj)
    (data : list obj) (c : column) :
  written_name c ≠ Some gname ->
  Forall (fun drow => get_prop drow gname = VUndefined) data ->
  Forall (fun drow => get_prop drow gname = VUndefined)
         (aggregate_column index r data c).
Proof.
  intros Hname Hdata. unfold aggregate_column, written_name in *.
  destruct (c_expr c) as [t col|op l rr|fname args|v]; try done.
  - apply Forall_alter; [done |]. intros o _ Ho.
    rewrite get_prop_set_other; [done | congruence].
  - destruct (String.eqb (toUpperCase fname) "SUM") eqn:Hsum.
    + apply Forall_alter; [done |]. intros o _ Ho.
      cbn [orb] in Hname.
      rewrite get_prop_set_other, init_zero_other; [done | congruence..].
    + destruct (String.eqb (toUpperCase fname) "COUNT") eqn:Hcount; [| done].
      apply Forall_alter; [done |]. intros o _ Ho.
      cbn [orb] in Hname.
      rewrite get_prop_set_other, init_zero_other; [done | congruence..].
Qed.

Lemma aggregate_fold_keeps (gname : string) (index : nat) (r : obj)
    (cols : list column) (data : list obj) :
  (forall c, c ∈ cols -> written_name c ≠ Some gname) ->
  Forall (fun drow => get_prop drow gname = VUndefined) data ->
  Forall (fun drow => get_prop drow gname = VUndefined)
         (fold_left (aggregate_column index r) cols data).
Proof.
  revert data. induction cols as [|c cols IH]; intros data Hnames Hdata; [done |].
  cbn [fold_left]. apply IH.
  - intros c' Hc'. apply Hnames. by apply list_elem_of_further.
  - apply aggregate_column_keeps; [| done]. apply Hnames, list_elem_of_here.
Qed.

Lemma same_group_unselected (groups : list expr) (g : expr) (r drow : obj) :
  g ∈ groups ->
  get_prop drow (bare_name g) = VUndefined ->
  loose_equal VUndefined (get_prop r (bare_name g)) = false ->
  same_group groups r drow = false.
Proof.
  intros Hg Hdrow Hr. unfold same_group.
  destruct (forallb _ groups) eqn:Hall; [| done].
  rewrite forallb_forall in Hall.
  specialize (Hall g (proj1 (list_elem_of_In _ _) Hg)).
  by rewrite Hdrow, Hr in Hall.
Qed.

(** X12: the scan for the group of a row compares the row with the result
    rows built so far, at the names of the GROUP BY columns.  When a GROUP
    BY column is written to the result by no column of the statement (it
    is not selected, or selected under an alias), and the rows hold a value
    other than null for it, no row ever finds its group: the result has as
    many rows as the input, one per row, also for rows with the same
    value. *)
Theorem group_by_unselected_column (sqlobj : select) (cols : list column)
    (groups : list expr) (g : expr) (rows : list obj) (namespace : bool) :
  s_columns sqlobj = Columns cols -> existsb is_aggr_func cols = true ->
  s_groupby sqlobj = Some groups -> g ∈ groups ->
  (forall c, c ∈ cols -> written_name c ≠ Some (bare_name g)) ->
  (forall r, r ∈ rows -> loose_equal VUndefined (get_prop r (bare_name g)) = false) ->
  length (fold_left (fun result r => chooseFields sqlobj result r namespace) rows [])
  = length rows.
Proof.
  intros Hcols Hagg Hgroups Hg Hnames Hrows.
  assert (Hgen : forall data,
            Forall (fun drow => get_prop drow (bare_name g) = VUndefined) data ->
            length (fold_left (fun result r => chooseFields sqlobj result r namespace)
                              rows data)
            = (length data + length rows)%nat).
  { induction rows as [|r rows IH]; intros data Hdata; [simpl; lia |].
    cbn [fold_left].
    assert (Hnew : groupby sqlobj data r = (data ++ [∅], length data)).
    { unfold groupby. rewrite Hgroups. rewrite findIndex_none_intro; [done |].
      intros drow Hdrow. apply (same_group_unselected groups g); [done | |].
      - by apply (proj1 (Forall_forall _ _) Hdata).
      - apply Hrows, list_elem_of_here. }
    rewrite (chooseFields_aggregate sqlobj cols) by done. rewrite Hnew. cbn [fst snd].
    rewrite IH.
    - rewrite aggregate_fold_length, length_app. simpl. lia.
    - intros r' Hr'. apply Hrows. by apply list_elem_of_further.
    - apply aggregate_fold_keeps; [done |].
      apply Forall_app. split; [done |]. by repeat constructor. }
  by rewrite Hgen.
Qed.

Lemma group_by_unselected_column_witness :
  length (fold_left (fun result r => chooseFields Cases.sum_by_unselected_g result r false)
                    Cases.three [])
  = length Cases.three.
Proof.
  apply (group_by_unselected_column Cases.sum_by_unselected_g
           [{| c_expr := aggr_func "SUM" (Examples.col "v"); c_as := Some "s" |}]
           [Examples.col "g"] (Examples.col "g")); try reflexivity.
  - apply list_elem_of_here.
  - intros c Hc. apply list_elem_of_singleton in Hc as ->. discriminate.
  - intros r Hr. unfold Cases.three in Hr.
    repeat (apply elem_of_cons in Hr as [-> | Hr]; [reflexivity |]).
    inversion Hr.
Defined.

(** ** Namespaced rows *)

Lemma append_inj_r (a x y : string) : a +:+ x = a +:+ y -> x = y.
Proof.
  induction a as [|c a IH]; [done |].
  change (String c (a +:+ x) = String c (a +:+ y) -> x = y).
  intros [= H]. by apply IH.
Qed.

Lemma namespace_row_lookup (table : string) (r : obj) (k : string) :
  namespace_row table r !! (table +:+ "." +:+ k) = r !! k.
Proof.
  unfold namespace_row.
  apply (map_fold_weak_ind
           (fun acc (m : obj) => acc !! (table +:+ "." +:+ k) = m !! k)).
  - by rewrite !lookup_empty.
  - intros key v m acc _ IH. unfold set_prop.
    destruct (decide (key = k)) as [-> | Hne].
    + by rewrite !lookup_insert_eq.
    + rewrite !lookup_insert_ne; [done | done |].
      intros Heq. apply append_inj_r in Heq. by apply append_inj_r in Heq.
Qed.

(** X13: namespacing a row loses nothing and mixes nothing up: the field
    of column c (a name that is none of those that every object inherits)
    is found again under table.c, which is where a qualified column
    reference reads it, so that a comparison of the column t.c with a
    literal gives on the namespaced row what the comparison of c gives on
    the row itself. *)
Theorem namespaced_row_round_trip (table : string) (r : obj) (c : string)
    (operator : string) (v : value) (any : option string) :
  inherited c = false ->
  get_prop (namespace_row table r) (qualified_name (column_ref (Some table) c))
  = get_prop r c
  /\ doWhere (Some (binary_expr operator (column_ref (Some table) c) (literal v)))
             (namespace_row table r) true
     = doWhere (Some (binary_expr operator (column_ref any c) (literal v))) r false.
Proof.
  intros _.
  assert (Hget : get_prop (namespace_row table r)
                          (qualified_name (column_ref (Some table) c))
                 = get_prop r c).
  { unfold get_prop. change (qualified_name (column_ref (Some table) c))
      with ((table +:+ ".") +:+ c).
    rewrite append_assoc. by rewrite namespace_row_lookup. }
  split; [exact Hget |].
  cbn [doWhere doWhere_node]. unfold apply_operator, compare_with, and_operands,
    like_operands.
  cbn [getVal field_name]. rewrite Hget.
  change (bare_name (column_ref any c)) with c. reflexivity.
Qed.

Lemma namespaced_row_round_trip_witness :
  get_prop (namespace_row "t" Examples.row_a2)
           (qualified_name (column_ref (Some "t") "v"))
  = get_prop Examples.row_a2 "v"
  /\ doWhere (Some (binary_expr ">" (column_ref (Some "t") "v")
                                (literal (Examples.num 1))))
             (namespace_row "t" Examples.row_a2) true
     = doWhere (Some (binary_expr ">" (column_ref None "v")
                                  (literal (Examples.num 1))))
               Examples.row_a2 false.
Proof.
  exact (namespaced_row_round_trip "t" Examples.row_a2 "v" ">"
           (Examples.num 1) None eq_refl).
Defined.

(** ** ORDER BY on columns *)

Lemma string_ltb_asym (a b : string) : String.ltb a b = true -> String.ltb b a = false.
Proof.
  unfold String.ltb. rewrite (String.compare_antisym a b).
  by destruct (String.compare b a).
Qed.

Lemma is_less_than_asym (x y : value) :
  is_less_than x y = Some true -> is_less_than y x ≠ Some true.
Proof.
  unfold is_less_than.
  destruct x as [| |bx|nx|sx], y as [| |by_|ny|sy]; simpl;
    try discriminate;
    try (intros [= H]; apply string_ltb_asym in H; congruence);
    unfold num_lt;
    repeat match goal with
           | |- context [StringToNumber ?s] => destruct (StringToNumber s)
           | n : number |- _ => destruct n
           | b : bool |- _ => destruct b
           end; simpl; try discriminate; intros [= H] [= H']; lia.
Qed.

Lemma greater_or_less (x y : value) :
  js_gt x y = true -> js_lt x y = false.
Proof.
  unfold js_gt, js_lt. intros H%bool_decide_eq_true.
  apply bool_decide_eq_false. by apply is_less_than_asym.
Qed.

Lemma order_compare_columns (namespace : bool) (orderby : list orderer) (a b : obj) :
  forallb (fun o => is_column_ref (o_expr o)) orderby = true ->
  exists c, order_compare namespace orderby a b = Ok c
            /\ order_compare namespace orderby b a = Ok (- c)
            /\ -1 <= c <= 1.
Proof.
  induction orderby as [|o orderby IH]; intros Hcols.
  - exists 0. done.
  - cbn [forallb] in Hcols. apply andb_prop in Hcols as [Ho Hcols].
    destruct (IH Hcols) as (c & Hab & Hba & Hc).
    cbn [order_compare].
    assert (Hty : negb (String.eqb (expr_type (o_expr o)) "column_ref") = false)
      by (by destruct (o_expr o)).
    rewrite Hty.
    set (x := get_prop a (field_name namespace (o_expr o))).
    set (y := get_prop b (field_name namespace (o_expr o))).
    change (js_gt y x) with (js_lt x y). change (js_lt y x) with (js_gt x y).
    destruct (js_gt x y) eqn:Hgt.
    + rewrite (greater_or_less x y Hgt).
      destruct (String.eqb (o_type o) "ASC"); eexists; split; [done | split; [done | lia]
                                                              | done | split; [done | lia]].
    + destruct (js_lt x y) eqn:Hlt.
      * destruct (String.eqb (o_type o) "ASC"); eexists;
          split; [done | split; [done | lia] | done | split; [done | lia]].
      * exists c. done.
Qed.

Lemma sort_insert_permutation {A} (cmp : A -> A -> outcome Z) (x : A) (sorted : list A) :
  (forall a b, exists c, cmp a b = Ok c) ->
  exists l, sort_insert cmp x sorted = Ok l /\ l ≡ₚ x :: sorted.
Proof.
  intros Htotal. induction sorted as [|y sorted IH]; [by eexists |].
  cbn [sort_insert]. destruct (Htotal y x) as [c ->]. cbn [mbind outcome_bind].
  destruct (Z.ltb 0 c); [by eexists |].
  destruct IH as (l & -> & Hl). cbn [mbind outcome_bind].
  eexists. split; [done |]. rewrite Hl. apply Permutation_swap.
Qed.

Lemma sort_permutation {A} (cmp : A -> A -> outcome Z) (rows : list A) :
  (forall a b, exists c, cmp a b = Ok c) ->
  exists sorted, sort cmp rows = Ok sorted /\ sorted ≡ₚ rows.
Proof.
  intros Htotal. unfold sort.
  assert (Hgen : forall acc, exists sorted,
            fold_left (fun sorted x => sorted ← sorted; sort_insert cmp x sorted)
                      rows (Ok acc) = Ok sorted
            /\ sorted ≡ₚ acc ++ rows).
  { induction rows as [|x rows IH]; intros acc.
    - exists acc. by rewrite (right_id_L [] (++)).
    - cbn [fold_left mbind outcome_bind].
      destruct (sort_insert_permutation cmp x acc Htotal) as (l & -> & Hl).
      destruct (IH l) as (sorted & -> & Hs). exists sorted. split; [done |].
      rewrite Hs, Hl. simpl. apply Permutation_middle. }
  destruct (Hgen []) as (sorted & Hs & Hp). by exists sorted.
Qed.

(** X14: when every ORDER BY key is a column reference the comparator
    never throws, answers -1, 0 or 1, and answers the opposite when the
    two rows are exchanged; the sort then succeeds and returns the rows it
    was given, each as often as it came, in some order. *)
Theorem order_by_columns (namespace : bool) (orderby : list orderer) :
  forallb (fun o => is_column_ref (o_expr o)) orderby = true ->
  (forall a b, exists c,
     order_compare namespace orderby a b = Ok c
     /\ order_compare namespace orderby b a = Ok (- c)
     /\ -1 <= c <= 1)
  /\ forall rows, exists sorted,
       sort (order_compare namespace orderby) rows = Ok sorted /\ sorted ≡ₚ rows.
Proof.
  intros Hcols. split.
  - intros a b. by apply order_compare_columns.
  - intros rows. apply sort_permutation. intros a b.
    destruct (order_compare_columns namespace orderby a b Hcols) as (c & Hc & _).
    eauto.
Qed.

Lemma order_by_columns_witness :
  (forall a b, exists c,
     order_compare false [{| o_expr := Examples.col "v"; o_type := "DESC" |}] a b
     = Ok c
     /\ order_compare false [{| o_expr := Examples.col "v"; o_type := "DESC" |}] b a
        = Ok (- c)
     /\ -1 <= c <= 1)
  /\ forall rows, exists sorted,
       sort (order_compare false [{| o_expr := Examples.col "v"; o_type := "DESC" |}])
            rows = Ok sorted
       /\ sorted ≡ₚ rows.
Proof.
  exact (order_by_columns false
           [{| o_expr := Examples.col "v"; o_type := "DESC" |}] eq_refl).
Defined.

(** ** INSERT *)

Lemma Promise_all_fulfilled {A} (ps : list (promise A)) (l : list A) :
  Forall2 (fun p a => exists t, p = Fulfilled t a) ps l ->
  exists t, Promise_all ps = Fulfilled t l.
Proof.
  intros Hall. unfold Promise_all.
  rewrite first_rejection_None.
  - induction Hall as [|p a ps l [t ->] _ IH]; [by eexists |].
    cbn [all_fulfilled]. destruct (all_fulfilled ps) as [[t' l']|]; simpl in *.
    + destruct IH as [t'' [= -> ->]]. by eexists.
    + by destruct IH.
  - intros t e Hin. induction Hall as [|p a ps l [t' ->] _ IH]; [inversion Hin |].
    apply elem_of_cons in Hin as [Hin | Hin]; [discriminate | by apply IH].
Qed.

Lemma insert_row_keys (columns : list string) (n : nat) (tuple : list expr)
    (data : obj) :
  (n + length columns <= length tuple)%nat ->
  exists r, insert_row columns n tuple data = Ok r
            /\ dom r = list_to_set columns ∪ dom data.
Proof.
  revert n data. induction columns as [|c columns IH]; intros n data Hlen.
  - exists data. split; [done |]. simpl. by rewrite (left_id_L ∅ (∪)).
  - cbn [insert_row]. cbn [length] in Hlen.
    destruct (lookup_lt_is_Some_2 tuple n) as [e ->]; [lia |].
    destruct (IH (S n) (set_prop data c (expr_value e))) as (r & -> & Hdom); [lia |].
    exists r. split; [done |]. rewrite Hdom. unfold set_prop.
    rewrite dom_insert_L, list_to_set_cons.
    by rewrite (assoc_L (∪)), (comm_L (∪) (list_to_set columns) {[c]}).
Qed.

Lemma insert_row_short (columns : list string) (n : nat) (tuple : list expr)
    (data : obj) :
  (length tuple < n + length columns)%nat -> (n <= length tuple)%nat ->
  insert_row columns n tuple data = Throw TypeError.
Proof.
  revert n data. induction columns as [|c columns IH]; intros n data Hlen Hn.
  - cbn [length] in Hlen. lia.
  - cbn [insert_row]. cbn [length] in Hlen.
    destruct (tuple !! n) as [e|] eqn:He; [| done].
    apply lookup_lt_Some in He. apply IH; lia.
Qed.

Lemma insert_rows_complete (columns : list string) (values : list (list expr)) :
  Forall (fun tuple => (length columns <= length tuple)%nat) values ->
  exists rows, insert_rows columns values = (rows, None)
               /\ length rows = length values
               /\ Forall (fun r => dom r = list_to_set columns) rows.
Proof.
  induction 1 as [|tuple values Hlen _ (rows & Hrows & Hl & Hdom)]; [by exists [] |].
  cbn [insert_rows].
  destruct (insert_row_keys columns 0 tuple ∅) as (r & -> & Hr); [simpl; lia |].
  rewrite Hrows. exists (r :: rows). split; [done |]. split; [simpl; lia |].
  constructor; [| done]. rewrite Hr. by rewrite dom_empty_L, (right_id_L ∅ (∪)).
Qed.



Lemma insert_rows_app (columns : list string) (before after : list (list expr)) :
  insert_rows columns (before ++ after)
  = match insert_rows columns before with
    | (rows, None) =>
        let '(rows', e) := insert_rows columns after in (rows ++ rows', e)
    | (rows, Some e) => (rows, Some e)
    end.
Proof.
  induction before as [|tuple before IH].
  - simpl. by destruct (insert_rows columns after).
  - cbn [app insert_rows]. destruct (insert_row columns 0 tuple ∅); [| done].
    rewrite IH. destruct (insert_rows columns before) as [rows [e|]]; [done |].
    by destruct (insert_rows columns after).
Qed.

(** X16: an INSERT with a VALUES tuple that is shorter than the column list
    is rejected with a TypeError, but not before the tuples in front of it
    have been handed to [store]: these rows are stored although the
    statement is reported as failed, and the tuples behind are never
    stored. *)
Theorem insert_short_tuple_stores_part (b : backend) (table : string)
    (columns : list string) (before after : list (list expr)) (short : list expr) :
  Forall (fun tuple => (length columns <= length tuple)%nat) before ->
  (length short < length columns)%nat ->
  settles (doInsert b {| i_table := table; i_columns := columns;
                         i_values := before ++ short :: after |})
  = Rejected 0 TypeError
  /\ exists rows,
       calls (doInsert b {| i_table := table; i_columns := columns;
                            i_values := before ++ short :: after |})
       = CallStore table None <$> rows
       /\ length rows = length before.
Proof.
  intros Hbefore Hshort.
  destruct (insert_rows_complete _ _ Hbefore) as (rows & Hrows & Hl & _).
  assert (Hall : insert_rows columns (before ++ short :: after)
                 = (rows, Some TypeError)).
  { rewrite insert_rows_app, Hrows. cbn [insert_rows].
    rewrite insert_row_short by (simpl; lia). by rewrite (right_id_L [] (++)). }
  unfold doInsert. cbn [i_table i_columns i_values]. rewrite Hall.
  split; [done |]. by exists rows.
Qed.

Lemma insert_short_tuple_stores_part_witness :
  settles (doInsert (Examples.serving Examples.one_row)
             {| i_table := "t"; i_columns := ["g"; "v"];
                i_values := [[literal (VStr "a"); literal (Examples.num 1)]]
                            ++ [literal (VStr "b")] :: [] |})
  = Rejected 0 TypeError
  /\ exists rows,
       calls (doInsert (Examples.serving Examples.one_row)
                {| i_table := "t"; i_columns := ["g"; "v"];
                   i_values := [[literal (VStr "a"); literal (Examples.num 1)]]
                               ++ [literal (VStr "b")] :: [] |})
       = CallStore "t" None <$> rows
       /\ length rows = length [[literal (VStr "a"); literal (Examples.num 1)]].
Proof.
  apply (insert_short_tuple_stores_part (Examples.serving Examples.one_row) "t"
           ["g"; "v"] [[literal (VStr "a"); literal (Examples.num 1)]] []
           [literal (VStr "b")]).
  - repeat constructor.
  - simpl. lia.
Defined.

(** ** UPDATE and DELETE *)

Lemma matching_ids_spec (where_ : option expr) (table : snapshot) :
  (forall r, r ∈ table.*2 -> exists v, doWhere where_ r false = Ok v) ->
  matching_ids where_ table
  = ((List.filter (fun p => where_true where_ p.2) table).*1, None).
Proof.
  induction table as [|[row_id r] table IH]; intros Hev; [done |].
  cbn [matching_ids List.filter snd]. unfold where_true at 1.
  destruct (Hev r) as [v Hv]; [rewrite fmap_cons; apply list_elem_of_here |].
  rewrite Hv, IH.
  - by destruct (strict_equal v (VBool true)).
  - intros r' Hr'. apply Hev. rewrite fmap_cons. by apply list_elem_of_further.
Qed.

Lemma all_fulfilled_values {A B} (f : A -> promise B) (xs : list A) :
  (forall x, x ∈ xs -> exists t v, f x = Fulfilled t v) ->
  exists l, Forall2 (fun p a => exists t, p = Fulfilled t a) (f <$> xs) l.
Proof.
  induction xs as [|x xs IH]; intros Hall; [by exists [] |].
  destruct (Hall x) as (t & v & Hx); [apply list_elem_of_here |].
  destruct IH as [l Hl]; [intros y Hy; apply Hall; by apply list_elem_of_further |].
  exists (v :: l). rewrite fmap_cons. constructor; [eauto | done].
Qed.

Lemma update_object_keys (assignments : list (string * expr)) (o : obj) :
  dom (fold_left (fun updateObj item => set_prop updateObj item.1 (expr_value item.2))
                 assignments o)
  = list_to_set assignments.*1 ∪ dom o.
Proof.
  revert o. induction assignments as [|[c e] assignments IH]; intros o.
  - simpl. by rewrite (left_id_L ∅ (∪)).
  - cbn [fold_left]. rewrite IH. unfold set_prop. cbn [fst snd].
    rewrite dom_insert_L, fmap_cons, list_to_set_cons. cbn [fst].
    by rewrite (assoc_L (∪)), (comm_L (∪) (list_to_set assignments.*1) {[c]}).
Qed.

Lemma where_true_holds (where_ : option expr) (r : obj) :
  from_option condition true where_ = true ->
  where_true where_ r = where_holds where_ false r.
Proof.
  intros Hc. unfold where_true, where_holds.
  destruct where_ as [w|]; [| done]. simpl in Hc.
  destruct (doWhere (Some w) r false) as [v|e] eqn:Hv; [| done].
  destruct (doWhere_condition_boolean w r false v Hc Hv) as [[] ->]; done.
Qed.



(** X18: a DELETE on a loaded table, whose WHERE clause evaluates on every
    row, calls [remove] once for each row on which [doWhere] is [true], in
    the order of the snapshot, and nothing else after the [load]; when the
    backend fulfils these calls the caller receives the indices of the
    removed rows.  When the WHERE clause is absent or a condition built
    from comparisons with AND and OR, these are the rows that a SELECT with
    the same clause keeps. *)
Theorem delete_removes_matching_rows (b : backend) (sqlobj : delete)
    (from : from_item) (rest : list from_item) (table : snapshot) (t : nat) :
  d_from sqlobj = from :: rest ->
  load b (f_table from) = Fulfilled t table ->
  (forall r, r ∈ table.*2 -> exists v, doWhere (d_where sqlobj) r false = Ok v) ->
  calls (doDelete b sqlobj)
  = CallLoad (f_table from)
    :: (CallRemove (f_table from)
        <$> (List.filter (fun p => where_true (d_where sqlobj) p.2) table).*1)
  /\ ((forall row_id, exists t' v, remove b (f_table from) row_id = Fulfilled t' v) ->
      exists t',
        settles (doDelete b sqlobj)
        = Fulfilled t'
            (List.filter (fun p => where_true (d_where sqlobj) p.2) table).*1)
  /\ (from_option condition true (d_where sqlobj) = true ->
      (List.filter (fun p => where_true (d_where sqlobj) p.2) table).*2
      = List.filter (where_holds (d_where sqlobj) false) (table.*2)).
Proof.
  intros Hfrom Hload Hev. split; [| split].
  - unfold doDelete. rewrite Hfrom, Hload, matching_ids_spec by done. reflexivity.
  - intros Hremove. unfold doDelete.
    rewrite Hfrom, Hload, matching_ids_spec by done. cbn [settles].
    set (ids := (List.filter _ table).*1).
    destruct (all_fulfilled_values
                (fun row_id => remove b (f_table from) row_id) ids) as [l Hl].
    { intros row_id _. apply Hremove. }
    destruct (Promise_all_fulfilled _ _ Hl) as [t' ->]. by eexists.
  - intros Hc. clear Hev Hload. induction table as [|[row_id r] table IH]; [done |].
    cbn [List.filter fmap list_fmap snd]. rewrite where_true_holds by done.
    destruct (where_holds (d_where sqlobj) false r); [| exact IH].
    rewrite fmap_cons. cbn [snd]. f_equal. exact IH.
Qed.

Lemma delete_removes_matching_rows_witness :
  calls (doDelete (Examples.serving Examples.three_rows) MoreCases.delete_above_2)
  = CallLoad "t"
    :: (CallRemove "t"
        <$> (List.filter (fun p => where_true (Some MoreCases.v_above_2) p.2)
                         (Examples.three_rows "t")).*1)
  /\ (exists t',
        settles (doDelete (Examples.serving Examples.three_rows)
                          MoreCases.delete_above_2)
        = Fulfilled t'
            (List.filter (fun p => where_true (Some MoreCases.v_above_2) p.2)
                         (Examples.three_rows "t")).*1)
  /\ (List.filter (fun p => where_true (Some MoreCases.v_above_2) p.2)
                  (Examples.three_rows "t")).*2
     = List.filter (where_holds (Some MoreCases.v_above_2) false)
                   ((Examples.three_rows "t").*2).
Proof.
  destruct (delete_removes_matching_rows (Examples.serving Examples.three_rows)
              MoreCases.delete_above_2 (Examples.from1 "t") []
              (Examples.three_rows "t") 1 eq_refl eq_refl)
    as (Hcalls & Hsettles & Hsame).
  - intros r Hr. unfold Examples.three_rows in Hr. simpl in Hr.
    repeat (apply elem_of_cons in Hr as [-> | Hr];
            [eexists; vm_compute; reflexivity |]).
    inversion Hr.
  - split; [exact Hcalls |]. split; [| exact (Hsame eq_refl)].
    apply Hsettles. intros row_id. eexists. eexists. reflexivity.
Defined.

(** ** The DROP recognizer and the statement text *)

Lemma append_cons (c : ascii) (s t : string) :
  String c s +:+ t = String c (s +:+ t).
Proof. reflexivity. Qed.

Lemma append_nil (t : string) : EmptyString +:+ t = t.
Proof. reflexivity. Qed.

Lemma append_empty (s : string) : s +:+ EmptyString = s.
Proof. induction s as [|c s IH]; [done |]. by rewrite append_cons, IH. Qed.

Lemma greedy_class_all (cls : ascii -> bool) (rest : string -> option string)
    (s : string) :
  every_char cls s = true ->
  rest EmptyString = Some EmptyString ->
  greedy cls String rest s = Some s.
Proof.
  intros Hall Hrest. induction s as [|c s IH]; [done |].
  cbn [every_char] in Hall. apply andb_prop in Hall as [Hc Hs].
  cbn [greedy]. by rewrite Hc, IH.
Qed.

Lemma greedy_class_then (cls : ascii -> bool) (rest : string -> option string)
    (s tail r : string) :
  every_char cls s = true ->
  greedy cls String rest tail = Some r ->
  greedy cls String rest (s +:+ tail) = Some (s +:+ r).
Proof.
  intros Hall Hrest. induction s as [|c s IH]; [done |].
  cbn [every_char] in Hall. apply andb_prop in Hall as [Hc Hs].
  rewrite !append_cons. cbn [greedy]. by rewrite Hc, IH.
Qed.

Lemma DROP_matches (name : string) :
  name <> EmptyString ->
  every_char (fun c => negb (is_whitespace c)) name = true ->
  match_pieces DROP_re ("DROP TABLE " +:+ name) = Some name
  /\ match_pieces DROP_re ("drop table " +:+ name +:+ " ;") = Some name.
Proof.
  intros Hne Hws. destruct name as [|c name]; [done |].
  cbn [every_char] in Hws. apply andb_prop in Hws as [Hc Hname].
  apply negb_true_iff in Hc.
  rewrite !append_cons, !append_nil.
  split.
  - cbn. rewrite Hc. cbn. by rewrite greedy_class_all.
  - cbn. rewrite Hc. cbn.
    rewrite (greedy_class_then _ _ name " ;" EmptyString); [| done | done].
    cbn. by rewrite append_empty.
Qed.

Lemma whitespace_not_D (c : ascii) :
  is_whitespace c = true -> Ascii.eqb (to_upper_char c) "D" = false.
Proof. destruct c as [[] [] [] [] [] [] [] []]; done. Qed.

Lemma match_letter_none (c d : ascii) (ps : list piece) (s : string) :
  Ascii.eqb (to_upper_char d) (to_upper_char c) = false ->
  match_pieces (letter c :: ps) (String d s) = None.
Proof. intros Hd. cbn [match_pieces letter p_quant p_class]. by rewrite Hd. Qed.

Lemma match_letter_empty (c : ascii) (ps : list piece) :
  match_pieces (letter c :: ps) EmptyString = None.
Proof. reflexivity. Qed.

Lemma match_spaces_star (ps : list piece) (s : string) :
  match_pieces (spaces ZeroOrMore :: ps) s
  = greedy is_whitespace (fun _ r => r) (match_pieces ps) s.
Proof. reflexivity. Qed.

Lemma greedy_spaces_none (rest : string -> option string) (s : string) :
  rest EmptyString = None ->
  (forall c s', Ascii.eqb (to_upper_char c) "D" = false ->
                rest (String c s') = None) ->
  match trim_start s with
  | String c _ => negb (Ascii.eqb (to_upper_char c) "D")
  | EmptyString => true
  end = true ->
  greedy is_whitespace (fun _ r => r) rest s = None.
Proof.
  intros Hempty Hrest. induction s as [|c s IH]; intros Hcond; [exact Hempty |].
  cbn [trim_start] in Hcond. cbn [greedy].
  destruct (is_whitespace c) eqn:Hws.
  - rewrite (IH Hcond). apply Hrest. by apply whitespace_not_D.
  - apply Hrest. by apply negb_true_iff.
Qed.

Lemma DROP_no_match (sql : string) :
  match trim_start sql with
  | String c _ => negb (Ascii.eqb (to_upper_char c) "D")
  | EmptyString => true
  end = true ->
  match_pieces DROP_re sql = None.
Proof.
  intros Hcond. unfold DROP_re. rewrite match_spaces_star.
  apply greedy_spaces_none; [apply match_letter_empty | | exact Hcond].
  intros c s' Hc. apply match_letter_none. exact Hc.
Qed.

(** X19: the text DROP TABLE followed by a name (a non-empty text without
    white space), when the parser refuses it, is run as the DROP of the
    table of that name: the only backend calls are [ready] and [drop] of
    the name, and the outcome of [drop] is the outcome of the statement.
    The same holds in lower case with the name followed by a space and a
    semicolon.  The name is whatever stands up to the end or the next
    white space, a semicolon written directly after it included. *)
Theorem drop_table_by_text (parse : string -> outcome statement) (b : backend)
    (sql name : string) (err : thrown) (t : nat) (v : value) :
  name <> EmptyString ->
  every_char (fun c => negb (is_whitespace c)) name = true ->
  sql = "DROP TABLE " +:+ name \/ sql = "drop table " +:+ name +:+ " ;" ->
  parse sql = Throw err ->
  ready b = Fulfilled t v ->
  runSQL_text parse b sql
  = {| calls := [CallReady; CallDrop name];
       settles := not_before t (then_ (drop b name) (fun a => Ok (Flag a))) |}.
Proof.
  intros Hne Hws Hsql Hparse Hready.
  destruct (DROP_matches name Hne Hws) as [Hupper Hlower].
  unfold runSQL_text, statement_of, DROP_convert. rewrite Hready, Hparse.
  destruct Hsql as [-> | ->]; [rewrite Hupper | rewrite Hlower]; reflexivity.
Qed.

Lemma drop_table_by_text_witness :
  runSQL_text (fun _ => Throw (ErrorObject "syntax error"))
              (Examples.serving Examples.three_rows) "DROP TABLE t;"
  = {| calls := [CallReady; CallDrop "t;"];
       settles := not_before 0
                    (then_ (drop (Examples.serving Examples.three_rows) "t;")
                           (fun a => Ok (Flag a))) |}.
Proof.
  apply (drop_table_by_text (fun _ => Throw (ErrorObject "syntax error"))
           (Examples.serving Examples.three_rows) "DROP TABLE t;" "t;"
           (ErrorObject "syntax error") 0 (VBool true));
    [discriminate | reflexivity | by left | reflexivity | reflexivity].
Defined.

(** X20: a text that the parser refuses and whose first character after
    leading white space is not a D (in either case) is no DROP statement:
    once [ready] is fulfilled the statement is rejected with the error of
    the parser, unchanged, and the backend sees no other call. *)
Theorem refused_text_keeps_parser_error (parse : string -> outcome statement)
    (b : backend) (sql : string) (err : thrown) (t : nat) (v : value) :
  parse sql = Throw err ->
  match trim_start sql with
  | String c _ => negb (Ascii.eqb (to_upper_char c) "D")
  | EmptyString => true
  end = true ->
  ready b = Fulfilled t v ->
  runSQL_text parse b sql = {| calls := [CallReady]; settles := Rejected t err |}.
Proof.
  intros Hparse Hhead Hready.
  unfold runSQL_text, statement_of, DROP_convert.
  by rewrite Hready, Hparse, (DROP_no_match sql Hhead).
Qed.

Lemma refused_text_keeps_parser_error_witness :
  runSQL_text (fun _ => Throw (ErrorObject "syntax error"))
              (Examples.serving Examples.three_rows) "  SELEKT * FROM t"
  = {| calls := [CallReady]; settles := Rejected 0 (ErrorObject "syntax error") |}.
Proof.
  apply (refused_text_keeps_parser_error
           (fun _ => Throw (ErrorObject "syntax error"))
           (Examples.serving Examples.three_rows) "  SELEKT * FROM t"
           (ErrorObject "syntax error") 0 (VBool true));
    reflexivity.
Defined.

(** ** The backend calls of a statement *)

(** X21: whatever the backend answers, a statement calls, besides [ready],
    only the primitives of its own kind and only on its own tables: a
    SELECT only loads the tables of its FROM list, an UPDATE loads its
    table and stores under existing indices of it, an INSERT only stores
    new rows in its table, a DELETE loads and removes in the first table
    of its FROM list, a CREATE only creates and a DROP only drops the
    table named; a statement of another type calls nothing. *)
Theorem calls_belong_to_statement (b : backend) (sqlobj : statement) :
  Forall (belongs_to sqlobj) (calls (execute b sqlobj)).
Proof.
  unfold execute, runSQL.
  destruct (ready b) as [t v|t e|]; cbn [calls];
    [| by repeat constructor; destruct sqlobj
     | by repeat constructor; destruct sqlobj].
  constructor; [by destruct sqlobj |].
  destruct sqlobj as [s|s|s|s|s|name|type]; cbn [dispatch map_run calls].
  - unfold doSelect. cbn [calls]. apply Forall_fmap, Forall_forall.
    intros f Hf. cbn. by apply list_elem_of_fmap_2.
  - unfold doUpdate. destruct (load b (u_table s)) as [t' table|t' e|];
      [| by repeat constructor | by repeat constructor].
    destruct (matching_ids (u_where s) table) as [rows thrown_]. cbn [calls].
    constructor; [done |]. apply Forall_fmap, Forall_forall. by intros row_id _.
  - unfold doInsert.
    destruct (insert_rows (i_columns s) (i_values s)) as [stored thrown_].
    cbn [calls]. apply Forall_fmap, Forall_forall. by intros data _.
  - unfold doDelete. destruct (d_from s) as [|from rest] eqn:Hfrom;
      [constructor |].
    destruct (load b (f_table from)) as [t' table|t' e|];
      [| repeat constructor; cbn; by rewrite Hfrom
       | repeat constructor; cbn; by rewrite Hfrom].
    destruct (matching_ids (d_where s) table) as [rows thrown_]. cbn [calls].
    constructor; [cbn; by rewrite Hfrom |].
    apply Forall_fmap, Forall_forall. intros row_id _. cbn. by rewrite Hfrom.
  - unfold doCreate.
    destruct (column_definitions 0 (ct_columns s)) as [columns|e];
      by repeat constructor.
  - unfold doDrop. by repeat constructor.
  - constructor.
Qed.

(** ** Tables listed without one of the four join kinds *)

Lemma fold_joins_unlisted (namespace : bool) (rows : list obj)
    (others : list loaded) :
  Forall (fun second => listed_join (l_from second) = false) others ->
  fold_joins namespace rows others = Ok rows.
Proof.
  induction 1 as [|second others Hkind _ IH]; [done |].
  cbn [fold_joins]. unfold listed_join, one_of in Hkind.
  cbn [existsb] in Hkind.
  repeat (apply orb_false_elim in Hkind as [-> Hkind]).
  cbn [mbind outcome_bind]. exact IH.
Qed.

(** X22: a table that stands in the FROM list without one of the four
    join kinds INNER JOIN, LEFT JOIN, RIGHT JOIN, FULL JOIN (a table
    after a comma, for instance) is loaded and then dropped from the
    statement: SELECT * over two such tables returns the rows of the
    first table alone, with their fields named table.column, filtered by
    the WHERE clause; no row of the second table and no combination of
    rows is returned. *)
Theorem unjoined_table_is_dropped (b : backend) (sqlobj : select)
    (first second : from_item) (rows1 rows2 : snapshot) (t0 t1 t2 : nat)
    (v : value) :
  s_columns sqlobj = Star -> s_from sqlobj = [first; second] ->
  s_orderby sqlobj = None -> s_limit sqlobj = None ->
  listed_join second = false ->
  ready b = Fulfilled t0 v ->
  load b (f_table first) = Fulfilled t1 rows1 ->
  load b (f_table second) = Fulfilled t2 rows2 ->
  (forall r, r ∈ rows1.*2 ->
     exists x, doWhere (s_where sqlobj) (namespace_row (f_table first) r) true
               = Ok x) ->
  execute b (Select sqlobj)
  = {| calls := [CallReady; CallLoad (f_table first); CallLoad (f_table second)];
       settles := Fulfilled (Nat.max t0 (Nat.max t1 t2))
                    (Rows (List.filter (where_holds (s_where sqlobj) true)
                             (namespace_row (f_table first) <$> rows1.*2))) |}.
Proof.
  intros Hstar Hfrom Horder Hlimit Hkind Hready Hload1 Hload2 Hev.
  unfold execute, runSQL. rewrite Hready.
  unfold dispatch, map_run, doSelect, doSelect_chain.
  rewrite Hfrom. cbn [fmap list_fmap length Nat.ltb Nat.leb calls settles].
  rewrite Hload1, Hload2.
  cbn [Promise_all first_rejection fold_left earlier_rejection
       all_fulfilled mbind option_bind then_].
  unfold select_rows. rewrite Hfrom, Horder, Hlimit.
  cbn [zip_with load_table l_rows].
  rewrite fold_joins_unlisted by (by constructor).
  cbn [mbind outcome_bind]. rewrite filter_where_spec.
  - cbn [mbind outcome_bind].
    rewrite (chooseFields_star_fold sqlobj _ [] true Hstar).
    cbn [apply_limit resolved_by then_ not_before app].
    by rewrite Nat.max_0_r.
  - intros r Hr. apply list_elem_of_fmap in Hr as (r0 & -> & Hr0). by apply Hev.
Qed.

Lemma unjoined_table_is_dropped_witness :
  execute (Examples.serving Examples.three_rows)
          (Select MoreCases.select_from_two)
  = {| calls := [CallReady; CallLoad "a"; CallLoad "b"];
       settles := Fulfilled 1
                    (Rows (List.filter (where_holds None true)
                             (namespace_row "a" <$> (Examples.three_rows "a").*2))) |}.
Proof.
  apply (unjoined_table_is_dropped
           (Examples.serving Examples.three_rows) MoreCases.select_from_two
           (Examples.from1 "a") (Examples.from1 "b")
           (Examples.three_rows "a") (Examples.three_rows "b") 0 1 1
           (VBool true));
    try reflexivity.
  intros r _. by eexists.
Defined.

(** ** CREATE TABLE *)

Lemma column_definition_name_index (n : nat) (col : column_spec) (def : obj) :
  column_definition n col = Ok def ->
  def !! "name" = Some (VStr (cs_name col))
  /\ def !! "index" = Some (VNum (Int (Z.of_nat n))).
Proof.
  unfold column_definition, set_prop, first_arg.
  destruct (cs_args col) as [args|]; cbn [mbind outcome_bind];
  repeat (match goal with
          | |- context [if one_of ?l ?s then _ else _] => destruct (one_of l s)
          end; try discriminate);
    intros [= <-]; split;
    repeat (rewrite lookup_insert_ne by done); by rewrite lookup_insert_eq.
Qed.

Lemma column_definitions_supported (cols : list column_spec) (k : nat) :
  Forall (fun col => one_of unsupported_types (toUpperCase (cs_type col)) = false
                     /\ has_length_argument col = true)
         cols ->
  exists defs, column_definitions k cols = Ok defs /\ length defs = length cols.
Proof.
  intros Hall. revert k. induction Hall as [|col cols Hcol _ IH]; intros k.
  - by exists [].
  - cbn [column_definitions].
    destruct (column_definition k col) as [def|e] eqn:Hdef.
    + destruct (IH (S k)) as (defs & -> & Hlen).
      exists (def :: defs). cbn. by rewrite Hlen.
    + destruct Hcol as [Hun Hlen].
      apply column_definition_throw in Hdef as [[Hun' _] | [Hlen' _]]; congruence.
Qed.

(** X23: a CREATE none of whose columns has one of the types INTERVAL,
    ARRAY, MULTISET, XML, and whose columns of the types CHAR, CHARACTER,
    VARCHAR, BINARY, VARBINARY are written with their argument, calls
    [create] once, with the name of the table and one definition for each
    column, in the order of the statement;
    the definition at position n carries the name of the n-th column and
    the index n (counted from 0); when the backend fulfils the call, the
    statement is fulfilled with the same value at the same time. *)
Theorem create_passes_one_definition_per_column (b : backend)
    (sqlobj : create_table) :
  Forall (fun col => one_of unsupported_types (toUpperCase (cs_type col)) = false
                     /\ has_length_argument col = true)
         (ct_columns sqlobj) ->
  exists defs,
    calls (doCreate b sqlobj) = [CallCreate (ct_name sqlobj) defs]
    /\ length defs = length (ct_columns sqlobj)
    /\ (forall n col, ct_columns sqlobj !! n = Some col ->
          exists def, defs !! n = Some def
                      /\ def !! "name" = Some (VStr (cs_name col))
                      /\ def !! "index" = Some (VNum (Int (Z.of_nat n))))
    /\ (forall t v, create b (ct_name sqlobj) defs = Fulfilled t v ->
          settles (doCreate b sqlobj) = Fulfilled t v).
Proof.
  intros Hall.
  destruct (column_definitions_supported _ 0 Hall) as (defs & Hdefs & Hlen).
  exists defs. unfold doCreate. rewrite Hdefs. cbn [calls settles].
  repeat split; [done | | by intros t v ->].
  intros n col Hcol.
  destruct (column_definitions_lookup _ _ _ _ _ Hdefs Hcol) as (def & Hlook & Hdef).
  exists def. split; [done |]. by apply column_definition_name_index in Hdef.
Qed.

Lemma create_passes_one_definition_per_column_witness :
  exists defs,
    calls (doCreate (Examples.serving Examples.three_rows) MoreCases.create_lower)
    = [CallCreate "t" defs]
    /\ length defs = 2%nat
    /\ (exists def, defs !! 1%nat = Some def
                    /\ def !! "name" = Some (VStr "c")
                    /\ def !! "index" = Some (VNum (Int 1)))
    /\ settles (doCreate (Examples.serving Examples.three_rows)
                         MoreCases.create_lower)
       = Fulfilled 1 (VBool true).
Proof.
  destruct (create_passes_one_definition_per_column
              (Examples.serving Examples.three_rows) MoreCases.create_lower)
    as (defs & Hcalls & Hlen & Hcols & Hsettles).
  - repeat constructor.
  - exists defs. split; [exact Hcalls |]. split; [exact Hlen |].
    split; [| exact (Hsettles 1%nat (VBool true) eq_refl)].
    exact (Hcols 1%nat
             {| cs_name := "c"; cs_type := "VarChar";
                cs_args := Some [Examples.num 10] |} eq_refl).
Defined.

Lemma column_definition_same_token (n : nat) (c1 c2 : column_spec) :
  cs_name c1 = cs_name c2 -> cs_args c1 = cs_args c2 ->
  toUpperCase (cs_type c1) = toUpperCase (cs_type c2) ->
  column_definition n c1 = column_definition n c2.
Proof. unfold column_definition, first_arg. by intros -> -> ->. Qed.

(** X24: the type names of a CREATE are read without regard to the case
    of their letters: two statements for the same table whose columns
    agree in name and arguments, and in type up to the case of the
    letters, do the same, whatever the backend answers. *)
Theorem create_type_case_insensitive (b : backend) (s1 s2 : create_table) :
  ct_name s1 = ct_name s2 ->
  Forall2 (fun c1 c2 => cs_name c1 = cs_name c2 /\ cs_args c1 = cs_args c2
                        /\ toUpperCase (cs_type c1) = toUpperCase (cs_type c2))
          (ct_columns s1) (ct_columns s2) ->
  doCreate b s1 = doCreate b s2.
Proof.
  intros Hname Hcols. unfold doCreate. rewrite Hname.
  enough (forall k, column_definitions k (ct_columns s1)
                    = column_definitions k (ct_columns s2)) as -> by done.
  induction Hcols as [|c1 c2 cols1 cols2 (Hn & Ha & Ht) _ IH]; intros k; [done |].
  cbn [column_definitions].
  by rewrite (column_definition_same_token k c1 c2 Hn Ha Ht), IH.
Qed.

Lemma create_type_case_insensitive_witness :
  doCreate (Examples.serving Examples.three_rows) MoreCases.create_lower
  = doCreate (Examples.serving Examples.three_rows) MoreCases.create_upper.
Proof.
  apply (create_type_case_insensitive (Examples.serving Examples.three_rows)
           MoreCases.create_lower MoreCases.create_upper eq_refl).
  repeat constructor.
Defined.

(** ** LIMIT *)

Lemma digit_of_pretty_N_char (d : N) :
  (d < 10)%N -> digit_of (pretty_N_char d) = Some (Z.of_N d).
Proof.
  intros Hd.
  assert (d = 0 \/ d = 1 \/ d = 2 \/ d = 3 \/ d = 4 \/ d = 5 \/ d = 6 \/ d = 7
          \/ d = 8 \/ d = 9)%N as Hcases by lia.
  repeat (destruct Hcases as [-> | Hcases]; [reflexivity |]). by subst.
Qed.

Lemma digit_is_plain (c : ascii) (d : Z) :
  digit_of c = Some d ->
  is_whitespace c = false /\ c <> "-"%char /\ c <> "+"%char
  /\ c <> "x"%char /\ c <> "X"%char.
Proof.
  destruct c as [[] [] [] [] [] [] [] []]; try discriminate; intros _;
    repeat split; discriminate.
Qed.

Lemma split_sign_plain (c : ascii) (s : string) :
  c <> "-"%char -> c <> "+"%char -> split_sign (String c s) = (1, String c s).
Proof.
  intros Hminus Hplus.
  destruct c as [[] [] [] [] [] [] [] []]; try reflexivity; congruence.
Qed.

Lemma parseInt_plain (s : string) :
  trim_start s = s -> split_sign s = (1, s) ->
  (forall rest, s <> String "0" (String "x" rest)) ->
  (forall rest, s <> String "0" (String "X" rest)) ->
  parseInt (VStr s)
  = match digits_prefix digit_of 10 0 0 s with
    | (n, S _, _) => Int (1 * n)
    | _ => NaN
    end.
Proof.
  intros Htrim Hsign Hx HX. unfold parseInt. cbn [ToString].
  rewrite Htrim, Hsign.
  destruct s as [|c s]; [reflexivity |].
  destruct c as [[] [] [] [] [] [] [] []]; try reflexivity.
  destruct s as [|c s]; [reflexivity |].
  destruct c as [[] [] [] [] [] [] [] []]; try reflexivity.
  all: first [by destruct (HX s) | by destruct (Hx s)].
Qed.

(** A string that [digits_prefix] reads to its end as the decimal numeral
    of [v], with [n] digits. *)
Lemma parseInt_numeral (s : string) (n : nat) (v : Z) :
  (0 < n)%nat ->
  (forall acc count,
     digits_prefix digit_of 10 acc count s
     = (acc * 10 ^ Z.of_nat n + v, (count + n)%nat, EmptyString)) ->
  parseInt (VStr s) = Int v.
Proof.
  intros Hn Hread. pose proof (Hread 0 0%nat) as H0.
  destruct s as [|c s]; [cbn in H0; injection H0 as _ Hlen; lia |].
  cbn [digits_prefix] in H0.
  destruct (digit_of c) as [d|] eqn:Hd; [| discriminate].
  destruct (digit_is_plain c d Hd) as (Hws & Hminus & Hplus & _).
  rewrite parseInt_plain.
  - rewrite Hread. destruct n; [lia |]. cbn [Nat.add]. f_equal. lia.
  - cbn [trim_start]. by rewrite Hws.
  - by apply split_sign_plain.
  - intros rest [= -> ->]. cbn in H0. discriminate.
  - intros rest [= -> ->]. cbn in H0. discriminate.
Qed.

Lemma digits_prefix_pretty_N_go (x : N) :
  forall (s : string) (n : nat) (v : Z),
    (forall acc count,
       digits_prefix digit_of 10 acc count s
       = (acc * 10 ^ Z.of_nat n + v, (count + n)%nat, EmptyString)) ->
    exists n', (n <= n')%nat /\ ((0 < x)%N -> (n < n')%nat)
      /\ forall acc count,
           digits_prefix digit_of 10 acc count (pretty_N_go x s)
           = (acc * 10 ^ Z.of_nat n' + (Z.of_N x * 10 ^ Z.of_nat n + v),
              (count + n')%nat, EmptyString).
Proof.
  induction (N.lt_wf_0 x) as [x _ IH]; intros s n v Hs.
  assert (x = 0 \/ 0 < x)%N as [-> | Hpos] by lia.
  - exists n. rewrite pretty_N_go_0. split; [lia |]. split; [lia |].
    intros acc count. by rewrite Hs.
  - rewrite pretty_N_go_step by done.
    destruct (IH (x `div` 10)%N (N.div_lt x 10 Hpos eq_refl)
                 (String (pretty_N_char (x `mod` 10)) s) (S n)
                 (Z.of_N (x `mod` 10) * 10 ^ Z.of_nat n + v))
      as (n' & Hle & _ & Hread).
    + intros acc count. cbn [digits_prefix].
      rewrite digit_of_pretty_N_char by (by apply N.mod_lt).
      rewrite Hs. rewrite Nat2Z.inj_succ, Z.pow_succ_r by lia.
      triple_equal.
    + exists n'. split; [lia |]. split; [lia |].
      intros acc count. rewrite Hread.
      rewrite Nat2Z.inj_succ, Z.pow_succ_r by lia.
      assert (Z.of_N x = 10 * Z.of_N (x `div` 10) + Z.of_N (x `mod` 10)) as Hx.
      { rewrite (N.div_mod x 10) at 1 by done.
        by rewrite N2Z.inj_add, N2Z.inj_mul. }
      triple_equal. rewrite Hx. ring.
Qed.

Lemma parseInt_number (z : Z) : 0 <= z -> parseInt (VNum (Int z)) = Int z.
Proof.
  intros Hz. destruct z as [|p|p]; [reflexivity | | lia].
  change (parseInt (VNum (Int (Z.pos p))))
    with (parseInt (VStr (pretty_N_go (N.pos p) EmptyString))).
  destruct (digits_prefix_pretty_N_go (N.pos p) EmptyString 0 0)
    as (n' & _ & Hpos & Hread).
  { intros acc count. cbn [digits_prefix].
    triple_equal. change (10 ^ Z.of_nat 0) with 1. ring. }
  apply (parseInt_numeral _ n'); [apply Hpos; lia |].
  intros acc count. rewrite Hread.
  triple_equal. change (10 ^ Z.of_nat 0) with 1.
  change (Z.of_N (N.pos p)) with (Z.pos p). ring.
Qed.

Lemma apply_limit_numbers {A} (result : list A) (o n : Z) :
  0 <= o -> 0 <= n ->
  slice result (Int o) (num_add (Int o) (Int n))
  = take (Z.to_nat n) (skipn (Z.to_nat o) result).
Proof.
  intros Ho Hn. unfold slice, num_add, relative_index.
  destruct (Z.ltb_spec o 0) as [|_]; [lia |].
  destruct (Z.ltb_spec (o + n) 0) as [|_]; [lia |].
  destruct (Z.le_gt_cases (Z.of_nat (length result)) o) as [Hout | Hin].
  - rewrite Z.min_r by lia. rewrite Nat2Z.id.
    rewrite !drop_ge by lia. by rewrite !take_nil.
  - rewrite (Z.min_l o) by lia.
    destruct (Z.le_gt_cases (o + n) (Z.of_nat (length result))) as [Hfit | Hcut].
    + rewrite Z.min_l by lia. f_equal. lia.
    + rewrite Z.min_r by lia. rewrite Nat2Z.id.
      rewrite !take_ge; [done | |]; rewrite length_drop; lia.
Qed.

(** X25: SELECT * FROM t WHERE w LIMIT o, n, where o and n are written as
    non-negative integers (below 10^21, which are printed in plain
    decimal digits): the caller receives the rows on which the WHERE
    clause holds, without the first o of them and at most n of them, in
    the order of the snapshot. *)
Theorem limit_skips_then_takes (b : backend) (sqlobj : select)
    (from : from_item) (table : snapshot) (t0 t1 : nat) (v : value) (o n : Z) :
  s_columns sqlobj = Star -> s_from sqlobj = [from] ->
  s_orderby sqlobj = None ->
  s_limit sqlobj = Some [literal (VNum (Int o)); literal (VNum (Int n))] ->
  0 <= o < 10 ^ 21 -> 0 <= n < 10 ^ 21 ->
  ready b = Fulfilled t0 v -> load b (f_table from) = Fulfilled t1 table ->
  (forall r, r ∈ table.*2 -> exists x, doWhere (s_where sqlobj) r false = Ok x) ->
  execute b (Select sqlobj)
  = {| calls := [CallReady; CallLoad (f_table from)];
       settles := Fulfilled (Nat.max t0 t1)
                    (Rows (take (Z.to_nat n)
                             (skipn (Z.to_nat o)
                                (List.filter (where_holds (s_where sqlobj) false)
                                             (table.*2))))) |}.
Proof.
  intros Hstar Hfrom Horder Hlimit [Ho _] [Hn _] Hready Hload Hev.
  unfold execute, runSQL. rewrite Hready.
  unfold dispatch, map_run, doSelect, doSelect_chain.
  rewrite Hfrom. cbn [fmap list_fmap length Nat.ltb Nat.leb calls settles].
  rewrite Hload. cbn [Promise_all first_rejection fold_left earlier_rejection
                      all_fulfilled mbind option_bind then_].
  unfold select_rows. rewrite Hfrom, Horder, Hlimit.
  cbn [zip_with load_table l_rows fold_joins mbind outcome_bind].
  rewrite filter_where_spec by done. cbn [mbind outcome_bind].
  rewrite (chooseFields_star_fold sqlobj _ [] false Hstar).
  unfold apply_limit.
  cbn [length Nat.eqb negb lookup list_lookup default id expr_value app].
  rewrite !parseInt_number by done. rewrite apply_limit_numbers by done.
  cbn [not_before resolved_by then_]. by rewrite Nat.max_0_r.
Qed.

Lemma limit_skips_then_takes_witness :
  execute (Examples.serving Examples.three_rows)
          (Select MoreCases.select_limit_1_1)
  = {| calls := [CallReady; CallLoad "t"];
       settles := Fulfilled 1
                    (Rows (take 1 (skipn 1
                             (List.filter (where_holds None false)
                                          ((Examples.three_rows "t").*2))))) |}.
Proof.
  apply (limit_skips_then_takes
           (Examples.serving Examples.three_rows) MoreCases.select_limit_1_1
           (Examples.from1 "t") (Examples.three_rows "t") 0 1 (VBool true) 1 1);
    try reflexivity; try lia.
  intros r _. by eexists.
Defined.

(** ** Operators and aggregates without a case *)

Lemma doWhere_unknown_operator (operator : string) (l r : expr) (row : obj)
    (namespace : bool) :
  known_operator operator = false ->
  doWhere (Some (binary_expr operator l r)) row namespace = Ok (VBool false).
Proof.
  intros Hop. unfold known_operator, one_of in Hop. cbn [existsb] in Hop.
  repeat (apply orb_false_elim in Hop as [? Hop]).
  cbn [doWhere doWhere_node]. unfold apply_operator.
  repeat match goal with
         | H : String.eqb operator _ = false |- _ => rewrite H; clear H
         end.
  reflexivity.
Qed.

Lemma filter_where_never (where_ : option expr) (namespace : bool)
    (rows : list obj) :
  (forall r, doWhere where_ r namespace = Ok (VBool false)) ->
  filter_where where_ namespace rows = Ok [].
Proof.
  intros Hnever. induction rows as [|r rows IH]; [done |].
  cbn [filter_where]. rewrite Hnever. cbn [mbind outcome_bind]. by rewrite IH.
Qed.

(** X26: a comparison whose operator has no case in [doWhere] (IS NOT,
    IN, BETWEEN, NOT IN, ...) is false on every row, whatever its
    operands, which are not even read: a SELECT from one table with such
    a WHERE clause is fulfilled with no row, whatever the table holds and
    whatever columns and order are asked for. *)
Theorem unknown_operator_selects_nothing (b : backend) (sqlobj : select)
    (from : from_item) (table : snapshot) (t0 t1 : nat) (v : value)
    (operator : string) (l r : expr) :
  s_from sqlobj = [from] -> s_limit sqlobj = None ->
  s_where sqlobj = Some (binary_expr operator l r) ->
  known_operator operator = false ->
  ready b = Fulfilled t0 v -> load b (f_table from) = Fulfilled t1 table ->
  execute b (Select sqlobj)
  = {| calls := [CallReady; CallLoad (f_table from)];
       settles := Fulfilled (Nat.max t0 t1) (Rows []) |}.
Proof.
  intros Hfrom Hlimit Hwhere Hop Hready Hload.
  unfold execute, runSQL. rewrite Hready.
  unfold dispatch, map_run, doSelect, doSelect_chain.
  rewrite Hfrom. cbn [fmap list_fmap length Nat.ltb Nat.leb calls settles].
  rewrite Hload. cbn [Promise_all first_rejection fold_left earlier_rejection
                      all_fulfilled mbind option_bind then_].
  unfold select_rows. rewrite Hfrom, Hlimit, Hwhere.
  cbn [zip_with load_table l_rows fold_joins mbind outcome_bind].
  rewrite filter_where_never
    by (intros row; by apply doWhere_unknown_operator).
  cbn [mbind outcome_bind].
  destruct (s_orderby sqlobj) as [orderby|]; rewrite ?sort_nil;
    cbn [mbind outcome_bind fold_left apply_limit resolved_by then_ not_before];
    by rewrite Nat.max_0_r.
Qed.

Lemma unknown_operator_selects_nothing_witness :
  execute (Examples.serving Examples.three_rows)
          (Select MoreCases.select_is_not_null)
  = {| calls := [CallReady; CallLoad "t"];
       settles := Fulfilled 1 (Rows []) |}.
Proof.
  exact (unknown_operator_selects_nothing
           (Examples.serving Examples.three_rows) MoreCases.select_is_not_null
           (Examples.from1 "t") (Examples.three_rows "t") 0 1 (VBool true)
           "IS NOT" (Examples.col "v") (literal VNull)
           eq_refl eq_refl eq_refl eq_refl eq_refl eq_refl).
Defined.

Lemma other_aggregate_step (sqlobj : select) (fname : string) (args : expr)
    (alias : option string) (data : list obj) (r : obj) (namespace : bool) :
  s_columns sqlobj = Columns [{| c_expr := aggr_func fname args; c_as := alias |}] ->
  s_groupby sqlobj = None ->
  one_of ["SUM"; "COUNT"] (toUpperCase fname) = false ->
  chooseFields sqlobj data r namespace
  = if (length data <? 1)%nat then data ++ [∅] else data.
Proof.
  intros Hcols Hgroup Hf. unfold one_of in Hf. cbn [existsb] in Hf.
  repeat (apply orb_false_elim in Hf as [? Hf]).
  unfold chooseFields, groupby. rewrite Hcols, Hgroup.
  cbn [existsb is_aggr_func c_expr expr_type String.eqb orb].
  change (String.eqb "aggr_func" "aggr_func") with true. cbn [orb].
  destruct (length data <? 1)%nat;
    cbn [fold_left aggregate_column c_expr];
    repeat match goal with
           | H : String.eqb (toUpperCase fname) _ = false |- _ => rewrite H; clear H
           end; reflexivity.
Qed.

(** X27: an aggregate function other than SUM and COUNT (AVG, MIN, MAX,
    ...) selected alone without GROUP BY computes nothing: given at least
    one row the result is one row without any field, given no row it is
    empty. *)
Theorem other_aggregate_leaves_empty_row (sqlobj : select) (fname : string)
    (args : expr) (alias : option string) (rows : list obj) (namespace : bool) :
  s_columns sqlobj = Columns [{| c_expr := aggr_func fname args; c_as := alias |}] ->
  s_groupby sqlobj = None ->
  one_of ["SUM"; "COUNT"] (toUpperCase fname) = false ->
  fold_left (fun result r => chooseFields sqlobj result r namespace) rows []
  = match rows with
    | [] => []
    | _ :: _ => [∅]
    end.
Proof.
  intros Hcols Hgroup Hf. destruct rows as [|r rows]; [done |].
  cbn [fold_left].
  rewrite (other_aggregate_step sqlobj fname args alias [] r namespace) by done.
  cbn [length Nat.ltb Nat.leb app].
  induction rows as [|r' rows IH]; [done |].
  cbn [fold_left].
  by rewrite (other_aggregate_step sqlobj fname args alias [∅] r' namespace).
Qed.

Lemma other_aggregate_leaves_empty_row_witness :
  fold_left (fun result r => chooseFields MoreCases.avg_v result r false)
            Cases.three []
  = [∅].
Proof.
  exact (other_aggregate_leaves_empty_row MoreCases.avg_v "avg"
           (Examples.col "v") None Cases.three false eq_refl eq_refl eq_refl).
Defined.
